(** * A study blockchain in JavaScript: model and properties

    The repository contains three successive versions of the same two
    classes, [Block] and [Blockchain]:

    - the basic chain, hash linking only (module [Basic] below),
    - [index.js], the proof-of-work chain whose blocks carry arbitrary
      data (module [Generic]),
    - the transaction chain with a pending pool, a mining reward and
      balances (module [LedgerMode]).

    The classes are embedded as records and functions.  Fields are
    assigned in the order of the JavaScript statements, a property that
    was never assigned reads as [undefined], and string concatenation
    converts its operands the way the [+] operator does.  The digest
    comes from the crypto-js package; it is a parameter of every
    definition and instantiated with SHA-256 for the concrete runs.

    [createTimeStamp()] is imported from [utils.js]; a method that calls
    it takes the value it returns, a string, as an argument [now].
    Amounts, balances and the mining reward are JavaScript numbers, that
    is IEEE 754 doubles, with the rounding of the language; nonces and
    indices are the natural numbers a double holds exactly.  The loop of
    [mineBlock] runs on fuel, one unit for each test of its condition.

    Blocks are objects.  The classes are first given on values, which is
    what they do when [addBlock] receives a block that is not in the
    chain yet; the modules [BasicObjects] and [GenericObjects] then put
    the blocks on a heap and give [addBlock] on any object, one that is
    already in the chain included. *)

From Stdlib Require Import NArith ZArith List String Ascii Bool Lia Floats.
From Stdlib Require Import DecimalString.
Import ListNotations.
Open Scope string_scope.
(* A decimal literal denotes the nearest double, as in JavaScript. *)
Set Warnings "-register-all,-inexact-float".

(** ** SHA-256 (FIPS 180-4), the digest crypto-js computes

    [SHA256(s).toString()] encodes the characters of [s] in UTF-8, hashes
    the bytes and prints the 32 bytes of the digest as lowercase
    hexadecimal.  Strings are byte strings here, so the model coincides
    with the package on ASCII input. *)
Module Sha256.
Local Open Scope list_scope.
Local Open Scope N_scope.

Definition mask32 : N := 4294967295.
Definition wrap32 (x : N) : N := N.land x mask32.
Definition add32 (x y : N) : N := wrap32 (x + y).
Definition not32 (x : N) : N := N.lxor x mask32.
Definition rotr (n x : N) : N :=
  N.lor (N.shiftr x n) (wrap32 (N.shiftl x (32 - n))).

Definition Ch (x y z : N) : N := N.lxor (N.land x y) (N.land (not32 x) z).
Definition Maj (x y z : N) : N :=
  N.lxor (N.lxor (N.land x y) (N.land x z)) (N.land y z).
Definition bigsigma0 (x : N) : N :=
  N.lxor (N.lxor (rotr 2 x) (rotr 13 x)) (rotr 22 x).
Definition bigsigma1 (x : N) : N :=
  N.lxor (N.lxor (rotr 6 x) (rotr 11 x)) (rotr 25 x).
Definition smallsigma0 (x : N) : N :=
  N.lxor (N.lxor (rotr 7 x) (rotr 18 x)) (N.shiftr x 3).
Definition smallsigma1 (x : N) : N :=
  N.lxor (N.lxor (rotr 17 x) (rotr 19 x)) (N.shiftr x 10).

(** Round constants and initial state, in decimal. *)
Definition K : list N :=
  [1116352408; 1899447441; 3049323471; 3921009573; 961987163; 1508970993;
   2453635748; 2870763221; 3624381080; 310598401; 607225278; 1426881987;
   1925078388; 2162078206; 2614888103; 3248222580; 3835390401; 4022224774;
   264347078; 604807628; 770255983; 1249150122; 1555081692; 1996064986;
   2554220882; 2821834349; 2952996808; 3210313671; 3336571891; 3584528711;
   113926993; 338241895; 666307205; 773529912; 1294757372; 1396182291;
   1695183700; 1986661051; 2177026350; 2456956037; 2730485921; 2820302411;
   3259730800; 3345764771; 3516065817; 3600352804; 4094571909; 275423344;
   430227734; 506948616; 659060556; 883997877; 958139571; 1322822218;
   1537002063; 1747873779; 1955562222; 2024104815; 2227730452; 2361852424;
   2428436474; 2756734187; 3204031479; 3329325298].

Record state := mkState
  { sa : N; sb : N; sc : N; sd : N; se : N; sf : N; sg : N; sh : N }.

Definition H0 : state :=
  mkState 1779033703 3144134277 1013904242 2773480762
          1359893119 2600822924 528734635 1541459225.

(** Padding: one [0x80] byte, zero bytes up to 56 modulo 64, then the
    bit length on eight bytes, most significant first. *)
Definition be_bytes (count : nat) (x : N) : list N :=
  map (fun i => N.land (N.shiftr x (8 * N.of_nat i)) 255)
      (rev (seq 0 count)).

Definition pad (bytes : list N) : list N :=
  let len := List.length bytes in
  let zeros := Nat.modulo (119 - Nat.modulo len 64) 64 in
  bytes ++ [128] ++ repeat 0 zeros ++ be_bytes 8 (8 * N.of_nat len).

Fixpoint words_of_bytes (bytes : list N) : list N :=
  match bytes with
  | b3 :: b2 :: b1 :: b0 :: rest =>
      (N.shiftl b3 24 + N.shiftl b2 16 + N.shiftl b1 8 + b0)
        :: words_of_bytes rest
  | _ => []
  end.

(** Message schedule: [window] holds the last sixteen words, oldest
    first. *)
Fixpoint schedule (count : nat) (window : list N) : list N :=
  match count with
  | O => []
  | S count' =>
      let w :=
        add32 (add32 (smallsigma1 (nth 14 window 0)) (nth 9 window 0))
              (add32 (smallsigma0 (nth 1 window 0)) (nth 0 window 0)) in
      w :: schedule count' (tl window ++ [w])
  end.

Definition round (s : state) (kw : N * N) : state :=
  let t1 := add32 (add32 (add32 (sh s) (bigsigma1 (se s)))
                         (add32 (Ch (se s) (sf s) (sg s)) (fst kw)))
                  (snd kw) in
  let t2 := add32 (bigsigma0 (sa s)) (Maj (sa s) (sb s) (sc s)) in
  mkState (add32 t1 t2) (sa s) (sb s) (sc s)
          (add32 (sd s) t1) (se s) (sf s) (sg s).

Definition compress (s : state) (block : list N) : state :=
  let w := block ++ schedule 48 block in
  let r := fold_left round (combine K w) s in
  mkState (add32 (sa s) (sa r)) (add32 (sb s) (sb r))
          (add32 (sc s) (sc r)) (add32 (sd s) (sd r))
          (add32 (se s) (se r)) (add32 (sf s) (sf r))
          (add32 (sg s) (sg r)) (add32 (sh s) (sh r)).

Fixpoint blocks (count : nat) (words : list N) (s : state) : state :=
  match count with
  | O => s
  | S count' =>
      blocks count' (skipn 16 words) (compress s (firstn 16 words))
  end.

Definition digest (bytes : list N) : state :=
  let words := words_of_bytes (pad bytes) in
  blocks (Nat.div (List.length words) 16) words H0.

(** Lowercase hexadecimal output. *)
Definition hex_digit (x : N) : ascii :=
  ascii_of_N (if x <? 10 then 48 + x else 87 + x).

Definition nibble (w : N) (i : N) : ascii :=
  hex_digit (N.land (N.shiftr w (4 * i)) 15).

Definition hex_word (w : N) (rest : string) : string :=
  String (nibble w 7) (String (nibble w 6) (String (nibble w 5)
  (String (nibble w 4) (String (nibble w 3) (String (nibble w 2)
  (String (nibble w 1) (String (nibble w 0) rest))))))).

Definition hex_state (s : state) : string :=
  hex_word (sa s) (hex_word (sb s) (hex_word (sc s) (hex_word (sd s)
  (hex_word (se s) (hex_word (sf s) (hex_word (sg s)
  (hex_word (sh s) EmptyString))))))).

Definition bytes_of_string (s : string) : list N :=
  map N_of_ascii (list_ascii_of_string s).

Definition sha256 (s : string) : string :=
  hex_state (digest (bytes_of_string s)).
End Sha256.

(** ** JavaScript values, errors and conversions *)

Inductive js_error : Type :=
| TypeError
| RangeError.

(** The result of running a method: it returns, it throws, or the model
    ran out of [fuel] before the loop of [mineBlock] stopped. *)
Inductive outcome (A : Type) : Type :=
| Ret (a : A)
| Throw (e : js_error)
| OutOfFuel.

Arguments Ret {A} a.
Arguments Throw {A} e.
Arguments OutOfFuel {A}.

Definition bind {A B : Type} (c : outcome A) (k : A -> outcome B) : outcome B :=
  match c with
  | Ret a => k a
  | Throw e => Throw e
  | OutOfFuel => OutOfFuel
  end.

Notation "x <- c ;; k" := (bind c (fun x => k))
  (at level 61, c at next level, right associativity).

(** A numeric property: not assigned yet ([undefined]), a natural number
    (one that a double holds), or [NaN] (what [undefined++] leaves
    behind). *)
Inductive js_num : Type :=
| JUndefined
| JNumber (n : N)
| JNaN.

(** The double nearest to a natural number, ties going to the even
    significand.  Numbers below [2^53] are doubles; above, a double
    keeps the 53 leading bits. *)
Definition nearest_double (v : N) : N :=
  if (v <? 9007199254740992)%N then v
  else
    let s := (N.log2 v - 52)%N in
    let q := N.shiftr v s in
    let r := N.land v (N.ones s) in
    let half := N.shiftl 1 (s - 1) in
    let q := if (r <? half)%N then q
             else if (half <? r)%N then (q + 1)%N
             else if N.even q then q else (q + 1)%N in
    N.shiftl q s.

(** [v++] stores [v + 1], a sum of doubles: from [2^53] on it no longer
    changes the number. *)
Definition js_incr (v : js_num) : js_num :=
  match v with
  | JNumber n => JNumber (nearest_double (n + 1))
  | JUndefined | JNaN => JNaN
  end.

Definition string_of_N (n : N) : string :=
  NilEmpty.string_of_uint (N.to_uint n).

Definition string_of_Z (z : Z) : string :=
  NilEmpty.string_of_int (Z.to_int z).

(** [ToString], applied by [+] when the other operand is a string. *)
Definition js_undefined : string := "undefined".

Definition js_num_to_string (v : js_num) : string :=
  match v with
  | JUndefined => js_undefined
  | JNumber n => string_of_N n
  | JNaN => "NaN"
  end.

Definition js_opt_to_string (v : option string) : string :=
  match v with
  | Some s => s
  | None => js_undefined
  end.

(** *** Numbers

    The operators [+], [-], [+=] and [-=] on numbers are the addition
    and subtraction of doubles, rounded to the nearest double, ties to
    the even significand.

    Every finite double is a whole number of units of [2^-1074]:
    [units x] is that number, the exact value of [x].  Infinities and
    [NaN] have none. *)
Definition units (x : float) : option Z :=
  match Prim2SF x with
  | S754_zero _ => Some 0%Z
  | S754_finite s m e => Some (cond_Zopp s (Zpos m) * 2 ^ (e + 1074))%Z
  | S754_infinity _ | S754_nan => None
  end.

Definition units_or_zero (x : float) : Z :=
  match units x with
  | Some u => u
  | None => 0%Z
  end.

(** [x - y] and [x + y] are computed without rounding. *)
Definition exact_sub (x y : float) : bool :=
  match units x, units y, units (x - y)%float with
  | Some a, Some b, Some c => (c =? a - b)%Z
  | _, _, _ => false
  end.

Definition exact_add (x y : float) : bool :=
  match units x, units y, units (x + y)%float with
  | Some a, Some b, Some c => (c =? a + b)%Z
  | _, _, _ => false
  end.

(** [Array(n).join(sep)]: [n] empty slots print as empty strings, so the
    result is [n - 1] copies of [sep]; a length above [2^32 - 1] is a
    [RangeError].  An engine also refuses to build a string beyond its
    own limit (V8: [2^29 - 24] characters, [2^28 - 16] on 32-bit
    builds); that limit is not part of the language and not modelled:
    where it matters, statements keep [n] below it. *)
Fixpoint copies (count : nat) (s : string) : string :=
  match count with
  | O => EmptyString
  | S count' => s ++ copies count' s
  end.

Definition Array_join (n : nat) (sep : string) : outcome string :=
  if (N.of_nat n <=? 4294967295)%N then Ret (copies (n - 1) sep)
  else Throw RangeError.

(** *** JSON.stringify on JSON values *)

Inductive json : Type :=
| JNull
| JBool (b : bool)
| JNum (z : Z)
| JStr (s : string)
| JArr (items : list json)
| JObj (members : list (string * json)).

Definition dquote : string := String (ascii_of_nat 34) EmptyString.
Definition backslash : string := String (ascii_of_nat 92) EmptyString.

Definition hex4 (n : N) : string :=
  String (Sha256.nibble n 3) (String (Sha256.nibble n 2)
  (String (Sha256.nibble n 1) (String (Sha256.nibble n 0) EmptyString))).

Definition json_escape_char (c : ascii) : string :=
  let n := N_of_ascii c in
  if (n =? 34)%N then backslash ++ dquote
  else if (n =? 92)%N then backslash ++ backslash
  else if (n =? 8)%N then backslash ++ "b"
  else if (n =? 9)%N then backslash ++ "t"
  else if (n =? 10)%N then backslash ++ "n"
  else if (n =? 12)%N then backslash ++ "f"
  else if (n =? 13)%N then backslash ++ "r"
  else if (n <? 32)%N then backslash ++ "u" ++ hex4 n
  else String c EmptyString.

Fixpoint json_escape (s : string) : string :=
  match s with
  | EmptyString => EmptyString
  | String c rest => json_escape_char c ++ json_escape rest
  end.

Definition json_quote (s : string) : string :=
  dquote ++ json_escape s ++ dquote.

Fixpoint join_with (sep : string) (parts : list string) : string :=
  match parts with
  | [] => EmptyString
  | [p] => p
  | p :: rest => p ++ sep ++ join_with sep rest
  end.

(** Members are printed in insertion order (keys are distinct and none
    is an array index). *)
Fixpoint JSON_stringify (j : json) : string :=
  match j with
  | JNull => "null"
  | JBool true => "true"
  | JBool false => "false"
  | JNum z => string_of_Z z
  | JStr s => json_quote s
  | JArr items => "[" ++ join_with "," (map JSON_stringify items) ++ "]"
  | JObj members =>
      "{" ++ join_with ","
               (map (fun kv => let '(k, v) := kv in
                               json_quote k ++ ":" ++ JSON_stringify v)
                    members) ++ "}"
  end.

(** The verdict of [isChainValid]: the two [console.error] messages
    identify the offending block; the model keeps its index. *)
Inductive verdict : Type :=
| Valid
| HashMismatch (i : nat)
| PrevHashMismatch (i : nat).

Definition verdict_ok (v : verdict) : bool :=
  match v with
  | Valid => true
  | _ => false
  end.

(** ** The basic chain: hash linking without proof of work *)
Module Basic.

Record Block : Type := mkBlock
  { index : N;
    timestamp : string;
    data : json;
    prevHash : string;
    hash : string }.

Definition set_prevHash (this : Block) (v : string) : Block :=
  mkBlock (index this) (timestamp this) (data this) v (hash this).
Definition set_hash (this : Block) (v : string) : Block :=
  mkBlock (index this) (timestamp this) (data this) (prevHash this) v.
Definition set_data (this : Block) (v : json) : Block :=
  mkBlock (index this) (timestamp this) v (prevHash this) (hash this).

Record Blockchain : Type := mkBlockchain
  { chain : list Block }.

Section WithHash.
Variable SHA256 : string -> string.

(** [SHA256(this.index + this.prevHash + this.timestamp
            + JSON.stringify(this.data)).toString()] *)
Definition calculateHash (this : Block) : string :=
  SHA256 (string_of_N (index this) ++ prevHash this ++ timestamp this
          ++ JSON_stringify (data this)).

Definition new_Block (index : N) (timestamp : string) (data : json)
           (prevHash : string) : Block :=
  let this := mkBlock index timestamp data prevHash EmptyString in
  set_hash this (calculateHash this).

Definition new_Block3 (index : N) (timestamp : string) (data : json) : Block :=
  new_Block index timestamp data EmptyString.

Definition createGenesisBlock (now : string) : Block :=
  new_Block 0 now (JStr "Genesis block") "0".

Definition new_Blockchain (now : string) : Blockchain :=
  mkBlockchain [createGenesisBlock now].

Definition getLatestBlock (this : Blockchain) : option Block :=
  nth_error (chain this) (List.length (chain this) - 1).

(** Here the hash is recomputed once the block is linked. *)
(** [addBlock] on a block object that is not in the chain yet, as the
    script calls it with [new Block(...)]: the chain is then a list of
    blocks.  [BasicObjects.addBlock] below is the method on any object,
    and agrees with this one on such an object. *)
Definition addBlock (newBlock : Block) (this : Blockchain) : outcome Blockchain :=
  match getLatestBlock this with
  | None => Throw TypeError
  | Some latest =>
      let newBlock := set_prevHash newBlock (hash latest) in
      let newBlock := set_hash newBlock (calculateHash newBlock) in
      Ret (mkBlockchain (chain this ++ [newBlock]))
  end.

Fixpoint validate_from (i : nat) (previousBlock : Block) (rest : list Block)
  : verdict :=
  match rest with
  | [] => Valid
  | currentBlock :: rest' =>
      if negb (String.eqb (hash currentBlock) (calculateHash currentBlock))
      then HashMismatch i
      else if negb (String.eqb (prevHash currentBlock) (hash previousBlock))
      then PrevHashMismatch i
      else validate_from (S i) currentBlock rest'
  end.

Definition validate (this : Blockchain) : verdict :=
  match chain this with
  | [] => Valid
  | genesis :: rest => validate_from 1 genesis rest
  end.

Definition isChainValid (this : Blockchain) : bool :=
  verdict_ok (validate this).

Fixpoint update_at (i : nat) (f : Block -> Block) (l : list Block)
  : list Block :=
  match l, i with
  | [], _ => []
  | b :: rest, O => f b :: rest
  | b :: rest, S i' => b :: update_at i' f rest
  end.

(** The script of this version: three blocks, then
    [chain[1].data = {amount: 100}] and
    [chain[1].hash = chain[1].calculateHash()]. *)
Definition script_chain (t0 t1 t2 t3 : string) : outcome Blockchain :=
  let poppiCoin := new_Blockchain t0 in
  poppiCoin <- addBlock (new_Block3 1 t1 (JObj [("amount", JNum 4)])) poppiCoin ;;
  poppiCoin <- addBlock (new_Block3 2 t2 (JObj [("amount", JNum 8)])) poppiCoin ;;
  addBlock (new_Block3 3 t3 (JObj [("amount", JNum 10)])) poppiCoin.

Definition script_tampered (t0 t1 t2 t3 : string) : outcome Blockchain :=
  poppiCoin <- script_chain t0 t1 t2 t3 ;;
  Ret (mkBlockchain
         (update_at 1 (fun b => let b := set_data b (JObj [("amount", JNum 100)]) in
                                set_hash b (calculateHash b))
                    (chain poppiCoin))).
End WithHash.
End Basic.

(** ** [index.js]: the proof-of-work chain with arbitrary data *)
Module Generic.

Record Block : Type := mkBlock
  { index : N;
    timestamp : string;
    data : json;
    prevHash : string;
    hash : string;
    nonce : js_num }.

Definition set_prevHash (this : Block) (v : string) : Block :=
  mkBlock (index this) (timestamp this) (data this) v (hash this) (nonce this).
Definition set_hash (this : Block) (v : string) : Block :=
  mkBlock (index this) (timestamp this) (data this) (prevHash this) v (nonce this).
Definition set_nonce (this : Block) (v : js_num) : Block :=
  mkBlock (index this) (timestamp this) (data this) (prevHash this) (hash this) v.
Definition set_data (this : Block) (v : json) : Block :=
  mkBlock (index this) (timestamp this) v (prevHash this) (hash this) (nonce this).

Record Blockchain : Type := mkBlockchain
  { chain : list Block;
    difficulty : nat }.

Section WithHash.
(** The digest of crypto-js, [s => SHA256(s).toString()]. *)
Variable SHA256 : string -> string.

(** [SHA256(this.index + this.prevHash + this.timestamp
            + JSON.stringify(this.data) + this.nonce).toString()] *)
Definition calculateHash (this : Block) : string :=
  SHA256 (string_of_N (index this) ++ prevHash this ++ timestamp this
          ++ JSON_stringify (data this) ++ js_num_to_string (nonce this)).

(** The constructor assigns [hash] before [nonce]: while
    [calculateHash] runs, [this.nonce] is still [undefined]. *)
Definition new_Block (index : N) (timestamp : string) (data : json)
           (prevHash : string) : Block :=
  let this := mkBlock index timestamp data prevHash EmptyString JUndefined in
  let this := set_hash this (calculateHash this) in
  set_nonce this (JNumber 0).

(** [new Block(index, timestamp, data)], with the default [prevHash = '']. *)
Definition new_Block3 (index : N) (timestamp : string) (data : json) : Block :=
  new_Block index timestamp data EmptyString.

(** One test of the [while] condition per unit of fuel. *)
Fixpoint mineBlock (fuel : nat) (difficulty : nat) (this : Block)
  : outcome Block :=
  match fuel with
  | O => OutOfFuel
  | S fuel' =>
      zeros <- Array_join (difficulty + 1) "0" ;;
      if negb (String.eqb (substring 0 difficulty (hash this)) zeros) then
        let this := set_nonce this (js_incr (nonce this)) in
        let this := set_hash this (calculateHash this) in
        mineBlock fuel' difficulty this
      else Ret this
  end.

(** [now] is the value [createTimeStamp()] returns. *)
Definition createGenesisBlock (now : string) : Block :=
  new_Block 0 now (JStr "Genesis block") "0".

Definition new_Blockchain (now : string) : Blockchain :=
  mkBlockchain [createGenesisBlock now] 2.

(** [this.chain[this.chain.length - 1]]; reading [.hash] of the
    [undefined] an empty chain yields is a [TypeError]. *)
Definition getLatestBlock (this : Blockchain) : option Block :=
  nth_error (chain this) (List.length (chain this) - 1).

(** [addBlock] on a block object that is not in the chain yet, as the
    script calls it with [new Block(...)].  [GenericObjects.addBlock]
    below is the method on any object, and agrees with this one on such
    an object. *)
Definition addBlock (fuel : nat) (newBlock : Block) (this : Blockchain)
  : outcome Blockchain :=
  match getLatestBlock this with
  | None => Throw TypeError
  | Some latest =>
      let newBlock := set_prevHash newBlock (hash latest) in
      newBlock <- mineBlock fuel (difficulty this) newBlock ;;
      Ret (mkBlockchain (chain this ++ [newBlock]) (difficulty this))
  end.

(** The loop of [isChainValid] from index [i] on: [previousBlock] is
    [chain[i - 1]] and [rest] is [chain[i..]]. *)
Fixpoint validate_from (i : nat) (previousBlock : Block) (rest : list Block)
  : verdict :=
  match rest with
  | [] => Valid
  | currentBlock :: rest' =>
      if negb (String.eqb (hash currentBlock) (calculateHash currentBlock))
      then HashMismatch i
      else if negb (String.eqb (prevHash currentBlock) (hash previousBlock))
      then PrevHashMismatch i
      else validate_from (S i) currentBlock rest'
  end.

Definition validate (this : Blockchain) : verdict :=
  match chain this with
  | [] => Valid
  | genesis :: rest => validate_from 1 genesis rest
  end.

Definition isChainValid (this : Blockchain) : bool :=
  verdict_ok (validate this).

(** Tampering, as the demonstration script does it:
    [chain[i].data = d] alone, and followed by
    [chain[i].hash = chain[i].calculateHash()]. *)
Fixpoint update_at (i : nat) (f : Block -> Block) (l : list Block)
  : list Block :=
  match l, i with
  | [], _ => []
  | b :: rest, O => f b :: rest
  | b :: rest, S i' => b :: update_at i' f rest
  end.

Definition tamper_data (i : nat) (d : json) (this : Blockchain) : Blockchain :=
  mkBlockchain (update_at i (fun b => set_data b d) (chain this))
               (difficulty this).

Definition tamper_data_rehash (i : nat) (d : json) (this : Blockchain)
  : Blockchain :=
  mkBlockchain
    (update_at i (fun b => let b := set_data b d in
                           set_hash b (calculateHash b)) (chain this))
    (difficulty this).

(** Scenario A: three blocks added to a fresh chain. *)
Definition scenarioA (fuel : nat) (t0 t1 t2 t3 : string) : outcome Blockchain :=
  let poppiCoin := new_Blockchain t0 in
  poppiCoin <- addBlock fuel (new_Block3 1 t1 (JObj [("amount", JNum 4)])) poppiCoin ;;
  poppiCoin <- addBlock fuel (new_Block3 2 t2 (JObj [("amount", JNum 8)])) poppiCoin ;;
  addBlock fuel (new_Block3 3 t3 (JObj [("amount", JNum 10)])) poppiCoin.

(** Scenario B: Scenario A, then block 1 overwritten and rehashed. *)
Definition scenarioB (fuel : nat) (t0 t1 t2 t3 : string) : outcome Blockchain :=
  poppiCoin <- scenarioA fuel t0 t1 t2 t3 ;;
  Ret (tamper_data_rehash 1 (JObj [("amount", JNum 100)]) poppiCoin).
End WithHash.
End Generic.

(** ** The transaction chain: pending pool, mining reward, balances *)
Module LedgerMode.

(** An address is [null] (the sender of a reward) or a string. *)
Definition address : Type := option string.

Definition address_eqb (x y : address) : bool :=
  match x, y with
  | None, None => true
  | Some s, Some t => String.eqb s t
  | _, _ => false
  end.

Record Transaction : Type := new_Transaction
  { fromAddress : address;
    toAddress : address;
    amount : float }.

(** What the constructor of [Block] receives as [transaction]: the
    string of the genesis block, the array of pending transactions, or
    some other value that cannot be iterated (a plain object, say). *)
Inductive payload : Type :=
| PString (s : string)
| PTransactions (txs : list Transaction)
| POther.

Record Block : Type := mkBlock
  { timestamp : string;
    transaction : payload;
    prevHash : string;
    hash : string;
    nonce : js_num }.

Definition set_hash (this : Block) (v : string) : Block :=
  mkBlock (timestamp this) (transaction this) (prevHash this) v (nonce this).
Definition set_nonce (this : Block) (v : js_num) : Block :=
  mkBlock (timestamp this) (transaction this) (prevHash this) (hash this) v.
Definition set_transaction (this : Block) (v : payload) : Block :=
  mkBlock (timestamp this) v (prevHash this) (hash this) (nonce this).

(** This class never assigns [this.index] nor [this.data]: both read
    as [undefined]. *)
Definition this_index (this : Block) : js_num := JUndefined.
Definition this_data (this : Block) : option json := None.

(** [JSON.stringify(undefined)] is [undefined], not a string. *)
Definition JSON_stringify_opt (v : option json) : option string :=
  match v with
  | Some j => Some (JSON_stringify j)
  | None => None
  end.

Record Blockchain : Type := mkBlockchain
  { chain : list Block;
    difficulty : nat;
    pendingTransaction : list Transaction;
    miningReward : float }.

(** The values a [for ... of] loop over a payload binds [trans] to:
    the one-character strings of a string, or the elements of the
    array. *)
Inductive element : Type :=
| EChar (c : ascii)
| ETransaction (t : Transaction).

Definition js_iterate (p : payload) : outcome (list element) :=
  match p with
  | PString s => Ret (map EChar (list_ascii_of_string s))
  | PTransactions txs => Ret (map ETransaction txs)
  | POther => Throw TypeError
  end.

(** The body of the inner loop of [getBalanceOfAddress].  On a
    one-character string [trans.fromAddress] and [trans.toAddress] are
    [undefined], which is [===] to no address.  [balance -= trans.amount]
    and [balance += trans.amount] are operations on doubles. *)
Definition balance_step (addr : address) (balance : float) (trans : element)
  : float :=
  match trans with
  | EChar _ => balance
  | ETransaction t =>
      let balance :=
        if address_eqb (fromAddress t) addr then (balance - amount t)%float
        else balance in
      if address_eqb (toAddress t) addr then (balance + amount t)%float
      else balance
  end.

Fixpoint balance_blocks (addr : address) (blocks : list Block) (balance : float)
  : outcome float :=
  match blocks with
  | [] => Ret balance
  | block :: rest =>
      elements <- js_iterate (transaction block) ;;
      balance_blocks addr rest (fold_left (balance_step addr) elements balance)
  end.

Definition getBalanceOfAddress (addr : address) (this : Blockchain)
  : outcome float :=
  balance_blocks addr (chain this) 0%float.

Definition createTransaction (t : Transaction) (this : Blockchain) : Blockchain :=
  mkBlockchain (chain this) (difficulty this)
               (pendingTransaction this ++ [t]) (miningReward this).

(** *** Quantities the conservation property speaks about *)

Definition block_transactions (b : Block) : list Transaction :=
  match transaction b with
  | PTransactions txs => txs
  | _ => []
  end.

Definition chain_transactions (this : Blockchain) : list Transaction :=
  flat_map block_transactions (chain this).

Definition address_list (a : address) : list string :=
  match a with
  | Some s => [s]
  | None => []
  end.

Definition tx_addresses (t : Transaction) : list string :=
  address_list (fromAddress t) ++ address_list (toAddress t).

(** Every address appearing in a transaction of the chain, once. *)
Definition addresses (this : Blockchain) : list string :=
  nodup string_dec (flat_map tx_addresses (chain_transactions this)).

(** The sum of the balances of [addrs], taken exactly and counted in
    units of [2^-1074]; there is none when a balance is not finite. *)
Fixpoint sum_balances (addrs : list string) (this : Blockchain)
  : outcome (option Z) :=
  match addrs with
  | [] => Ret (Some 0%Z)
  | a :: rest =>
      x <- getBalanceOfAddress (Some a) this ;;
      y <- sum_balances rest this ;;
      Ret (match units x, y with
           | Some u, Some v => Some (u + v)%Z
           | _, _ => None
           end)
  end.

Definition grand_total (this : Blockchain) : outcome (option Z) :=
  sum_balances (addresses this) this.

(** One pass of the inner loop of [getBalanceOfAddress] rounds nothing. *)
Definition step_exact (addr : address) (balance : float) (trans : element)
  : bool :=
  match trans with
  | EChar _ => true
  | ETransaction t =>
      (if address_eqb (fromAddress t) addr then exact_sub balance (amount t)
       else true)
      && (let balance :=
            if address_eqb (fromAddress t) addr then (balance - amount t)%float
            else balance in
          if address_eqb (toAddress t) addr then exact_add balance (amount t)
          else true)
  end.

Fixpoint elements_exact (addr : address) (elements : list element)
         (balance : float) : bool :=
  match elements with
  | [] => true
  | trans :: rest =>
      step_exact addr balance trans
      && elements_exact addr rest (balance_step addr balance trans)
  end.

(** The whole scan of [getBalanceOfAddress(addr)] rounds nothing. *)
Fixpoint blocks_exact (addr : address) (blocks : list Block) (balance : float)
  : bool :=
  match blocks with
  | [] => true
  | block :: rest =>
      match js_iterate (transaction block) with
      | Ret elements =>
          elements_exact addr elements balance
          && blocks_exact addr rest (fold_left (balance_step addr) elements balance)
      | _ => true
      end
  end.

Definition balance_exact (addr : address) (this : Blockchain) : bool :=
  blocks_exact addr (chain this) 0%float.

(** The same for every address appearing in the chain. *)
Definition no_rounding (this : Blockchain) : bool :=
  forallb (fun a => balance_exact (Some a) this) (addresses this).

(** A reward transaction has no sender. *)
Definition is_reward (t : Transaction) : bool :=
  match fromAddress t with
  | None => true
  | Some _ => false
  end.

Definition reward_count (this : Blockchain) : nat :=
  List.length (filter is_reward (chain_transactions this)).

Definition peer_to_peer (t : Transaction) : Prop :=
  fromAddress t <> None /\ toAddress t <> None.

Section WithHash.
Variable SHA256 : string -> string.

(** [SHA256(this.index + this.prevHash + this.timestamp
            + JSON.stringify(this.data) + this.nonce).toString()] *)
Definition calculateHash (this : Block) : string :=
  SHA256 (js_num_to_string (this_index this) ++ prevHash this
          ++ timestamp this
          ++ js_opt_to_string (JSON_stringify_opt (this_data this))
          ++ js_num_to_string (nonce this)).

Definition new_Block (timestamp : string) (transaction : payload)
           (prevHash : string) : Block :=
  let this := mkBlock timestamp transaction prevHash EmptyString JUndefined in
  let this := set_hash this (calculateHash this) in
  set_nonce this (JNumber 0).

(** [new Block(timestamp, transaction)], with the default [prevHash = '']. *)
Definition new_Block2 (timestamp : string) (transaction : payload) : Block :=
  new_Block timestamp transaction EmptyString.

Fixpoint mineBlock (fuel : nat) (difficulty : nat) (this : Block)
  : outcome Block :=
  match fuel with
  | O => OutOfFuel
  | S fuel' =>
      zeros <- Array_join (difficulty + 1) "0" ;;
      if negb (String.eqb (substring 0 difficulty (hash this)) zeros) then
        let this := set_nonce this (js_incr (nonce this)) in
        let this := set_hash this (calculateHash this) in
        mineBlock fuel' difficulty this
      else Ret this
  end.

Definition createGenesisBlock (now : string) : Block :=
  new_Block now (PString "Genesis block") "0".

Definition new_Blockchain (now : string) : Blockchain :=
  mkBlockchain [createGenesisBlock now] 2 [] 100%float.

Definition getLatestBlock (this : Blockchain) : option Block :=
  nth_error (chain this) (List.length (chain this) - 1).

(** The block holds the array of pending transactions itself; the
    pool is then rebound to a fresh one-element array, so nothing
    the public methods do later reaches the mined array. *)
Definition minePedingTransactions (fuel : nat) (now : string)
           (miningRewardAddress : string) (this : Blockchain)
  : outcome Blockchain :=
  let block := new_Block2 now (PTransactions (pendingTransaction this)) in
  block <- mineBlock fuel (difficulty this) block ;;
  Ret (mkBlockchain (chain this ++ [block]) (difficulty this)
         [new_Transaction None (Some miningRewardAddress) (miningReward this)]
         (miningReward this)).

Fixpoint validate_from (i : nat) (previousBlock : Block) (rest : list Block)
  : verdict :=
  match rest with
  | [] => Valid
  | currentBlock :: rest' =>
      if negb (String.eqb (hash currentBlock) (calculateHash currentBlock))
      then HashMismatch i
      else if negb (String.eqb (prevHash currentBlock) (hash previousBlock))
      then PrevHashMismatch i
      else validate_from (S i) currentBlock rest'
  end.

Definition validate (this : Blockchain) : verdict :=
  match chain this with
  | [] => Valid
  | genesis :: rest => validate_from 1 genesis rest
  end.

Definition isChainValid (this : Blockchain) : bool :=
  verdict_ok (validate this).

(** [chain[i].transaction = p], the stored hash left alone. *)
Fixpoint update_at (i : nat) (f : Block -> Block) (l : list Block)
  : list Block :=
  match l, i with
  | [], _ => []
  | b :: rest, O => f b :: rest
  | b :: rest, S i' => b :: update_at i' f rest
  end.

Definition tamper_transaction (i : nat) (p : payload) (this : Blockchain)
  : Blockchain :=
  mkBlockchain (update_at i (fun b => set_transaction b p) (chain this))
               (difficulty this) (pendingTransaction this)
               (miningReward this).

(** The ledgers the public methods build from a fresh one. *)
Inductive reachable : Blockchain -> Prop :=
| reach_new (now : string) : reachable (new_Blockchain now)
| reach_createTransaction (this : Blockchain) (t : Transaction) :
    reachable this -> reachable (createTransaction t this)
| reach_mine (this this' : Blockchain) (fuel : nat) (now rewardTo : string) :
    reachable this ->
    minePedingTransactions fuel now rewardTo this = Ret this' ->
    reachable this'.

(** The same, when clients only submit transfers between two
    addresses. *)
Inductive reachable_p2p : Blockchain -> Prop :=
| p2p_new (now : string) : reachable_p2p (new_Blockchain now)
| p2p_createTransaction (this : Blockchain) (t : Transaction) :
    reachable_p2p this -> peer_to_peer t ->
    reachable_p2p (createTransaction t this)
| p2p_mine (this this' : Blockchain) (fuel : nat) (now rewardTo : string) :
    reachable_p2p this ->
    minePedingTransactions fuel now rewardTo this = Ret this' ->
    reachable_p2p this'.

(** Scenario C: two transfers from A to B, then one mining call. *)
Definition scenarioC (fuel : nat) (t0 t1 : string) : outcome Blockchain :=
  let poppiCoin := new_Blockchain t0 in
  let poppiCoin :=
    createTransaction (new_Transaction (Some "A") (Some "B") 100%float) poppiCoin in
  let poppiCoin :=
    createTransaction (new_Transaction (Some "A") (Some "B") 200%float) poppiCoin in
  minePedingTransactions fuel t1 "M" poppiCoin.
End WithHash.
End LedgerMode.

(** ** Block objects

    A [Block] is an object.  [addBlock] writes to the object it is
    handed and pushes that same object, so a block that is already in
    the chain is rewritten where it stands.  [Basic.addBlock] and
    [Generic.addBlock] above are the method on an object that is not in
    the chain yet, which is how the scripts call it.  Here blocks live
    in a heap, the chain holds their addresses, and the method works on
    whatever object it is given. *)
Module Heap.
Definition ref : Type := nat.

Section Objects.
Context {B : Type}.

Definition deref (heap : list B) (r : ref) : option B := nth_error heap r.

(** The heap after an assignment to the fields of object [r]. *)
Fixpoint store (r : ref) (v : B) (heap : list B) : list B :=
  match heap, r with
  | [], _ => []
  | _ :: rest, O => v :: rest
  | x :: rest, S r' => x :: store r' v rest
  end.

(** A new object and its address. *)
Definition alloc (v : B) (heap : list B) : ref * list B :=
  (List.length heap, (heap ++ [v])%list).

(** The objects an array of addresses holds. *)
Fixpoint objects (heap : list B) (refs : list ref) : list B :=
  match refs with
  | [] => []
  | r :: rest =>
      match deref heap r with
      | Some b => b :: objects heap rest
      | None => objects heap rest
      end
  end.

(** Every address points into the heap. *)
Definition valid (heap : list B) (refs : list ref) : Prop :=
  Forall (fun r => r < List.length heap) refs.
End Objects.
End Heap.

(** The basic chain on the heap. *)
Module BasicObjects.
Record State : Type := mkState
  { heap : list Basic.Block;
    chain : list Heap.ref }.

(** The chain as [isChainValid] reads it. *)
Definition blockchain (st : State) : Basic.Blockchain :=
  Basic.mkBlockchain (Heap.objects (heap st) (chain st)).

(** An object the caller makes, with whatever fields it gives it before
    handing it over. *)
Definition new_object (b : Basic.Block) (st : State) : Heap.ref * State :=
  (fst (Heap.alloc b (heap st)),
   mkState (snd (Heap.alloc b (heap st))) (chain st)).

Section WithHash.
Variable SHA256 : string -> string.

Definition new_Blockchain (now : string) : State :=
  mkState [Basic.createGenesisBlock SHA256 now] [0].

Definition getLatestBlock (this : State) : option Heap.ref :=
  nth_error (chain this) (List.length (chain this) - 1).

(** [newBlock.prevHash = this.getLatestBlock().hash;
     newBlock.hash = newBlock.calculateHash();
     this.chain.push(newBlock);] *)
Definition addBlock (newBlock : Heap.ref) (this : State) : outcome State :=
  match getLatestBlock this with
  | None => Throw TypeError
  | Some latest =>
      match Heap.deref (heap this) latest, Heap.deref (heap this) newBlock with
      | Some latest, Some b =>
          let b := Basic.set_prevHash b (Basic.hash latest) in
          let b := Basic.set_hash b (Basic.calculateHash SHA256 b) in
          Ret (mkState (Heap.store newBlock b (heap this))
                       (chain this ++ [newBlock]))
      | _, _ => Throw TypeError
      end
  end.

Definition validate (this : State) : verdict :=
  Basic.validate SHA256 (blockchain this).

Definition isChainValid (this : State) : bool :=
  Basic.isChainValid SHA256 (blockchain this).
End WithHash.
End BasicObjects.

(** The chain of [index.js] on the heap. *)
Module GenericObjects.
Record State : Type := mkState
  { heap : list Generic.Block;
    chain : list Heap.ref;
    difficulty : nat }.

Definition blockchain (st : State) : Generic.Blockchain :=
  Generic.mkBlockchain (Heap.objects (heap st) (chain st)) (difficulty st).

Definition new_object (b : Generic.Block) (st : State) : Heap.ref * State :=
  (fst (Heap.alloc b (heap st)),
   mkState (snd (Heap.alloc b (heap st))) (chain st) (difficulty st)).

Section WithHash.
Variable SHA256 : string -> string.

Definition new_Blockchain (now : string) : State :=
  mkState [Generic.createGenesisBlock SHA256 now] [0] 2.

Definition getLatestBlock (this : State) : option Heap.ref :=
  nth_error (chain this) (List.length (chain this) - 1).

(** [newBlock.prevHash = this.getLatestBlock().hash;
     newBlock.mineBlock(this.difficulty);
     this.chain.push(newBlock);] *)
Definition addBlock (fuel : nat) (newBlock : Heap.ref) (this : State)
  : outcome State :=
  match getLatestBlock this with
  | None => Throw TypeError
  | Some latest =>
      match Heap.deref (heap this) latest, Heap.deref (heap this) newBlock with
      | Some latest, Some b =>
          let b := Generic.set_prevHash b (Generic.hash latest) in
          mined <- Generic.mineBlock SHA256 fuel (difficulty this) b ;;
          Ret (mkState (Heap.store newBlock mined (heap this))
                       (chain this ++ [newBlock]) (difficulty this))
      | _, _ => Throw TypeError
      end
  end.

Definition validate (this : State) : verdict :=
  Generic.validate SHA256 (blockchain this).

Definition isChainValid (this : State) : bool :=
  Generic.isChainValid SHA256 (blockchain this).
End WithHash.
End GenericObjects.

(** ** The runs used below

    [createTimeStamp] lives in a file of its own; the runs take the
    strings it returns as they come. *)
Module Runs.
Definition sha : string -> string := Sha256.sha256.

Definition amount_object (z : Z) : json := JObj [("amount", JNum z)].

Definition transfer (from to : string) (x : float) : LedgerMode.Transaction :=
  LedgerMode.new_Transaction (Some from) (Some to) x.

Definition reward (to : string) : LedgerMode.Transaction :=
  LedgerMode.new_Transaction None (Some to) 100%float.

Definition t0 : string := "2025-03-01T10:00:00.000Z".

(** *** Generic chain

    In the first run every block is mined at its first attempt.  In
    the second one the hash block 2 gets from its constructor already
    starts with two zeros. *)
Definition g1 : string := "2025-03-01T10:00:01.447Z".
Definition g2 : string := "2025-03-01T10:00:02.079Z".
Definition g3 : string := "2025-03-01T10:00:03.118Z".
Definition g2' : string := "2025-03-01T10:00:02.501Z".
Definition g3' : string := "2025-03-01T10:00:03.021Z".

Definition genesisG : Generic.Block :=
  Generic.mkBlock 0 t0 (JStr "Genesis block") "0"
    "1764017deed2c93544e857c114530bb1a6a0ec2b4826bdbf0382b61f623b21c0"
    (JNumber 0).

(** Block 1 as [addBlock] hands it to [mineBlock], and as it comes back. *)
Definition blockG1_linked : Generic.Block :=
  Generic.mkBlock 1 g1 (amount_object 4)
    "1764017deed2c93544e857c114530bb1a6a0ec2b4826bdbf0382b61f623b21c0"
    "2cd5be1517502330a99fb5f298f2f0925a5fe4962d43b78fd3a8111edeb08f09"
    (JNumber 0).

Definition blockG1 : Generic.Block :=
  Generic.mkBlock 1 g1 (amount_object 4)
    "1764017deed2c93544e857c114530bb1a6a0ec2b4826bdbf0382b61f623b21c0"
    "00f8ad3ce52661f9ac26fe32086bd33333378da66bba898e915adde18fd9da16"
    (JNumber 1).

Definition blockG2 : Generic.Block :=
  Generic.mkBlock 2 g2 (amount_object 8)
    "00f8ad3ce52661f9ac26fe32086bd33333378da66bba898e915adde18fd9da16"
    "00a8292f9e07235f678c0aa010fa4658b8e1a9f83ec57b62a6d70f0043a5d754"
    (JNumber 1).

Definition blockG3 : Generic.Block :=
  Generic.mkBlock 3 g3 (amount_object 10)
    "00a8292f9e07235f678c0aa010fa4658b8e1a9f83ec57b62a6d70f0043a5d754"
    "00536eca3adb7a90dabfdbdd92dfc40f66883a2fec35596b4c347a84a6616361"
    (JNumber 1).

Definition blockG2' : Generic.Block :=
  Generic.mkBlock 2 g2' (amount_object 8)
    "00f8ad3ce52661f9ac26fe32086bd33333378da66bba898e915adde18fd9da16"
    "00b8de588e254ba0d90f6623a3cc112ec228c08a47029e66e218867a3d471701"
    (JNumber 0).

Definition blockG3' : Generic.Block :=
  Generic.mkBlock 3 g3' (amount_object 10)
    "00b8de588e254ba0d90f6623a3cc112ec228c08a47029e66e218867a3d471701"
    "001f8f85afa8436729cbf35790b055df8f4e1b7183c9b97ab7811453b3242172"
    (JNumber 1).

(** Block 1 after [data = {amount: 100}] and [hash = calculateHash()]. *)
Definition blockG1_forged : Generic.Block :=
  Generic.mkBlock 1 g1 (amount_object 100)
    "1764017deed2c93544e857c114530bb1a6a0ec2b4826bdbf0382b61f623b21c0"
    "139641d21a7c0843321b860341ac8ef20f19705b3134258624a2806c887b2df8"
    (JNumber 1).

Definition chainA : Generic.Blockchain :=
  Generic.mkBlockchain [genesisG; blockG1; blockG2; blockG3] 2.
Definition chainB : Generic.Blockchain :=
  Generic.mkBlockchain [genesisG; blockG1_forged; blockG2; blockG3] 2.
Definition chainA' : Generic.Blockchain :=
  Generic.mkBlockchain [genesisG; blockG1; blockG2'; blockG3'] 2.
Definition chainB' : Generic.Blockchain :=
  Generic.mkBlockchain [genesisG; blockG1_forged; blockG2'; blockG3'] 2.

(** *** Transaction chain *)
Definition l1 : string := "2025-03-01T10:00:01.325Z".
Definition l2 : string := "2025-03-01T10:00:02.347Z".

Definition genesisL : LedgerMode.Block :=
  LedgerMode.mkBlock t0 (LedgerMode.PString "Genesis block") "0"
    "847d9a3d06e5b8f875b67a2a5e9a2c75b5a0e93aeb2b591667b811f973e800eb"
    (JNumber 0).

(** The hash of a block made at [l1] does not depend on its payload. *)
Definition blockL1 (txs : list LedgerMode.Transaction) : LedgerMode.Block :=
  LedgerMode.mkBlock l1 (LedgerMode.PTransactions txs) EmptyString
    "002c72cca0a7a137a3e27abba27ad90995b0665ecdd490fad64f36df9e515b37"
    (JNumber 1).

(** The same block as its constructor leaves it. *)
Definition blockL1_fresh (txs : list LedgerMode.Transaction) : LedgerMode.Block :=
  LedgerMode.mkBlock l1 (LedgerMode.PTransactions txs) EmptyString
    "49fda31e6b55e9397a425fab3358822a02fca58da17483f15525aacda263a5af"
    (JNumber 0).

Definition blockL2 (txs : list LedgerMode.Transaction) : LedgerMode.Block :=
  LedgerMode.mkBlock l2 (LedgerMode.PTransactions txs) EmptyString
    "00cfd8de838bd3f33d9a9157bf330e9f437d53faf84ad67e9f8c59d676904553"
    (JNumber 1).

(** A fresh ledger after one mining call. *)
Definition ledgerM : LedgerMode.Blockchain :=
  LedgerMode.mkBlockchain [genesisL; blockL1 []] 2 [reward "M"] 100%float.

(** The ledger Scenario C ends with, and a second mining call on it. *)
Definition transfers : list LedgerMode.Transaction :=
  [transfer "A" "B" 100%float; transfer "A" "B" 200%float].

Definition ledgerC : LedgerMode.Blockchain :=
  LedgerMode.mkBlockchain [genesisL; blockL1 transfers] 2 [reward "M"] 100%float.

Definition ledgerD : LedgerMode.Blockchain :=
  LedgerMode.mkBlockchain
    [genesisL; blockL1 transfers; blockL2 [reward "M"]] 2 [reward "M"] 100%float.


End Runs.

(** ** Notions used in the statements and proofs *)

(** The blocks [minePedingTransactions] appends. *)
Definition mined_block (b : LedgerMode.Block) : Prop :=
  (exists txs, LedgerMode.transaction b = LedgerMode.PTransactions txs) /\
  LedgerMode.prevHash b = EmptyString.

(** A genesis block followed by such blocks. *)
Definition ledger_shape (SHA256 : string -> string)
           (this : LedgerMode.Blockchain) : Prop :=
  exists now rest,
    LedgerMode.chain this = LedgerMode.createGenesisBlock SHA256 now :: rest /\
    Forall mined_block rest.

(** The stored hash of a block is the digest of its current fields. *)
Definition generic_consistent (SHA256 : string -> string) (b : Generic.Block) : Prop :=
  Generic.hash b = Generic.calculateHash SHA256 b.

(** One round of the loop of [mineBlock]: [this.nonce++], then the hash
    recomputed. *)
Definition generic_attempt (SHA256 : string -> string) (this : Generic.Block)
  : Generic.Block :=
  let this := Generic.set_nonce this (js_incr (Generic.nonce this)) in
  Generic.set_hash this (Generic.calculateHash SHA256 this).

(** The exact value of the amount of a transaction, in units of
    [2^-1074]. *)
Definition amount_units (t : LedgerMode.Transaction) : Z :=
  units_or_zero (LedgerMode.amount t).

(** What one transaction adds to the balance of [addr], exactly. *)
Definition tx_delta (addr : LedgerMode.address) (t : LedgerMode.Transaction) : Z :=
  ((if LedgerMode.address_eqb (LedgerMode.toAddress t) addr
    then amount_units t else 0)
   - (if LedgerMode.address_eqb (LedgerMode.fromAddress t) addr
      then amount_units t else 0))%Z.

(** The same for a sequence of transactions. *)
Fixpoint txs_delta (addr : LedgerMode.address) (txs : list LedgerMode.Transaction)
  : Z :=
  match txs with
  | [] => 0%Z
  | t :: rest => (tx_delta addr t + txs_delta addr rest)%Z
  end.

(** The payload of the block can be looped over. *)
Definition iterable (b : LedgerMode.Block) : Prop :=
  LedgerMode.transaction b <> LedgerMode.POther.

(** The sum of [f] over a list of addresses. *)
Fixpoint sumZ (f : string -> Z) (l : list string) : Z :=
  match l with
  | [] => 0%Z
  | a :: rest => (f a + sumZ f rest)%Z
  end.

(** A transaction has a recipient, and mints [reward] when it has no
    sender. *)
Definition tx_ok (reward : float) (t : LedgerMode.Transaction) : Prop :=
  LedgerMode.toAddress t <> None /\
  (LedgerMode.fromAddress t = None -> LedgerMode.amount t = reward).

(** The number of reward transactions in a sequence. *)
Definition rewards (txs : list LedgerMode.Transaction) : nat :=
  List.length (filter LedgerMode.is_reward txs).

(** The invariant behind the conservation property. *)
Definition conserving (this : LedgerMode.Blockchain) : Prop :=
  LedgerMode.miningReward this = 100%float /\
  Forall iterable (LedgerMode.chain this) /\
  Forall (tx_ok (LedgerMode.miningReward this)) (LedgerMode.chain_transactions this) /\
  Forall (tx_ok (LedgerMode.miningReward this)) (LedgerMode.pendingTransaction this).

(** ** Notions used by the further properties *)

(** The result of a call, seen through [f]. *)
Definition outcome_map {A B : Type} (f : A -> B) (c : outcome A) : outcome B :=
  match c with
  | Ret a => Ret (f a)
  | Throw e => Throw e
  | OutOfFuel => OutOfFuel
  end.

(** The states a caller reaches from a fresh chain by these steps alone:
    making a block object, with whatever fields, and handing [addBlock]
    an object that is not in the chain yet.  No object is handed over
    twice and nothing else writes to the objects.  First for the basic
    version, then for [index.js]. *)
Inductive basic_reachable (SHA256 : string -> string)
  : BasicObjects.State -> Prop :=
| basic_reach_new (now : string) :
    basic_reachable SHA256 (BasicObjects.new_Blockchain SHA256 now)
| basic_reach_object (this : BasicObjects.State) (b : Basic.Block) :
    basic_reachable SHA256 this ->
    basic_reachable SHA256 (snd (BasicObjects.new_object b this))
| basic_reach_add (this this' : BasicObjects.State) (newBlock : Heap.ref) :
    basic_reachable SHA256 this ->
    ~ In newBlock (BasicObjects.chain this) ->
    BasicObjects.addBlock SHA256 newBlock this = Ret this' ->
    basic_reachable SHA256 this'.

Inductive generic_reachable (SHA256 : string -> string)
  : GenericObjects.State -> Prop :=
| generic_reach_new (now : string) :
    generic_reachable SHA256 (GenericObjects.new_Blockchain SHA256 now)
| generic_reach_object (this : GenericObjects.State) (b : Generic.Block) :
    generic_reachable SHA256 this ->
    generic_reachable SHA256 (snd (GenericObjects.new_object b this))
| generic_reach_add (this this' : GenericObjects.State) (fuel : nat)
                    (newBlock : Heap.ref) :
    generic_reachable SHA256 this ->
    ~ In newBlock (GenericObjects.chain this) ->
    GenericObjects.addBlock SHA256 fuel newBlock this = Ret this' ->
    generic_reachable SHA256 this'.

(** A block as [addBlock] of the basic version leaves it: linked to the
    hash [h], then rehashed. *)
Definition basic_link (SHA256 : string -> string) (b : Basic.Block) (h : string)
  : Basic.Block :=
  let b := Basic.set_prevHash b h in
  Basic.set_hash b (Basic.calculateHash SHA256 b).

(** [chain[i].data = d; chain[i].hash = chain[i].calculateHash()] on the
    basic chain, as its script does with [i = 1]. *)
Definition basic_rehash (SHA256 : string -> string) (d : json)
           (b : Basic.Block) : Basic.Block :=
  let b := Basic.set_data b d in
  Basic.set_hash b (Basic.calculateHash SHA256 b).

Definition basic_tamper_rehash (SHA256 : string -> string) (i : nat) (d : json)
           (this : Basic.Blockchain) : Basic.Blockchain :=
  Basic.mkBlockchain
    (Basic.update_at i (basic_rehash SHA256 d) (Basic.chain this)).

(** The test that ends the loop of [mineBlock]. *)
Definition generic_meets (d : nat) (b : Generic.Block) : bool :=
  String.eqb (substring 0 d (Generic.hash b)) (copies d "0").

(** Each block of [rest] stores the hash of the block before it. *)
Fixpoint generic_linked (previous : Generic.Block) (rest : list Generic.Block)
  : Prop :=
  match rest with
  | [] => True
  | b :: rest' =>
      Generic.prevHash b = Generic.hash previous /\ generic_linked b rest'
  end.

(** A chain of [index.js] that starts with a genesis block, is linked
    and whose later blocks are mined at difficulty 2. *)
Definition generic_shape (SHA256 : string -> string)
           (this : Generic.Blockchain) : Prop :=
  Generic.difficulty this = 2 /\
  exists now rest,
    Generic.chain this = Generic.createGenesisBlock SHA256 now :: rest /\
    generic_linked (Generic.createGenesisBlock SHA256 now) rest /\
    Forall (fun b => generic_meets 2 b = true) rest.

Definition ledger_meets (d : nat) (b : LedgerMode.Block) : bool :=
  String.eqb (substring 0 d (LedgerMode.hash b)) (copies d "0").

(** What the chain sent to an address, and what it took from it,
    exactly and in units of [2^-1074]. *)
Fixpoint received (addr : LedgerMode.address) (txs : list LedgerMode.Transaction)
  : Z :=
  match txs with
  | [] => 0%Z
  | t :: rest =>
      ((if LedgerMode.address_eqb (LedgerMode.toAddress t) addr
        then amount_units t else 0) + received addr rest)%Z
  end.

Fixpoint sent (addr : LedgerMode.address) (txs : list LedgerMode.Transaction)
  : Z :=
  match txs with
  | [] => 0%Z
  | t :: rest =>
      ((if LedgerMode.address_eqb (LedgerMode.fromAddress t) addr
        then amount_units t else 0) + sent addr rest)%Z
  end.

(** The value of a [spec_float], in units of [2^-1074]. *)
Definition sf_units (x : spec_float) : option Z :=
  match x with
  | S754_zero _ => Some 0%Z
  | S754_finite s m e => Some (cond_Zopp s (Zpos m) * 2 ^ (e + 1074))%Z
  | S754_infinity _ | S754_nan => None
  end.

(** A double that holds a whole number, and that number. *)
Definition is_whole (x : float) : bool :=
  match units x with
  | Some u => (u mod 2 ^ 1074 =? 0)%Z
  | None => false
  end.

Definition whole_number (x : float) : Z := (units_or_zero x / 2 ^ 1074)%Z.

(** The absolute values of the amounts of a sequence of transactions,
    added up. *)
Fixpoint volume (txs : list LedgerMode.Transaction) : Z :=
  match txs with
  | [] => 0%Z
  | t :: rest => (Z.abs (whole_number (LedgerMode.amount t)) + volume rest)%Z
  end.

(** [createTransaction] called once for each element of [txs], in order. *)
Definition createTransactions (txs : list LedgerMode.Transaction)
           (this : LedgerMode.Blockchain) : LedgerMode.Blockchain :=
  fold_left (fun bc t => LedgerMode.createTransaction t bc) txs this.

(** *** Further runs *)

(** The generic chain of the first run on the heap, object by object. *)
Definition stateG1 : GenericObjects.State :=
  GenericObjects.mkState [Runs.genesisG; Runs.blockG1] [0; 1] 2.
Definition stateG2 : GenericObjects.State :=
  GenericObjects.mkState [Runs.genesisG; Runs.blockG1; Runs.blockG2] [0; 1; 2] 2.
Definition stateA : GenericObjects.State :=
  GenericObjects.mkState
    [Runs.genesisG; Runs.blockG1; Runs.blockG2; Runs.blockG3] [0; 1; 2; 3] 2.

(** The basic chain with the same timestamps and two blocks added. *)
Definition basic_genesis : Basic.Block :=
  Basic.mkBlock 0 Runs.t0 (JStr "Genesis block") "0"
    "c5a97fb2fbce229a48ea8d311efd0bf0e952a7544e354bf6548a8ca7e9829ce9".
Definition basic_block1 : Basic.Block :=
  Basic.mkBlock 1 Runs.g1 (Runs.amount_object 4)
    "c5a97fb2fbce229a48ea8d311efd0bf0e952a7544e354bf6548a8ca7e9829ce9"
    "1db5ff5a89f93096859647c4f2598148caebbcdc6cab603d8cb3e037fcadea42".
Definition basic_block2 : Basic.Block :=
  Basic.mkBlock 2 Runs.g2 (Runs.amount_object 8)
    "1db5ff5a89f93096859647c4f2598148caebbcdc6cab603d8cb3e037fcadea42"
    "0376eccf67fc5ee3a2fff98d6febb1999fe35c64d184c2a7ebb06943ef58743e".
Definition basic_chain3 : Basic.Blockchain :=
  Basic.mkBlockchain [basic_genesis; basic_block1; basic_block2].

(** The same chain on the heap, object by object. *)
Definition basic_state2 : BasicObjects.State :=
  BasicObjects.mkState [basic_genesis; basic_block1] [0; 1].
Definition basic_state3 : BasicObjects.State :=
  BasicObjects.mkState [basic_genesis; basic_block1; basic_block2] [0; 1; 2].

(** * Properties *)

Example sha256_empty :
  Sha256.sha256 EmptyString =
  "e3b0c44298fc1c149afbf4c8996fb92427ae41e4649b934ca495991b7852b855".
Proof. vm_compute. reflexivity. Qed.

Example sha256_abc :
  Sha256.sha256 "abc" =
  "ba7816bf8f01cfea414140de5dae2223b00361a396177a9cb410ff61f20015ad".
Proof. vm_compute. reflexivity. Qed.

Example sha256_two_blocks :
  Sha256.sha256 "abcdbcdecdefdefgefghfghighijhijkijkljklmklmnlmnomnopnopq" =
  "248d6a61d20638b8e5c026930c3e6039a33ce45964ff2167f6ecedd419db06c1".
Proof. vm_compute. reflexivity. Qed.

(** ** Conversions *)

Example string_of_N_examples :
  string_of_N 0 = "0" /\ string_of_N 12 = "12" /\
  string_of_Z 0 = "0" /\ string_of_Z (-300) = "-300".
Proof. repeat split; reflexivity. Qed.

(** [nonce++] at and above [2^53], next to the same sums on doubles. *)
Example js_incr_examples :
  js_incr (JNumber 41) = JNumber 42 /\
  js_incr (JNumber 9007199254740991) = JNumber 9007199254740992 /\
  js_incr (JNumber 9007199254740992) = JNumber 9007199254740992 /\
  js_incr (JNumber 9007199254740994) = JNumber 9007199254740996 /\
  js_incr JUndefined = JNaN /\
  (9007199254740992 + 1 = 9007199254740992)%float /\
  (9007199254740994 + 1 = 9007199254740996)%float.
Proof. repeat split; vm_compute; reflexivity. Qed.

(** The exact value of a double, in units of [2^-1074]. *)
Example units_examples :
  units 1%float = Some (2 ^ 1074)%Z /\
  units 0.5%float = Some (2 ^ 1073)%Z /\
  units (-300)%float = Some (-300 * 2 ^ 1074)%Z /\
  units (1 / 0)%float = None /\
  exact_add 100%float 200%float = true /\
  exact_add 9007199254740992%float 1%float = false /\
  exact_add 0.1%float 0.2%float = false.
Proof. repeat split; vm_compute; reflexivity. Qed.

Example JSON_stringify_examples :
  JSON_stringify (JStr "Genesis block") = dquote ++ "Genesis block" ++ dquote /\
  JSON_stringify (JObj [("amount", JNum 4)])
  = "{" ++ dquote ++ "amount" ++ dquote ++ ":4}" /\
  JSON_stringify (JArr [JNum (-3); JBool true; JNull; JStr backslash])
  = "[-3,true,null," ++ dquote ++ backslash ++ backslash ++ dquote ++ "]".
Proof. repeat split; reflexivity. Qed.

Example Array_join_examples :
  Array_join 3 "0" = Ret "00" /\ Array_join 1 "0" = Ret EmptyString.
Proof. split; reflexivity. Qed.

Lemma Array_join_RangeError (n : nat) (sep : string) :
  (4294967295 < N.of_nat n)%N -> Array_join n sep = Throw RangeError.
Proof.
  intro H. unfold Array_join. apply N.leb_gt in H. rewrite H. reflexivity.
Qed.

(** The text block 1 of the first run is hashed from, at its
    construction and at the first round of the loop. *)
Example hash_input_examples :
  Generic.hash (Generic.new_Block3 (fun s => s) 1 Runs.g1 (Runs.amount_object 4))
  = "12025-03-01T10:00:01.447Z{" ++ dquote ++ "amount" ++ dquote ++ ":4}undefined" /\
  Generic.calculateHash (fun s => s) (Runs.blockG1)
  = "11764017deed2c93544e857c114530bb1a6a0ec2b4826bdbf0382b61f623b21c0"
    ++ "2025-03-01T10:00:01.447Z{" ++ dquote ++ "amount" ++ dquote ++ ":4}1".
Proof. split; reflexivity. Qed.

(** The digest is never the empty string: it is 64 characters long. *)
Lemma sha256_length (s : string) : String.length (Sha256.sha256 s) = 64.
Proof. reflexivity. Qed.

Lemma sha256_not_empty (s : string) : Sha256.sha256 s <> EmptyString.
Proof.
  intro H. pose proof (sha256_length s) as L. rewrite H in L. discriminate L.
Qed.

(** ** Mining *)

Lemma Array_join_zeros (d : nat) (z : string) :
  Array_join (d + 1) "0" = Ret z -> z = copies d "0".
Proof.
  unfold Array_join. destruct (N.of_nat (d + 1) <=? 4294967295)%N.
  - intro H. injection H as <-. f_equal. lia.
  - discriminate.
Qed.

Lemma substring_zeros (d : nat) :
  forall h : string,
    substring 0 d h = copies d "0" ->
    forall i, i < d -> String.get i h = Some "0"%char.
Proof.
  induction d as [|d IH]; intros h Hsub i Hi.
  - lia.
  - destruct h as [|c h]; simpl in Hsub.
    + discriminate Hsub.
    + injection Hsub as Hc Hrest. subst c.
      destruct i as [|i]; simpl.
      * reflexivity.
      * apply IH; [exact Hrest | lia].
Qed.

Lemma generic_mineBlock_prefix (SHA256 : string -> string) (fuel d : nat) :
  forall this mined : Generic.Block,
    Generic.mineBlock SHA256 fuel d this = Ret mined ->
    substring 0 d (Generic.hash mined) = copies d "0".
Proof.
  induction fuel as [|fuel IH]; intros this mined H; simpl in H.
  - discriminate H.
  - destruct (Array_join (d + 1) "0") as [z| |] eqn:Hz; simpl in H;
      try discriminate H.
    apply Array_join_zeros in Hz. subst z.
    destruct (String.eqb (substring 0 d (Generic.hash this)) (copies d "0"))
      eqn:Heq; simpl in H.
    + injection H as <-. apply String.eqb_eq. exact Heq.
    + apply IH in H. exact H.
Qed.

Lemma ledger_mineBlock_prefix (SHA256 : string -> string) (fuel d : nat) :
  forall this mined : LedgerMode.Block,
    LedgerMode.mineBlock SHA256 fuel d this = Ret mined ->
    substring 0 d (LedgerMode.hash mined) = copies d "0".
Proof.
  induction fuel as [|fuel IH]; intros this mined H; simpl in H.
  - discriminate H.
  - destruct (Array_join (d + 1) "0") as [z| |] eqn:Hz; simpl in H;
      try discriminate H.
    apply Array_join_zeros in Hz. subst z.
    destruct (String.eqb (substring 0 d (LedgerMode.hash this)) (copies d "0"))
      eqn:Heq; simpl in H.
    + injection H as <-. apply String.eqb_eq. exact Heq.
    + apply IH in H. exact H.
Qed.

(** Mining changes the nonce and the hash only. *)
Lemma ledger_mineBlock_fields (SHA256 : string -> string) (fuel d : nat) :
  forall this mined : LedgerMode.Block,
    LedgerMode.mineBlock SHA256 fuel d this = Ret mined ->
    LedgerMode.transaction mined = LedgerMode.transaction this /\
    LedgerMode.prevHash mined = LedgerMode.prevHash this /\
    LedgerMode.timestamp mined = LedgerMode.timestamp this.
Proof.
  induction fuel as [|fuel IH]; intros this mined H; simpl in H.
  - discriminate H.
  - destruct (Array_join (d + 1) "0") as [z| |]; simpl in H;
      try discriminate H.
    destruct (negb (String.eqb (substring 0 d (LedgerMode.hash this)) z)).
    + apply IH in H. simpl in H. exact H.
    + injection H as <-. repeat split.
Qed.

Lemma generic_mineBlock_fields (SHA256 : string -> string) (fuel d : nat) :
  forall this mined : Generic.Block,
    Generic.mineBlock SHA256 fuel d this = Ret mined ->
    Generic.index mined = Generic.index this /\
    Generic.data mined = Generic.data this /\
    Generic.prevHash mined = Generic.prevHash this /\
    Generic.timestamp mined = Generic.timestamp this.
Proof.
  induction fuel as [|fuel IH]; intros this mined H; simpl in H.
  - discriminate H.
  - destruct (Array_join (d + 1) "0") as [z| |]; simpl in H;
      try discriminate H.
    destruct (negb (String.eqb (substring 0 d (Generic.hash this)) z)).
    + apply IH in H. simpl in H. exact H.
    + injection H as <-. repeat split.
Qed.

(** A block that went through at least one round of the loop carries the
    hash of its own fields. *)
Lemma generic_mineBlock_consistent (SHA256 : string -> string) (fuel d : nat) :
  forall this mined : Generic.Block,
    Generic.mineBlock SHA256 fuel d this = Ret mined ->
    mined = this \/ generic_consistent SHA256 mined.
Proof.
  induction fuel as [|fuel IH]; intros this mined H; simpl in H.
  - discriminate H.
  - destruct (Array_join (d + 1) "0") as [z| |]; simpl in H;
      try discriminate H.
    destruct (negb (String.eqb (substring 0 d (Generic.hash this)) z)).
    + right. apply IH in H. destruct H as [-> | H].
      * reflexivity.
      * exact H.
    + injection H as <-. left. reflexivity.
Qed.

(** C7. When [mineBlock(d)] returns, in either class, each of the first
    [d] characters of the block's hash is the character 0 (so the hash
    has at least [d] characters). *)
Theorem mineBlock_leading_zeros (SHA256 : string -> string) (fuel d : nat) :
  (forall this mined : Generic.Block,
      Generic.mineBlock SHA256 fuel d this = Ret mined ->
      forall i, i < d -> String.get i (Generic.hash mined) = Some "0"%char) /\
  (forall this mined : LedgerMode.Block,
      LedgerMode.mineBlock SHA256 fuel d this = Ret mined ->
      forall i, i < d -> String.get i (LedgerMode.hash mined) = Some "0"%char).
Proof.
  split; intros this mined H i Hi.
  - apply (substring_zeros d); [|exact Hi].
    exact (generic_mineBlock_prefix SHA256 fuel d this mined H).
  - apply (substring_zeros d); [|exact Hi].
    exact (ledger_mineBlock_prefix SHA256 fuel d this mined H).
Qed.

Lemma mineBlock_leading_zeros_witness :
  (Generic.mineBlock Runs.sha 10 2 Runs.blockG1_linked = Ret Runs.blockG1 /\
   forall i, i < 2 -> String.get i (Generic.hash Runs.blockG1) = Some "0"%char) /\
  (LedgerMode.mineBlock Runs.sha 10 2 (Runs.blockL1_fresh []) = Ret (Runs.blockL1 []) /\
   forall i, i < 2 -> String.get i (LedgerMode.hash (Runs.blockL1 [])) = Some "0"%char).
Proof.
  assert (HG : Generic.mineBlock Runs.sha 10 2 Runs.blockG1_linked = Ret Runs.blockG1)
    by (vm_compute; reflexivity).
  assert (HL : LedgerMode.mineBlock Runs.sha 10 2 (Runs.blockL1_fresh [])
               = Ret (Runs.blockL1 []))
    by (vm_compute; reflexivity).
  split; (split; [assumption|]).
  - exact (proj1 (mineBlock_leading_zeros Runs.sha 10 2)
                 Runs.blockG1_linked Runs.blockG1 HG).
  - exact (proj2 (mineBlock_leading_zeros Runs.sha 10 2)
                 (Runs.blockL1_fresh []) (Runs.blockL1 []) HL).
Defined.

(** The loop does stop, with enough fuel, as soon as some number of
    further attempts produces a hash with the prefix. *)
Lemma generic_mineBlock_returns (SHA256 : string -> string) (d : nat) :
  (N.of_nat (d + 1) <= 4294967295)%N ->
  forall (k : nat) (this : Generic.Block),
    substring 0 d (Generic.hash (Nat.iter k (generic_attempt SHA256) this))
    = copies d "0" ->
    exists fuel mined, Generic.mineBlock SHA256 fuel d this = Ret mined.
Proof.
  intros Hd k. induction k as [|k IH]; intros this Hk.
  - exists 1, this. simpl. unfold Array_join.
    apply N.leb_le in Hd. rewrite Hd. simpl.
    replace (d + 1 - 1) with d by lia.
    simpl in Hk. rewrite Hk, String.eqb_refl. reflexivity.
  - destruct (String.eqb (substring 0 d (Generic.hash this)) (copies d "0"))
      eqn:Hnow.
    + exists 1, this. simpl. unfold Array_join.
      apply N.leb_le in Hd. rewrite Hd. simpl.
      replace (d + 1 - 1) with d by lia.
      rewrite Hnow. reflexivity.
    + destruct (IH (generic_attempt SHA256 this)) as [fuel [mined Hm]].
      * rewrite <- Hk. simpl. rewrite <- Nat.iter_succ_r. reflexivity.
      * exists (S fuel), mined. simpl. unfold Array_join.
        apply N.leb_le in Hd. rewrite Hd. simpl.
        replace (d + 1 - 1) with d by lia.
        rewrite Hnow. simpl. exact Hm.
Qed.

(** ** Construction of a block *)

Lemma generic_new_Block_hash (SHA256 : string -> string)
      (i : N) (ts : string) (d : json) (p : string) :
  Generic.hash (Generic.new_Block SHA256 i ts d p)
  = SHA256 (string_of_N i ++ p ++ ts ++ JSON_stringify d ++ "undefined").
Proof. reflexivity. Qed.

Lemma generic_new_Block_calculateHash (SHA256 : string -> string)
      (i : N) (ts : string) (d : json) (p : string) :
  Generic.calculateHash SHA256 (Generic.new_Block SHA256 i ts d p)
  = SHA256 (string_of_N i ++ p ++ ts ++ JSON_stringify d ++ "0").
Proof. reflexivity. Qed.

(** C8, on the code: [new Block(1, "2025-03-01T10:00:01.447Z",
    {amount: 4})] has nonce 0, but its stored hash is the digest of the
    fields followed by the text undefined, which is not what
    [calculateHash()] returns on the constructed block. *)
Theorem new_Block_hash_not_calculateHash :
  let b := Generic.new_Block3 Runs.sha 1 Runs.g1 (Runs.amount_object 4) in
  Generic.nonce b = JNumber 0 /\
  Generic.hash b
  = "2cd5be1517502330a99fb5f298f2f0925a5fe4962d43b78fd3a8111edeb08f09" /\
  Generic.calculateHash Runs.sha b
  = "f19371860a7fbaab632ad66b94672a403cd44a67fdef05be4f6c1e998da5e1ac" /\
  Generic.hash b <> Generic.calculateHash Runs.sha b.
Proof.
  assert (Hh : Generic.hash
                 (Generic.new_Block3 Runs.sha 1 Runs.g1 (Runs.amount_object 4))
               = "2cd5be1517502330a99fb5f298f2f0925a5fe4962d43b78fd3a8111edeb08f09")
    by (vm_compute; reflexivity).
  assert (Hc : Generic.calculateHash Runs.sha
                 (Generic.new_Block3 Runs.sha 1 Runs.g1 (Runs.amount_object 4))
               = "f19371860a7fbaab632ad66b94672a403cd44a67fdef05be4f6c1e998da5e1ac")
    by (vm_compute; reflexivity).
  cbv zeta. repeat split; try assumption.
  rewrite Hh, Hc. discriminate.
Qed.

(** The same in the transaction chain: the genesis block, which nobody
    mines, keeps a hash [calculateHash()] does not reproduce. *)
Lemma ledger_new_Block_hash (SHA256 : string -> string)
      (ts : string) (p : LedgerMode.payload) (prev : string) :
  LedgerMode.hash (LedgerMode.new_Block SHA256 ts p prev)
  = SHA256 ("undefined" ++ prev ++ ts ++ "undefined" ++ "undefined") /\
  LedgerMode.nonce (LedgerMode.new_Block SHA256 ts p prev) = JNumber 0 /\
  LedgerMode.prevHash (LedgerMode.new_Block SHA256 ts p prev) = prev /\
  LedgerMode.transaction (LedgerMode.new_Block SHA256 ts p prev) = p.
Proof. repeat split. Qed.

(** ** The hash of a transaction block *)

Lemma ledger_calculateHash_set_transaction
      (SHA256 : string -> string) (this : LedgerMode.Block)
      (p : LedgerMode.payload) :
  LedgerMode.calculateHash SHA256 (LedgerMode.set_transaction this p)
  = LedgerMode.calculateHash SHA256 this.
Proof. reflexivity. Qed.

(** C4, on the code: [calculateHash()] of the transaction chain reads
    [this.index] and [this.data], which its blocks do not have, and never
    reads [this.transaction]: two blocks with the same timestamp,
    previous hash and nonce get the same hash, whatever their payloads. *)
Theorem calculateHash_ignores_transaction
        (SHA256 : string -> string) (b1 b2 : LedgerMode.Block) :
  LedgerMode.timestamp b1 = LedgerMode.timestamp b2 ->
  LedgerMode.prevHash b1 = LedgerMode.prevHash b2 ->
  LedgerMode.nonce b1 = LedgerMode.nonce b2 ->
  LedgerMode.calculateHash SHA256 b1 = LedgerMode.calculateHash SHA256 b2.
Proof.
  intros Hts Hprev Hnonce. unfold LedgerMode.calculateHash.
  rewrite Hts, Hprev, Hnonce. reflexivity.
Qed.

Lemma calculateHash_ignores_transaction_witness :
  LedgerMode.transaction (Runs.blockL1 [Runs.transfer "A" "B" 100])
  <> LedgerMode.transaction (Runs.blockL1 [Runs.transfer "A" "B" 999]) /\
  LedgerMode.calculateHash Runs.sha (Runs.blockL1 [Runs.transfer "A" "B" 100])
  = LedgerMode.calculateHash Runs.sha (Runs.blockL1 [Runs.transfer "A" "B" 999]).
Proof.
  split.
  - simpl. discriminate.
  - apply (calculateHash_ignores_transaction Runs.sha); reflexivity.
Defined.

Lemma ledger_calculateHash_input (SHA256 : string -> string)
      (this : LedgerMode.Block) :
  LedgerMode.calculateHash SHA256 this
  = SHA256 ("undefined" ++ LedgerMode.prevHash this ++ LedgerMode.timestamp this
            ++ "undefined" ++ js_num_to_string (LedgerMode.nonce this)).
Proof. reflexivity. Qed.

(** Two blocks that differ in their payload only, and their common hash. *)
Example calculateHash_two_payloads :
  let b1 := LedgerMode.mkBlock Runs.l1
              (LedgerMode.PTransactions
                 [LedgerMode.new_Transaction (Some "A") (Some "B") 100])
              EmptyString EmptyString (JNumber 2) in
  let b2 := LedgerMode.mkBlock Runs.l1
              (LedgerMode.PTransactions
                 [LedgerMode.new_Transaction (Some "A") (Some "B") 999])
              EmptyString EmptyString (JNumber 2) in
  LedgerMode.calculateHash Runs.sha b1
  = "d69cadda3a83e0bce1a93e77a6f2207654ffa8f36ee4da02341d48225508b468" /\
  LedgerMode.calculateHash Runs.sha b2
  = "d69cadda3a83e0bce1a93e77a6f2207654ffa8f36ee4da02341d48225508b468".
Proof. split; vm_compute; reflexivity. Qed.

(** ** Shape of the ledgers the public methods build *)

Lemma reachable_shape (SHA256 : string -> string) (this : LedgerMode.Blockchain) :
  LedgerMode.reachable SHA256 this -> ledger_shape SHA256 this.
Proof.
  induction 1 as [now | this t _ IH | this this' fuel now rewardTo _ IH Hmine].
  - exists now, []. split; [reflexivity | constructor].
  - exact IH.
  - destruct IH as [now0 [rest [Hchain Hrest]]].
    unfold LedgerMode.minePedingTransactions in Hmine.
    destruct (LedgerMode.mineBlock SHA256 fuel (LedgerMode.difficulty this)
                (LedgerMode.new_Block2 SHA256 now
                   (LedgerMode.PTransactions (LedgerMode.pendingTransaction this))))
      as [block| |] eqn:Hblock; simpl in Hmine; try discriminate Hmine.
    injection Hmine as <-.
    apply ledger_mineBlock_fields in Hblock.
    destruct Hblock as [Htx [Hprev _]]. simpl in Htx, Hprev.
    exists now0, (rest ++ [block])%list. simpl. split.
    + rewrite Hchain. reflexivity.
    + apply Forall_app. split; [exact Hrest|].
      constructor; [|constructor].
      split; [eexists; exact Htx | exact Hprev].
Qed.

(** ** Validation of the transaction chain *)

(** A freshly mined block is appended with [prevHash = ''], and a digest
    is never empty: every chain with a mined block fails validation at
    index 1. *)
Lemma ledger_mined_chain_invalid (SHA256 : string -> string)
      (this : LedgerMode.Blockchain) :
  (forall s, SHA256 s <> EmptyString) ->
  LedgerMode.reachable SHA256 this ->
  2 <= List.length (LedgerMode.chain this) ->
  LedgerMode.validate SHA256 this = HashMismatch 1 \/
  LedgerMode.validate SHA256 this = PrevHashMismatch 1.
Proof.
  intros Hne Hreach Hlen.
  destruct (reachable_shape SHA256 this Hreach) as [now [rest [Hchain Hrest]]].
  unfold LedgerMode.validate. rewrite Hchain in *.
  destruct rest as [|b rest]; simpl in Hlen; [lia|].
  inversion Hrest as [|b' rest' [_ Hprev] _]; subst.
  assert (Hg : exists s, LedgerMode.hash (LedgerMode.createGenesisBlock SHA256 now)
                         = SHA256 s) by (eexists; reflexivity).
  destruct Hg as [s Hg].
  cbn [LedgerMode.validate_from]. rewrite Hprev, Hg.
  destruct (String.eqb (LedgerMode.hash b) (LedgerMode.calculateHash SHA256 b));
    cbn [negb]; [|left; reflexivity].
  destruct (String.eqb EmptyString (SHA256 s)) eqn:Heq; cbn [negb].
  - apply String.eqb_eq in Heq. symmetry in Heq. apply Hne in Heq. contradiction.
  - right. reflexivity.
Qed.

(** The loop reads nothing but the hash of the previous block. *)
Lemma ledger_validate_from_previous (SHA256 : string -> string)
      (rest : list LedgerMode.Block) (k : nat) (p1 p2 : LedgerMode.Block) :
  LedgerMode.hash p1 = LedgerMode.hash p2 ->
  LedgerMode.validate_from SHA256 k p1 rest
  = LedgerMode.validate_from SHA256 k p2 rest.
Proof.
  intro H. destruct rest as [|b rest]; [reflexivity|].
  cbn [LedgerMode.validate_from]. rewrite H. reflexivity.
Qed.

(** Overwriting payloads never changes the verdict. *)
Lemma ledger_validate_from_tamper (SHA256 : string -> string)
      (p : LedgerMode.payload) :
  forall (rest : list LedgerMode.Block) (i k : nat) (previous : LedgerMode.Block),
    LedgerMode.validate_from SHA256 k previous
      (LedgerMode.update_at i (fun b => LedgerMode.set_transaction b p) rest)
    = LedgerMode.validate_from SHA256 k previous rest.
Proof.
  induction rest as [|b rest IH]; intros i k previous.
  - destruct i; reflexivity.
  - destruct i as [|i]; cbn [LedgerMode.update_at LedgerMode.validate_from].
    + change (LedgerMode.calculateHash SHA256 (LedgerMode.set_transaction b p))
        with (LedgerMode.calculateHash SHA256 b).
      change (LedgerMode.hash (LedgerMode.set_transaction b p))
        with (LedgerMode.hash b).
      change (LedgerMode.prevHash (LedgerMode.set_transaction b p))
        with (LedgerMode.prevHash b).
      rewrite (ledger_validate_from_previous SHA256 rest (S k)
                 (LedgerMode.set_transaction b p) b eq_refl).
      reflexivity.
    + rewrite IH. reflexivity.
Qed.

Lemma ledger_validate_tamper (SHA256 : string -> string)
      (this : LedgerMode.Blockchain) (i : nat) (p : LedgerMode.payload) :
  LedgerMode.validate SHA256 (LedgerMode.tamper_transaction i p this)
  = LedgerMode.validate SHA256 this.
Proof.
  unfold LedgerMode.validate, LedgerMode.tamper_transaction.
  cbn [LedgerMode.chain].
  destruct (LedgerMode.chain this) as [|g rest]; [destruct i; reflexivity|].
  destruct i as [|i]; cbn [LedgerMode.update_at].
  - apply ledger_validate_from_previous. reflexivity.
  - apply ledger_validate_from_tamper.
Qed.

(** ** The runs *)

(** The blocks written out in [Runs] are the ones the constructors
    build. *)
Lemma runs_blocks :
  Generic.createGenesisBlock Runs.sha Runs.t0 = Runs.genesisG /\
  Generic.set_prevHash (Generic.new_Block3 Runs.sha 1 Runs.g1 (Runs.amount_object 4))
    (Generic.hash Runs.genesisG) = Runs.blockG1_linked /\
  LedgerMode.createGenesisBlock Runs.sha Runs.t0 = Runs.genesisL /\
  LedgerMode.new_Block2 Runs.sha Runs.l1 (LedgerMode.PTransactions [])
  = Runs.blockL1_fresh [].
Proof.
  split; [vm_compute; reflexivity|].
  split; [vm_compute; reflexivity|].
  split; vm_compute; reflexivity.
Qed.

(** C1, on the code: a fresh transaction ledger and one call
    [minePedingTransactions("M")].  The new block is never linked to the
    tip, so [isChainValid()] answers false, at index 1. *)
Theorem mined_ledger_fails_validation :
  LedgerMode.minePedingTransactions Runs.sha 10 Runs.l1 "M"
    (LedgerMode.new_Blockchain Runs.sha Runs.t0) = Ret Runs.ledgerM /\
  LedgerMode.validate Runs.sha Runs.ledgerM = PrevHashMismatch 1 /\
  LedgerMode.isChainValid Runs.sha Runs.ledgerM = false.
Proof.
  split; [vm_compute; reflexivity|].
  assert (H : LedgerMode.validate Runs.sha Runs.ledgerM = PrevHashMismatch 1)
    by (vm_compute; reflexivity).
  split; [exact H|].
  unfold LedgerMode.isChainValid. rewrite H. reflexivity.
Qed.

(** The same holds of every ledger the methods build, once a block was
    mined. *)
Lemma sha_mined_chain_invalid (this : LedgerMode.Blockchain) :
  LedgerMode.reachable Runs.sha this ->
  2 <= List.length (LedgerMode.chain this) ->
  LedgerMode.isChainValid Runs.sha this = false.
Proof.
  intros Hreach Hlen. unfold LedgerMode.isChainValid.
  destruct (ledger_mined_chain_invalid Runs.sha this sha256_not_empty Hreach Hlen)
    as [-> | ->]; reflexivity.
Qed.

(** In the generic chain [addBlock] links the block, but a block whose
    constructor hash already has the prefix is appended with that hash,
    computed before the link and the nonce were set. *)
Lemma scenarioA_premined_block :
  Generic.scenarioA Runs.sha 10 Runs.t0 Runs.g1 Runs.g2' Runs.g3'
  = Ret Runs.chainA' /\
  Generic.validate Runs.sha Runs.chainA' = HashMismatch 2.
Proof. split; vm_compute; reflexivity. Qed.

Lemma scenarioA_usual_run :
  Generic.scenarioA Runs.sha 10 Runs.t0 Runs.g1 Runs.g2 Runs.g3
  = Ret Runs.chainA /\
  Generic.validate Runs.sha Runs.chainA = Valid.
Proof. split; vm_compute; reflexivity. Qed.

(** C2, on the code: the block [minePedingTransactions] appends has
    [prevHash = ''], not the hash of the block that was the tip. *)
Theorem mined_block_not_linked :
  exists tip block : LedgerMode.Block,
    LedgerMode.getLatestBlock (LedgerMode.new_Blockchain Runs.sha Runs.t0)
    = Some tip /\
    LedgerMode.minePedingTransactions Runs.sha 10 Runs.l1 "M"
      (LedgerMode.new_Blockchain Runs.sha Runs.t0) = Ret Runs.ledgerM /\
    LedgerMode.getLatestBlock Runs.ledgerM = Some block /\
    LedgerMode.hash tip
    = "847d9a3d06e5b8f875b67a2a5e9a2c75b5a0e93aeb2b591667b811f973e800eb" /\
    LedgerMode.prevHash block = EmptyString /\
    LedgerMode.prevHash block <> LedgerMode.hash tip.
Proof.
  exists Runs.genesisL, (Runs.blockL1 []).
  split; [vm_compute; reflexivity|].
  split; [vm_compute; reflexivity|].
  split; [reflexivity|].
  split; [reflexivity|].
  split; [reflexivity|].
  simpl. discriminate.
Qed.

(** For every ledger and every reward address. *)
Lemma minePedingTransactions_prevHash (SHA256 : string -> string)
      (fuel : nat) (now rewardTo : string) (this this' : LedgerMode.Blockchain) :
  LedgerMode.minePedingTransactions SHA256 fuel now rewardTo this = Ret this' ->
  exists block,
    LedgerMode.chain this' = (LedgerMode.chain this ++ [block])%list /\
    LedgerMode.prevHash block = EmptyString /\
    LedgerMode.transaction block
    = LedgerMode.PTransactions (LedgerMode.pendingTransaction this) /\
    LedgerMode.pendingTransaction this'
    = [LedgerMode.new_Transaction None (Some rewardTo) (LedgerMode.miningReward this)] /\
    LedgerMode.miningReward this' = LedgerMode.miningReward this.
Proof.
  unfold LedgerMode.minePedingTransactions. intro H.
  destruct (LedgerMode.mineBlock SHA256 fuel (LedgerMode.difficulty this)
              (LedgerMode.new_Block2 SHA256 now
                 (LedgerMode.PTransactions (LedgerMode.pendingTransaction this))))
    as [block| |] eqn:Hblock; simpl in H; try discriminate H.
  injection H as <-.
  apply ledger_mineBlock_fields in Hblock. destruct Hblock as [Htx [Hprev _]].
  exists block. simpl. repeat split; assumption.
Qed.

(** C5, on the code: Scenario C's ledger, then the payload of block 1
    overwritten.  The block still passes its own hash check and the
    verdict is the one the untouched chain gets, a link mismatch at
    index 1. *)
Theorem tampered_payload_not_detected :
  let forged := [Runs.transfer "A" "B" 1000000] in
  let tampered :=
    LedgerMode.tamper_transaction 1 (LedgerMode.PTransactions forged) Runs.ledgerC in
  LedgerMode.scenarioC Runs.sha 10 Runs.t0 Runs.l1 = Ret Runs.ledgerC /\
  LedgerMode.validate Runs.sha Runs.ledgerC = PrevHashMismatch 1 /\
  LedgerMode.validate Runs.sha tampered = PrevHashMismatch 1 /\
  nth_error (LedgerMode.chain tampered) 1 = Some (Runs.blockL1 forged) /\
  LedgerMode.hash (Runs.blockL1 forged)
  = LedgerMode.calculateHash Runs.sha (Runs.blockL1 forged).
Proof.
  cbv zeta.
  split; [vm_compute; reflexivity|].
  split; [vm_compute; reflexivity|].
  split; [vm_compute; reflexivity|].
  split; [reflexivity|].
  vm_compute; reflexivity.
Qed.

(** ** Balances *)

Lemma txs_delta_app (addr : LedgerMode.address)
      (l1 l2 : list LedgerMode.Transaction) :
  txs_delta addr (l1 ++ l2) = (txs_delta addr l1 + txs_delta addr l2)%Z.
Proof.
  induction l1 as [|t l1 IH]; simpl.
  - reflexivity.
  - rewrite IH. lia.
Qed.

Lemma fold_balance_chars (addr : LedgerMode.address) (cs : list ascii) :
  forall balance : float,
    fold_left (LedgerMode.balance_step addr) (map LedgerMode.EChar cs) balance
    = balance.
Proof.
  induction cs as [|c cs IH]; intro balance; simpl.
  - reflexivity.
  - apply IH.
Qed.

Lemma balance_blocks_app (addr : LedgerMode.address) :
  forall (l1 l2 : list LedgerMode.Block) (balance : float),
    LedgerMode.balance_blocks addr (l1 ++ l2)%list balance
    = (z <- LedgerMode.balance_blocks addr l1 balance ;;
       LedgerMode.balance_blocks addr l2 z).
Proof.
  induction l1 as [|b l1 IH]; intros l2 balance.
  - reflexivity.
  - cbn [app LedgerMode.balance_blocks].
    destruct (LedgerMode.js_iterate (LedgerMode.transaction b)) as [elements| |];
      cbn [bind]; [apply IH | reflexivity | reflexivity].
Qed.

(** The scan returns when every payload can be looped over. *)
Lemma balance_blocks_returns (addr : LedgerMode.address) :
  forall (blocks : list LedgerMode.Block) (balance : float),
    Forall iterable blocks ->
    exists z : float, LedgerMode.balance_blocks addr blocks balance = Ret z.
Proof.
  induction blocks as [|b blocks IH]; intros balance Hall; simpl.
  - eexists. reflexivity.
  - inversion Hall as [|b' blocks' Hb Hblocks]; subst.
    unfold iterable in Hb.
    destruct (LedgerMode.transaction b) as [s | txs |]; simpl.
    + apply IH. exact Hblocks.
    + apply IH. exact Hblocks.
    + contradiction Hb. reflexivity.
Qed.

(** A block with a string payload can be left out of the scan. *)
Lemma balance_blocks_skip (addr : LedgerMode.address)
      (before after : list LedgerMode.Block) (b : LedgerMode.Block) (s : string)
      (balance : float) :
  LedgerMode.transaction b = LedgerMode.PString s ->
  LedgerMode.balance_blocks addr (before ++ b :: after)%list balance
  = LedgerMode.balance_blocks addr (before ++ after)%list balance.
Proof.
  intro Hb. rewrite !balance_blocks_app.
  destruct (LedgerMode.balance_blocks addr before balance) as [z| |];
    cbn [bind]; [|reflexivity|reflexivity].
  cbn [LedgerMode.balance_blocks]. rewrite Hb.
  cbn [LedgerMode.js_iterate bind]. rewrite fold_balance_chars. reflexivity.
Qed.

Lemma mined_block_iterable (b : LedgerMode.Block) : mined_block b -> iterable b.
Proof.
  intros [[txs H] _]. unfold iterable. rewrite H. discriminate.
Qed.

Lemma shape_iterable (SHA256 : string -> string) (this : LedgerMode.Blockchain) :
  ledger_shape SHA256 this -> Forall iterable (LedgerMode.chain this).
Proof.
  intros [now [rest [Hchain Hrest]]]. rewrite Hchain. constructor.
  - unfold iterable. simpl. discriminate.
  - apply Forall_impl with (P := mined_block);
      [exact mined_block_iterable | exact Hrest].
Qed.

(** C9. On every ledger the public methods build and for every address
    (a string, or [null]), [getBalanceOfAddress] returns a number; the
    genesis block, whose payload is the string "Genesis block", adds
    nothing to it, and neither does any other block with a string
    payload. *)
Theorem getBalanceOfAddress_returns
        (SHA256 : string -> string) (this : LedgerMode.Blockchain)
        (addr : LedgerMode.address) :
  LedgerMode.reachable SHA256 this ->
  (exists balance : float,
      LedgerMode.getBalanceOfAddress addr this = Ret balance) /\
  (exists genesis rest,
      LedgerMode.chain this = genesis :: rest /\
      LedgerMode.transaction genesis = LedgerMode.PString "Genesis block" /\
      LedgerMode.balance_blocks addr [genesis] 0%float = Ret 0%float /\
      LedgerMode.getBalanceOfAddress addr this
      = LedgerMode.balance_blocks addr rest 0%float) /\
  (forall before b after s,
      LedgerMode.chain this = (before ++ b :: after)%list ->
      LedgerMode.transaction b = LedgerMode.PString s ->
      LedgerMode.getBalanceOfAddress addr this
      = LedgerMode.balance_blocks addr (before ++ after)%list 0%float).
Proof.
  intro Hreach.
  pose proof (reachable_shape SHA256 this Hreach) as Hshape.
  pose proof (shape_iterable SHA256 this Hshape) as Hiter.
  unfold LedgerMode.getBalanceOfAddress.
  split; [|split].
  - apply balance_blocks_returns. exact Hiter.
  - destruct Hshape as [now [rest [Hchain Hrest]]].
    exists (LedgerMode.createGenesisBlock SHA256 now), rest.
    split; [exact Hchain|]. split; [reflexivity|]. split; [reflexivity|].
    rewrite Hchain. reflexivity.
  - intros before b after s Hchain Hb.
    rewrite Hchain. apply (balance_blocks_skip addr before after b s). exact Hb.
Qed.

Lemma ledgerC_reachable : LedgerMode.reachable Runs.sha Runs.ledgerC.
Proof.
  apply (LedgerMode.reach_mine Runs.sha
           (LedgerMode.createTransaction (Runs.transfer "A" "B" 200)
              (LedgerMode.createTransaction (Runs.transfer "A" "B" 100)
                 (LedgerMode.new_Blockchain Runs.sha Runs.t0)))
           Runs.ledgerC 10 Runs.l1 "M").
  - apply LedgerMode.reach_createTransaction.
    apply LedgerMode.reach_createTransaction.
    apply LedgerMode.reach_new.
  - vm_compute. reflexivity.
Defined.

Lemma getBalanceOfAddress_returns_witness :
  LedgerMode.reachable Runs.sha Runs.ledgerD /\
  (exists balance : float,
      LedgerMode.getBalanceOfAddress (Some "M") Runs.ledgerD = Ret balance) /\
  (exists genesis rest,
      LedgerMode.chain Runs.ledgerD = genesis :: rest /\
      LedgerMode.transaction genesis = LedgerMode.PString "Genesis block" /\
      LedgerMode.balance_blocks (Some "M") [genesis] 0%float = Ret 0%float /\
      LedgerMode.getBalanceOfAddress (Some "M") Runs.ledgerD
      = LedgerMode.balance_blocks (Some "M") rest 0%float) /\
  (forall before b after s,
      LedgerMode.chain Runs.ledgerD = (before ++ b :: after)%list ->
      LedgerMode.transaction b = LedgerMode.PString s ->
      LedgerMode.getBalanceOfAddress (Some "M") Runs.ledgerD
      = LedgerMode.balance_blocks (Some "M") (before ++ after)%list 0%float).
Proof.
  assert (R : LedgerMode.reachable Runs.sha Runs.ledgerD).
  { apply (LedgerMode.reach_mine Runs.sha Runs.ledgerC Runs.ledgerD 10 Runs.l2 "M").
    - exact ledgerC_reachable.
    - vm_compute. reflexivity. }
  split; [exact R|].
  exact (getBalanceOfAddress_returns Runs.sha Runs.ledgerD (Some "M") R).
Defined.

(** A payload that cannot be iterated does make the method throw; no
    public method produces one. *)
Example getBalanceOfAddress_throws :
  LedgerMode.getBalanceOfAddress (Some "M")
    (LedgerMode.mkBlockchain
       [Runs.genesisL;
        LedgerMode.mkBlock Runs.l1 LedgerMode.POther EmptyString EmptyString
          (JNumber 0)] 2 [] 100%float)
  = Throw TypeError.
Proof. reflexivity. Qed.

(** ** Scenario C *)

(** C3, as the code has it: after the two transfers and one mining call,
    the balance of B is 300, the balance of A is -300 and the balance of
    M is 0: the reward sits in the pending pool until the next block. *)
Theorem scenarioC_balances
        (SHA256 : string -> string) (fuel : nat) (t0 t1 : string)
        (poppiCoin : LedgerMode.Blockchain) :
  LedgerMode.scenarioC SHA256 fuel t0 t1 = Ret poppiCoin ->
  LedgerMode.getBalanceOfAddress (Some "M") poppiCoin = Ret 0%float /\
  LedgerMode.getBalanceOfAddress (Some "B") poppiCoin = Ret 300%float /\
  LedgerMode.getBalanceOfAddress (Some "A") poppiCoin = Ret (-300)%float /\
  LedgerMode.pendingTransaction poppiCoin
  = [LedgerMode.new_Transaction None (Some "M") (LedgerMode.miningReward poppiCoin)].
Proof.
  unfold LedgerMode.scenarioC. intro H.
  apply minePedingTransactions_prevHash in H.
  destruct H as [block [Hchain [_ [Htx [Hpending Hreward]]]]].
  simpl in Hchain, Htx, Hpending, Hreward.
  unfold LedgerMode.getBalanceOfAddress. rewrite Hchain, Hpending, Hreward.
  cbn [LedgerMode.balance_blocks LedgerMode.createGenesisBlock
       LedgerMode.new_Block LedgerMode.set_nonce LedgerMode.set_hash
       LedgerMode.transaction].
  rewrite Htx. repeat split; reflexivity.
Qed.

Lemma scenarioC_balances_witness :
  LedgerMode.scenarioC Runs.sha 10 Runs.t0 Runs.l1 = Ret Runs.ledgerC /\
  LedgerMode.getBalanceOfAddress (Some "M") Runs.ledgerC = Ret 0%float /\
  LedgerMode.getBalanceOfAddress (Some "B") Runs.ledgerC = Ret 300%float /\
  LedgerMode.getBalanceOfAddress (Some "A") Runs.ledgerC = Ret (-300)%float /\
  LedgerMode.pendingTransaction Runs.ledgerC
  = [LedgerMode.new_Transaction None (Some "M")
       (LedgerMode.miningReward Runs.ledgerC)].
Proof.
  assert (H : LedgerMode.scenarioC Runs.sha 10 Runs.t0 Runs.l1 = Ret Runs.ledgerC)
    by (vm_compute; reflexivity).
  split; [exact H|].
  exact (scenarioC_balances Runs.sha 10 Runs.t0 Runs.l1 Runs.ledgerC H).
Defined.

(** After Scenario C the balance of M is not the mining reward. *)
Lemma scenarioC_reward_not_credited :
  LedgerMode.scenarioC Runs.sha 10 Runs.t0 Runs.l1 = Ret Runs.ledgerC /\
  LedgerMode.miningReward Runs.ledgerC = 100%float /\
  LedgerMode.getBalanceOfAddress (Some "M") Runs.ledgerC = Ret 0%float /\
  LedgerMode.getBalanceOfAddress (Some "M") Runs.ledgerC
  <> Ret (LedgerMode.miningReward Runs.ledgerC).
Proof.
  split; [vm_compute; reflexivity|].
  split; [reflexivity|].
  split; [reflexivity|].
  intro H.
  apply (f_equal (fun o => match o with
                           | Ret x => PrimFloat.eqb x 0%float
                           | _ => false
                           end)) in H.
  vm_compute in H. discriminate H.
Qed.

(** The reward is credited by the next mining call (Scenario D). *)
Lemma scenarioD_balance :
  LedgerMode.minePedingTransactions Runs.sha 10 Runs.l2 "M" Runs.ledgerC
  = Ret Runs.ledgerD /\
  LedgerMode.getBalanceOfAddress (Some "M") Runs.ledgerD = Ret 100%float.
Proof. split; [vm_compute; reflexivity | reflexivity]. Qed.

(** ** Exact balances

    As long as no subtraction and no addition of the scan rounds, the
    balance is the exact sum of what the chain sends to the address
    minus what it takes from it. *)

Lemma exact_sub_units (x y : float) (u : Z) :
  units x = Some u -> exact_sub x y = true ->
  units (x - y)%float = Some (u - units_or_zero y)%Z.
Proof.
  unfold exact_sub, units_or_zero. intros ->.
  destruct (units y) as [b|]; [|discriminate].
  destruct (units (x - y)%float) as [c|]; [|discriminate].
  intro H. apply Z.eqb_eq in H. rewrite H. reflexivity.
Qed.

Lemma exact_add_units (x y : float) (u : Z) :
  units x = Some u -> exact_add x y = true ->
  units (x + y)%float = Some (u + units_or_zero y)%Z.
Proof.
  unfold exact_add, units_or_zero. intros ->.
  destruct (units y) as [b|]; [|discriminate].
  destruct (units (x + y)%float) as [c|]; [|discriminate].
  intro H. apply Z.eqb_eq in H. rewrite H. reflexivity.
Qed.

Lemma step_exact_units (addr : LedgerMode.address) (t : LedgerMode.Transaction)
      (balance : float) (u : Z) :
  units balance = Some u ->
  LedgerMode.step_exact addr balance (LedgerMode.ETransaction t) = true ->
  units (LedgerMode.balance_step addr balance (LedgerMode.ETransaction t))
  = Some (u + tx_delta addr t)%Z.
Proof.
  intros Hu. unfold LedgerMode.step_exact, LedgerMode.balance_step, tx_delta,
    amount_units.
  destruct (LedgerMode.address_eqb (LedgerMode.fromAddress t) addr);
    destruct (LedgerMode.address_eqb (LedgerMode.toAddress t) addr);
    cbn [andb]; intro H.
  - apply andb_true_iff in H. destruct H as [Hsub Hadd].
    rewrite (exact_add_units _ _ _ (exact_sub_units _ _ _ Hu Hsub) Hadd).
    f_equal; lia.
  - apply andb_true_iff in H. destruct H as [Hsub _].
    rewrite (exact_sub_units _ _ _ Hu Hsub). f_equal; lia.
  - rewrite (exact_add_units _ _ _ Hu H). f_equal; lia.
  - rewrite Hu. f_equal; lia.
Qed.

Lemma fold_balance_units (addr : LedgerMode.address)
      (txs : list LedgerMode.Transaction) :
  forall (balance : float) (u : Z),
    units balance = Some u ->
    LedgerMode.elements_exact addr (map LedgerMode.ETransaction txs) balance
    = true ->
    units (fold_left (LedgerMode.balance_step addr)
                     (map LedgerMode.ETransaction txs) balance)
    = Some (u + txs_delta addr txs)%Z.
Proof.
  induction txs as [|t txs IH]; intros balance u Hu Hexact;
    cbn [map fold_left txs_delta LedgerMode.elements_exact] in *.
  - rewrite Hu. f_equal; lia.
  - apply andb_true_iff in Hexact. destruct Hexact as [Hstep Hrest].
    rewrite (IH _ _ (step_exact_units addr t balance u Hu Hstep) Hrest).
    f_equal; lia.
Qed.

Lemma balance_blocks_units (addr : LedgerMode.address) :
  forall (blocks : list LedgerMode.Block) (balance : float) (u : Z),
    Forall iterable blocks ->
    units balance = Some u ->
    LedgerMode.blocks_exact addr blocks balance = true ->
    exists z : float,
      LedgerMode.balance_blocks addr blocks balance = Ret z /\
      units z
      = Some (u + txs_delta addr (flat_map LedgerMode.block_transactions blocks))%Z.
Proof.
  induction blocks as [|b blocks IH]; intros balance u Hall Hu Hexact.
  - exists balance. split; [reflexivity|]. simpl. rewrite Hu. f_equal; lia.
  - inversion Hall as [|b' blocks' Hb Hblocks]; subst.
    cbn [LedgerMode.balance_blocks LedgerMode.blocks_exact flat_map] in *.
    unfold LedgerMode.block_transactions at 1. unfold iterable in Hb.
    destruct (LedgerMode.transaction b) as [s | txs |];
      cbn [LedgerMode.js_iterate bind] in *.
    + apply andb_true_iff in Hexact. destruct Hexact as [_ Hrest].
      rewrite fold_balance_chars in *.
      destruct (IH balance u Hblocks Hu Hrest) as [z [Hz Huz]].
      exists z. split; [exact Hz|]. exact Huz.
    + apply andb_true_iff in Hexact. destruct Hexact as [Htxs Hrest].
      destruct (IH _ _ Hblocks (fold_balance_units addr txs balance u Hu Htxs) Hrest)
        as [z [Hz Huz]].
      exists z. split; [exact Hz|]. rewrite Huz, txs_delta_app. f_equal; lia.
    + contradiction Hb. reflexivity.
Qed.

Lemma units_zero : units 0%float = Some 0%Z.
Proof. reflexivity. Qed.

Lemma getBalanceOfAddress_units (this : LedgerMode.Blockchain)
      (addr : LedgerMode.address) :
  Forall iterable (LedgerMode.chain this) ->
  LedgerMode.balance_exact addr this = true ->
  exists z : float,
    LedgerMode.getBalanceOfAddress addr this = Ret z /\
    units z = Some (txs_delta addr (LedgerMode.chain_transactions this)).
Proof.
  intros Hiter Hexact.
  destruct (balance_blocks_units addr (LedgerMode.chain this) 0%float 0%Z
              Hiter units_zero Hexact) as [z [Hz Hu]].
  exists z. split; [exact Hz|]. exact Hu.
Qed.

(** ** Conservation *)

Lemma sumZ_plus (f g : string -> Z) (l : list string) :
  sumZ (fun a => (f a + g a)%Z) l = (sumZ f l + sumZ g l)%Z.
Proof.
  induction l as [|a l IH]; simpl.
  - reflexivity.
  - rewrite IH. lia.
Qed.

Lemma sumZ_minus (f g : string -> Z) (l : list string) :
  sumZ (fun a => (f a - g a)%Z) l = (sumZ f l - sumZ g l)%Z.
Proof.
  induction l as [|a l IH]; simpl.
  - reflexivity.
  - rewrite IH. lia.
Qed.

Lemma address_eqb_Some (x a : string) :
  LedgerMode.address_eqb (Some x) (Some a) = String.eqb x a.
Proof. reflexivity. Qed.

Lemma sumZ_absent (x : string) (v : Z) (l : list string) :
  ~ In x l ->
  sumZ (fun a => if LedgerMode.address_eqb (Some x) (Some a) then v else 0%Z) l
  = 0%Z.
Proof.
  induction l as [|a l IH]; intro Hx; cbn [sumZ].
  - reflexivity.
  - rewrite address_eqb_Some.
    destruct (String.eqb_spec x a) as [-> | Hne].
    + contradiction Hx. left. reflexivity.
    + rewrite IH; [reflexivity|]. intro Hin. apply Hx. right. exact Hin.
Qed.

Lemma sumZ_present (x : string) (v : Z) (l : list string) :
  NoDup l -> In x l ->
  sumZ (fun a => if LedgerMode.address_eqb (Some x) (Some a) then v else 0%Z) l
  = v.
Proof.
  induction l as [|a l IH]; intros Hnd Hin; cbn [sumZ].
  - contradiction Hin.
  - inversion Hnd as [|a' l' Hnotin Hnd']; subst.
    rewrite address_eqb_Some.
    destruct (String.eqb_spec x a) as [-> | Hne].
    + rewrite sumZ_absent by exact Hnotin. lia.
    + destruct Hin as [Heq | Hin]; [congruence|].
      rewrite IH by assumption. reflexivity.
Qed.

Lemma sumZ_null (v : Z) (l : list string) :
  sumZ (fun a => if LedgerMode.address_eqb None (Some a) then v else 0%Z) l = 0%Z.
Proof.
  induction l as [|a l IH]; simpl; [reflexivity | exact IH].
Qed.

(** Summed over a duplicate-free list that holds every address of [t],
    a transfer cancels and a reward counts once. *)
Lemma sumZ_tx_delta (reward : float) (t : LedgerMode.Transaction) (l : list string) :
  NoDup l -> incl (LedgerMode.tx_addresses t) l -> tx_ok reward t ->
  sumZ (fun a => tx_delta (Some a) t) l
  = if LedgerMode.is_reward t then units_or_zero reward else 0%Z.
Proof.
  intros Hnd Hincl [Hto Hfrom].
  unfold tx_delta.
  rewrite (sumZ_minus
             (fun a => if LedgerMode.address_eqb (LedgerMode.toAddress t) (Some a)
                       then amount_units t else 0%Z)
             (fun a => if LedgerMode.address_eqb (LedgerMode.fromAddress t) (Some a)
                       then amount_units t else 0%Z) l).
  unfold LedgerMode.tx_addresses, LedgerMode.is_reward in *.
  destruct (LedgerMode.toAddress t) as [to|]; [|contradiction Hto; reflexivity].
  rewrite (sumZ_present to); [|exact Hnd|].
  - destruct (LedgerMode.fromAddress t) as [from|].
    + rewrite sumZ_present; [lia | exact Hnd |].
      apply Hincl. simpl. left. reflexivity.
    + rewrite sumZ_null. unfold amount_units. rewrite (Hfrom eq_refl). lia.
  - apply Hincl. apply in_or_app. right. simpl. left. reflexivity.
Qed.

Lemma sumZ_txs_delta (reward : float) (l : list string) :
  NoDup l ->
  forall txs : list LedgerMode.Transaction,
    incl (flat_map LedgerMode.tx_addresses txs) l ->
    Forall (tx_ok reward) txs ->
    sumZ (fun a => txs_delta (Some a) txs) l
    = (units_or_zero reward * Z.of_nat (rewards txs))%Z.
Proof.
  intros Hnd txs. induction txs as [|t txs IH]; intros Hincl Hok.
  - simpl. unfold rewards. simpl.
    assert (H0 : forall l0, sumZ (fun _ => 0%Z) l0 = 0%Z).
    { intro l0. induction l0 as [|a l0 IHl]; simpl; [reflexivity | exact IHl]. }
    rewrite H0. lia.
  - inversion Hok as [|t' txs' Ht Htxs]; subst.
    simpl in Hincl. apply incl_app_inv in Hincl. destruct Hincl as [Hit Hitxs].
    cbn [txs_delta].
    rewrite (sumZ_plus (fun a => tx_delta (Some a) t)
                       (fun a => txs_delta (Some a) txs) l).
    rewrite (sumZ_tx_delta reward t l Hnd Hit Ht), (IH Hitxs Htxs).
    unfold rewards. simpl.
    destruct (LedgerMode.is_reward t); simpl List.length; lia.
Qed.

Lemma sum_balances_value (this : LedgerMode.Blockchain) :
  Forall iterable (LedgerMode.chain this) ->
  forall addrs : list string,
    forallb (fun a => LedgerMode.balance_exact (Some a) this) addrs = true ->
    LedgerMode.sum_balances addrs this
    = Ret (Some (sumZ (fun a => txs_delta (Some a)
                                  (LedgerMode.chain_transactions this))
                      addrs)).
Proof.
  intros Hiter addrs. induction addrs as [|a addrs IH]; intro Hexact;
    cbn [LedgerMode.sum_balances sumZ forallb] in *.
  - reflexivity.
  - apply andb_true_iff in Hexact. destruct Hexact as [Ha Hrest].
    destruct (getBalanceOfAddress_units this (Some a) Hiter Ha) as [z [Hz Hu]].
    rewrite Hz, (IH Hrest). cbn [bind]. rewrite Hu. reflexivity.
Qed.

Lemma peer_to_peer_ok (reward : float) (t : LedgerMode.Transaction) :
  LedgerMode.peer_to_peer t -> tx_ok reward t.
Proof.
  intros [Hfrom Hto]. split; [exact Hto|].
  intro H. contradiction.
Qed.

Lemma reachable_p2p_conserving (SHA256 : string -> string)
      (this : LedgerMode.Blockchain) :
  LedgerMode.reachable_p2p SHA256 this -> conserving this.
Proof.
  induction 1 as [now | this t _ IH Hp2p | this this' fuel now rewardTo _ IH Hmine].
  - split; [|split; [|split]].
    + reflexivity.
    + constructor; [|constructor]. unfold iterable. simpl. discriminate.
    + constructor.
    + constructor.
  - destruct IH as [Hr [Hiter [Hchain Hpending]]].
    split; [exact Hr|]. split; [exact Hiter|]. split; [exact Hchain|].
    simpl. apply Forall_app. split; [exact Hpending|].
    constructor; [|constructor]. apply peer_to_peer_ok. exact Hp2p.
  - destruct IH as [Hr [Hiter [Hchain Hpending]]].
    apply minePedingTransactions_prevHash in Hmine.
    destruct Hmine as [block [Hc [_ [Htx [Hp Hrw]]]]].
    unfold conserving, LedgerMode.chain_transactions.
    rewrite Hc, Hp, Hrw. split; [exact Hr|]. split; [|split].
    + apply Forall_app. split; [exact Hiter|].
      constructor; [|constructor]. unfold iterable. rewrite Htx. discriminate.
    + rewrite flat_map_app. apply Forall_app. split; [exact Hchain|].
      simpl. unfold LedgerMode.block_transactions. rewrite Htx.
      rewrite app_nil_r. exact Hpending.
    + constructor; [|constructor]. split; simpl; [discriminate | reflexivity].
Qed.

Lemma conserving_total (this : LedgerMode.Blockchain) :
  conserving this ->
  LedgerMode.no_rounding this = true ->
  LedgerMode.grand_total this
  = Ret (Some (units_or_zero (LedgerMode.miningReward this)
               * Z.of_nat (LedgerMode.reward_count this))%Z).
Proof.
  intros [_ [Hiter [Hchain _]]] Hexact.
  unfold LedgerMode.grand_total.
  rewrite (sum_balances_value this Hiter _ Hexact). do 2 f_equal.
  unfold LedgerMode.addresses. apply sumZ_txs_delta.
  - apply NoDup_nodup.
  - intros a Ha. apply nodup_In. exact Ha.
  - exact Hchain.
Qed.



Lemma ledgerC_reachable_p2p : LedgerMode.reachable_p2p Runs.sha Runs.ledgerC.
Proof.
  apply (LedgerMode.p2p_mine Runs.sha
           (LedgerMode.createTransaction (Runs.transfer "A" "B" 200)
              (LedgerMode.createTransaction (Runs.transfer "A" "B" 100)
                 (LedgerMode.new_Blockchain Runs.sha Runs.t0)))
           Runs.ledgerC 10 Runs.l1 "M").
  - apply LedgerMode.p2p_createTransaction.
    + apply LedgerMode.p2p_createTransaction.
      * apply LedgerMode.p2p_new.
      * split; discriminate.
    + split; discriminate.
  - vm_compute. reflexivity.
Defined.

Lemma ledgerD_reachable_p2p : LedgerMode.reachable_p2p Runs.sha Runs.ledgerD.
Proof.
  apply (LedgerMode.p2p_mine Runs.sha Runs.ledgerC Runs.ledgerD 10 Runs.l2 "M").
  - exact ledgerC_reachable_p2p.
  - vm_compute. reflexivity.
Defined.


(** The balances behind the two totals. *)
Example ledgerD_balances :
  LedgerMode.addresses Runs.ledgerD = ["A"; "B"; "M"] /\
  LedgerMode.getBalanceOfAddress (Some "A") Runs.ledgerD = Ret (-300)%float /\
  LedgerMode.getBalanceOfAddress (Some "B") Runs.ledgerD = Ret 300%float /\
  LedgerMode.getBalanceOfAddress (Some "M") Runs.ledgerD = Ret 100%float /\
  LedgerMode.reward_count Runs.ledgerD = 1.
Proof. repeat split; vm_compute; reflexivity. Qed.



(** ** Tampering with the generic chain *)

(** On a chain that validates, overwriting the data of block [i >= 1]
    is reported as a hash mismatch at [i], unless the digest of the new
    fields happens to be the stored hash. *)
Lemma generic_validate_from_tamper (SHA256 : string -> string) (d : json) :
  forall (rest : list Generic.Block) (i k : nat) (previous b : Generic.Block),
    Generic.validate_from SHA256 k previous rest = Valid ->
    nth_error rest i = Some b ->
    Generic.calculateHash SHA256 (Generic.set_data b d) <> Generic.hash b ->
    Generic.validate_from SHA256 k previous
      (Generic.update_at i (fun b => Generic.set_data b d) rest)
    = HashMismatch (k + i).
Proof.
  induction rest as [|c rest IH]; intros i k previous b Hvalid Hnth Hdiff.
  - destruct i; discriminate Hnth.
  - destruct i as [|i]; cbn [Generic.update_at Generic.validate_from].
    + injection Hnth as ->.
      change (Generic.hash (Generic.set_data b d)) with (Generic.hash b).
      destruct (String.eqb_spec (Generic.hash b)
                  (Generic.calculateHash SHA256 (Generic.set_data b d)))
        as [Heq | _].
      * symmetry in Heq. contradiction.
      * cbn [negb]. f_equal. lia.
    + cbn [Generic.validate_from] in Hvalid.
      destruct (negb (String.eqb (Generic.hash c) (Generic.calculateHash SHA256 c)));
        [discriminate Hvalid|].
      destruct (negb (String.eqb (Generic.prevHash c) (Generic.hash previous)));
        [discriminate Hvalid|].
      simpl in Hnth.
      rewrite (IH i (S k) c b Hvalid Hnth Hdiff). f_equal. lia.
Qed.

Lemma generic_tamper_data_detected
      (SHA256 : string -> string) (this : Generic.Blockchain)
      (i : nat) (b : Generic.Block) (d : json) :
  Generic.validate SHA256 this = Valid ->
  1 <= i ->
  nth_error (Generic.chain this) i = Some b ->
  Generic.calculateHash SHA256 (Generic.set_data b d) <> Generic.hash b ->
  Generic.validate SHA256 (Generic.tamper_data i d this) = HashMismatch i.
Proof.
  unfold Generic.validate, Generic.tamper_data. cbn [Generic.chain].
  intros Hvalid Hi Hnth Hdiff.
  destruct (Generic.chain this) as [|g rest]; [destruct i; discriminate Hnth|].
  destruct i as [|i]; [lia|]. cbn [Generic.update_at]. simpl in Hnth.
  rewrite (generic_validate_from_tamper SHA256 d rest i 1 g b Hvalid Hnth Hdiff).
  reflexivity.
Qed.

Example generic_tamper_data_run :
  Generic.validate Runs.sha
    (Generic.tamper_data 2 (Runs.amount_object 800) Runs.chainA)
  = HashMismatch 2.
Proof. vm_compute. reflexivity. Qed.

(** ** Scenario B *)

(** C6, on the code: in the run where the constructor hash of block 2
    already starts with two zeros, [mineBlock] leaves block 2 as it is.
    After block 1 was overwritten and rehashed, block 1 passes its own
    check and the failure reported is a hash mismatch at index 2, not a
    link mismatch. *)
Theorem scenarioB_premined_block :
  Generic.scenarioB Runs.sha 10 Runs.t0 Runs.g1 Runs.g2' Runs.g3'
  = Ret Runs.chainB' /\
  Generic.hash Runs.blockG1_forged
  = Generic.calculateHash Runs.sha Runs.blockG1_forged /\
  Generic.prevHash Runs.blockG2' <> Generic.hash Runs.blockG1_forged /\
  Generic.hash Runs.blockG2' <> Generic.calculateHash Runs.sha Runs.blockG2' /\
  Generic.validate Runs.sha Runs.chainB' = HashMismatch 2 /\
  Generic.isChainValid Runs.sha Runs.chainB' = false.
Proof.
  assert (H2 : Generic.calculateHash Runs.sha Runs.blockG2'
               = "65b0177acbed074fef61327da3ceae8ee575b35b59d6c2ffdda43e5882792870")
    by (vm_compute; reflexivity).
  assert (Hv : Generic.validate Runs.sha Runs.chainB' = HashMismatch 2)
    by (vm_compute; reflexivity).
  split; [vm_compute; reflexivity|].
  split; [vm_compute; reflexivity|].
  split; [simpl; discriminate|].
  split; [rewrite H2; simpl; discriminate|].
  split; [exact Hv|].
  unfold Generic.isChainValid. rewrite Hv. reflexivity.
Qed.

(** In the run where every block is mined by the loop, the report is
    the link mismatch at index 2. *)
Lemma scenarioB_usual_run :
  Generic.scenarioB Runs.sha 10 Runs.t0 Runs.g1 Runs.g2 Runs.g3
  = Ret Runs.chainB /\
  Generic.validate Runs.sha Runs.chainB = PrevHashMismatch 2.
Proof. split; vm_compute; reflexivity. Qed.

(** Whatever the run, block 1 passes both checks after it was rehashed,
    and the verdict is the one the loop reaches at index 2. *)
Lemma scenarioB_verdict (SHA256 : string -> string) (fuel : nat)
      (t0 t1 t2 t3 : string) (poppiCoin : Generic.Blockchain) :
  Generic.scenarioB SHA256 fuel t0 t1 t2 t3 = Ret poppiCoin ->
  exists g b1 b2 b3,
    Generic.chain poppiCoin = [g; b1; b2; b3] /\
    Generic.hash b1 = Generic.calculateHash SHA256 b1 /\
    Generic.prevHash b1 = Generic.hash g /\
    Generic.validate SHA256 poppiCoin
    = if negb (String.eqb (Generic.hash b2) (Generic.calculateHash SHA256 b2))
      then HashMismatch 2
      else if negb (String.eqb (Generic.prevHash b2) (Generic.hash b1))
           then PrevHashMismatch 2
           else Generic.validate_from SHA256 3 b2 [b3].
Proof.
  unfold Generic.scenarioB, Generic.scenarioA. intro H.
  set (g := Generic.createGenesisBlock SHA256 t0) in *.
  unfold Generic.addBlock at 1 in H.
  change (Generic.getLatestBlock (Generic.new_Blockchain SHA256 t0))
    with (Some g) in H.
  cbn [Generic.difficulty Generic.new_Blockchain Generic.chain] in H.
  destruct (Generic.mineBlock SHA256 fuel 2
              (Generic.set_prevHash
                 (Generic.new_Block3 SHA256 1 t1 (JObj [("amount", JNum 4)]))
                 (Generic.hash g))) as [b1| |] eqn:H1;
    cbn [bind] in H; try discriminate H.
  fold g in H.
  unfold Generic.addBlock at 1 in H.
  change (Generic.getLatestBlock
            (Generic.mkBlockchain ([g] ++ [b1]) 2)) with (Some b1) in H.
  cbn [Generic.difficulty Generic.chain] in H.
  destruct (Generic.mineBlock SHA256 fuel 2
              (Generic.set_prevHash
                 (Generic.new_Block3 SHA256 2 t2 (JObj [("amount", JNum 8)]))
                 (Generic.hash b1))) as [b2| |] eqn:H2;
    cbn [bind] in H; try discriminate H.
  unfold Generic.addBlock at 1 in H.
  change (Generic.getLatestBlock
            (Generic.mkBlockchain (([g] ++ [b1]) ++ [b2]) 2)) with (Some b2) in H.
  cbn [Generic.difficulty Generic.chain] in H.
  destruct (Generic.mineBlock SHA256 fuel 2
              (Generic.set_prevHash
                 (Generic.new_Block3 SHA256 3 t3 (JObj [("amount", JNum 10)]))
                 (Generic.hash b2))) as [b3| |] eqn:H3;
    cbn [bind] in H; try discriminate H.
  injection H as <-.
  apply generic_mineBlock_fields in H1. destruct H1 as [_ [_ [Hp1 _]]].
  cbn [Generic.prevHash Generic.set_prevHash] in Hp1.
  exists g,
    (Generic.set_hash (Generic.set_data b1 (JObj [("amount", JNum 100)]))
       (Generic.calculateHash SHA256
          (Generic.set_data b1 (JObj [("amount", JNum 100)])))),
    b2, b3.
  split; [reflexivity|]. split; [reflexivity|]. split; [exact Hp1|].
  unfold Generic.validate, Generic.tamper_data_rehash.
  cbn [Generic.chain Generic.update_at app Generic.validate_from].
  match goal with
  | |- context [String.eqb (Generic.hash ?b) (Generic.calculateHash SHA256 ?b)] =>
      change (Generic.calculateHash SHA256 b) with (Generic.hash b)
  end.
  rewrite String.eqb_refl. cbn [negb].
  change (Generic.prevHash
            (Generic.set_hash (Generic.set_data b1 (JObj [("amount", JNum 100)]))
               (Generic.calculateHash SHA256
                  (Generic.set_data b1 (JObj [("amount", JNum 100)])))))
    with (Generic.prevHash b1).
  rewrite Hp1, String.eqb_refl. cbn [negb]. reflexivity.
Qed.

(** ** Appending to the generic chain *)

Lemma last_cons {A : Type} (rest : list A) :
  forall c d : A, last (c :: rest) d = last rest c.
Proof.
  induction rest as [|x rest IH]; intros c d.
  - reflexivity.
  - change (last (c :: x :: rest) d) with (last (x :: rest) d).
    rewrite (IH x d), (IH x c). reflexivity.
Qed.

Lemma generic_validate_from_snoc (SHA256 : string -> string) (b : Generic.Block) :
  forall (rest : list Generic.Block) (k : nat) (previous : Generic.Block),
    Generic.validate_from SHA256 k previous rest = Valid ->
    Generic.prevHash b = Generic.hash (last rest previous) ->
    Generic.validate_from SHA256 k previous (rest ++ [b])%list
    = if String.eqb (Generic.hash b) (Generic.calculateHash SHA256 b)
      then Valid else HashMismatch (k + List.length rest).
Proof.
  induction rest as [|c rest IH]; intros k previous Hvalid Hlink.
  - cbn [app Generic.validate_from List.length]. simpl in Hlink.
    rewrite Hlink, String.eqb_refl.
    destruct (String.eqb (Generic.hash b) (Generic.calculateHash SHA256 b));
      cbn [negb]; [reflexivity | f_equal; lia].
  - cbn [app Generic.validate_from List.length] in *.
    destruct (negb (String.eqb (Generic.hash c) (Generic.calculateHash SHA256 c)));
      [discriminate Hvalid|].
    destruct (negb (String.eqb (Generic.prevHash c) (Generic.hash previous)));
      [discriminate Hvalid|].
    rewrite (IH (S k) c Hvalid).
    + destruct (String.eqb (Generic.hash b) (Generic.calculateHash SHA256 b));
        [reflexivity | f_equal; lia].
    + rewrite Hlink. apply f_equal. apply last_cons.
Qed.

Lemma generic_latest_is_last (g : Generic.Block) (rest : list Generic.Block)
      (d : nat) :
  Generic.getLatestBlock (Generic.mkBlockchain (g :: rest) d)
  = Some (last rest g).
Proof.
  unfold Generic.getLatestBlock. cbn [Generic.chain].
  revert g. induction rest as [|c rest IH]; intro g.
  - reflexivity.
  - specialize (IH c). cbn [List.length] in *.
    replace (S (S (List.length rest)) - 1) with (S (S (List.length rest) - 1))
      by lia.
    cbn [nth_error]. rewrite IH. rewrite last_cons. reflexivity.
Qed.

(** [addBlock] keeps a valid chain valid exactly when the block it
    appends carries the hash of its own fields: always when the loop of
    [mineBlock] ran at least once, and otherwise only if the constructor
    hash happens to be that digest too. *)
Lemma generic_addBlock_valid (SHA256 : string -> string) (fuel : nat)
      (newBlock : Generic.Block) (this this' : Generic.Blockchain) :
  Generic.validate SHA256 this = Valid ->
  Generic.addBlock SHA256 fuel newBlock this = Ret this' ->
  exists latest mined,
    Generic.getLatestBlock this = Some latest /\
    Generic.chain this' = (Generic.chain this ++ [mined])%list /\
    Generic.prevHash mined = Generic.hash latest /\
    (mined = Generic.set_prevHash newBlock (Generic.hash latest) \/
     generic_consistent SHA256 mined) /\
    Generic.validate SHA256 this'
    = if String.eqb (Generic.hash mined) (Generic.calculateHash SHA256 mined)
      then Valid else HashMismatch (List.length (Generic.chain this)).
Proof.
  intros Hvalid Hadd. unfold Generic.addBlock in Hadd.
  destruct this as [chain d]. destruct chain as [|g rest].
  - discriminate Hadd.
  - rewrite generic_latest_is_last in *. cbn [Generic.difficulty Generic.chain] in *.
    destruct (Generic.mineBlock SHA256 fuel d
                (Generic.set_prevHash newBlock (Generic.hash (last rest g))))
      as [mined| |] eqn:Hmine; cbn [bind] in Hadd; try discriminate Hadd.
    injection Hadd as <-.
    pose proof (generic_mineBlock_fields SHA256 fuel d _ _ Hmine)
      as [_ [_ [Hprev _]]].
    cbn [Generic.prevHash Generic.set_prevHash] in Hprev.
    exists (last rest g), mined.
    split; [reflexivity|]. split; [reflexivity|]. split; [exact Hprev|].
    split; [exact (generic_mineBlock_consistent SHA256 fuel d _ _ Hmine)|].
    unfold Generic.validate in *. cbn [Generic.chain app List.length] in *.
    rewrite (generic_validate_from_snoc SHA256 mined rest 1 g Hvalid Hprev).
    reflexivity.
Qed.

(** ** The basic chain, for comparison

    Without proof of work [addBlock] rehashes the block after linking
    it, so every chain it builds validates, and the tampering of the
    script is reported as the link mismatch at index 2 whatever the
    timestamps. *)

Lemma basic_validate_from_snoc (SHA256 : string -> string) (b : Basic.Block) :
  forall (rest : list Basic.Block) (k : nat) (previous : Basic.Block),
    Basic.validate_from SHA256 k previous rest = Valid ->
    Basic.hash b = Basic.calculateHash SHA256 b ->
    Basic.prevHash b = Basic.hash (last rest previous) ->
    Basic.validate_from SHA256 k previous (rest ++ [b])%list = Valid.
Proof.
  induction rest as [|c rest IH]; intros k previous Hvalid Hhash Hlink.
  - cbn [app Basic.validate_from]. simpl in Hlink.
    rewrite Hlink, <- Hhash, !String.eqb_refl. reflexivity.
  - cbn [app Basic.validate_from] in *.
    destruct (negb (String.eqb (Basic.hash c) (Basic.calculateHash SHA256 c)));
      [discriminate Hvalid|].
    destruct (negb (String.eqb (Basic.prevHash c) (Basic.hash previous)));
      [discriminate Hvalid|].
    apply (IH (S k) c Hvalid Hhash).
    rewrite Hlink. apply f_equal. apply last_cons.
Qed.

Lemma basic_latest_is_last (g : Basic.Block) (rest : list Basic.Block) :
  Basic.getLatestBlock (Basic.mkBlockchain (g :: rest)) = Some (last rest g).
Proof.
  unfold Basic.getLatestBlock. cbn [Basic.chain].
  revert g. induction rest as [|c rest IH]; intro g.
  - reflexivity.
  - specialize (IH c). cbn [List.length] in *.
    replace (S (S (List.length rest)) - 1) with (S (S (List.length rest) - 1))
      by lia.
    cbn [nth_error]. rewrite IH. rewrite last_cons. reflexivity.
Qed.

Lemma basic_addBlock_valid (SHA256 : string -> string)
      (newBlock : Basic.Block) (this this' : Basic.Blockchain) :
  Basic.validate SHA256 this = Valid ->
  Basic.addBlock SHA256 newBlock this = Ret this' ->
  Basic.validate SHA256 this' = Valid.
Proof.
  intros Hvalid Hadd. unfold Basic.addBlock in Hadd.
  destruct this as [chain]. destruct chain as [|g rest].
  - discriminate Hadd.
  - rewrite basic_latest_is_last in Hadd. injection Hadd as <-.
    unfold Basic.validate in *. cbn [Basic.chain app] in *.
    apply basic_validate_from_snoc.
    + exact Hvalid.
    + reflexivity.
    + reflexivity.
Qed.

Lemma basic_script_chain_valid (SHA256 : string -> string)
      (t0 t1 t2 t3 : string) :
  exists poppiCoin,
    Basic.script_chain SHA256 t0 t1 t2 t3 = Ret poppiCoin /\
    List.length (Basic.chain poppiCoin) = 4 /\
    Basic.isChainValid SHA256 poppiCoin = true.
Proof.
  unfold Basic.script_chain.
  assert (H0 : Basic.validate SHA256 (Basic.new_Blockchain SHA256 t0) = Valid)
    by reflexivity.
  destruct (Basic.addBlock SHA256
              (Basic.new_Block3 SHA256 1 t1 (JObj [("amount", JNum 4)]))
              (Basic.new_Blockchain SHA256 t0)) as [c1| |] eqn:A1;
    try discriminate A1.
  pose proof (basic_addBlock_valid SHA256 _ _ _ H0 A1) as H1.
  assert (L1 : List.length (Basic.chain c1) = 2)
    by (injection A1 as <-; reflexivity).
  cbn [bind].
  destruct (Basic.chain c1) as [|x1 [|y1 [|z1 r1]]] eqn:C1; try discriminate L1.
  destruct (Basic.addBlock SHA256
              (Basic.new_Block3 SHA256 2 t2 (JObj [("amount", JNum 8)])) c1)
    as [c2| |] eqn:A2;
    try (unfold Basic.addBlock, Basic.getLatestBlock in A2; rewrite C1 in A2;
         discriminate A2).
  pose proof (basic_addBlock_valid SHA256 _ _ _ H1 A2) as H2.
  assert (L2 : List.length (Basic.chain c2) = 3).
  { unfold Basic.addBlock, Basic.getLatestBlock in A2. rewrite C1 in A2.
    injection A2 as <-. reflexivity. }
  cbn [bind].
  destruct (Basic.chain c2) as [|x2 [|y2 [|z2 [|w2 r2]]]] eqn:C2;
    try discriminate L2.
  destruct (Basic.addBlock SHA256
              (Basic.new_Block3 SHA256 3 t3 (JObj [("amount", JNum 10)])) c2)
    as [c3| |] eqn:A3;
    try (unfold Basic.addBlock, Basic.getLatestBlock in A3; rewrite C2 in A3;
         discriminate A3).
  pose proof (basic_addBlock_valid SHA256 _ _ _ H2 A3) as H3.
  exists c3. split; [reflexivity|]. split.
  - unfold Basic.addBlock, Basic.getLatestBlock in A3. rewrite C2 in A3.
    injection A3 as <-. reflexivity.
  - unfold Basic.isChainValid. rewrite H3. reflexivity.
Qed.

Lemma basic_script_tampered_verdict (SHA256 : string -> string)
      (t0 t1 t2 t3 : string) :
  exists poppiCoin g b1 b2 b3,
    Basic.script_tampered SHA256 t0 t1 t2 t3 = Ret poppiCoin /\
    Basic.chain poppiCoin = [g; b1; b2; b3] /\
    Basic.hash b1 = Basic.calculateHash SHA256 b1 /\
    Basic.hash b2 = Basic.calculateHash SHA256 b2 /\
    (Basic.prevHash b2 <> Basic.hash b1 ->
     Basic.validate SHA256 poppiCoin = PrevHashMismatch 2).
Proof.
  pose (rehash := fun b => Basic.set_hash b (Basic.calculateHash SHA256 b)).
  pose (g := Basic.createGenesisBlock SHA256 t0).
  pose (b1 := rehash (Basic.set_prevHash
                        (Basic.new_Block3 SHA256 1 t1 (JObj [("amount", JNum 4)]))
                        (Basic.hash g))).
  pose (b2 := rehash (Basic.set_prevHash
                        (Basic.new_Block3 SHA256 2 t2 (JObj [("amount", JNum 8)]))
                        (Basic.hash b1))).
  pose (b3 := rehash (Basic.set_prevHash
                        (Basic.new_Block3 SHA256 3 t3 (JObj [("amount", JNum 10)]))
                        (Basic.hash b2))).
  pose (b1' := rehash (Basic.set_data b1 (JObj [("amount", JNum 100)]))).
  exists (Basic.mkBlockchain [g; b1'; b2; b3]), g, b1', b2, b3.
  assert (E1 : Basic.hash b1' = Basic.calculateHash SHA256 b1') by reflexivity.
  assert (P1 : Basic.prevHash b1' = Basic.hash g) by reflexivity.
  assert (E2 : Basic.hash b2 = Basic.calculateHash SHA256 b2) by reflexivity.
  split; [reflexivity|]. split; [reflexivity|].
  split; [exact E1|]. split; [exact E2|].
  intro Hdiff. unfold Basic.validate.
  cbn [Basic.chain Basic.validate_from].
  rewrite <- E1, P1, <- E2, !String.eqb_refl. cbn [negb].
  destruct (String.eqb_spec (Basic.prevHash b2) (Basic.hash b1')) as [Heq | _].
  - contradiction.
  - reflexivity.
Qed.

(** * Further properties *)

(** ** The loop of [mineBlock] *)

Lemma nth_error_snoc_last {A : Type} (l : list A) (x : A) :
  nth_error (l ++ [x])%list (List.length (l ++ [x])%list - 1) = Some x.
Proof.
  rewrite length_app. cbn [List.length].
  replace (List.length l + 1 - 1) with (List.length l) by lia.
  rewrite nth_error_app2 by lia. rewrite Nat.sub_diag. reflexivity.
Qed.

Lemma generic_mineBlock_step (SHA256 : string -> string) (fuel d : nat)
      (this : Generic.Block) :
  (N.of_nat (d + 1) <= 4294967295)%N ->
  Generic.mineBlock SHA256 (S fuel) d this
  = if generic_meets d this then Ret this
    else Generic.mineBlock SHA256 fuel d (generic_attempt SHA256 this).
Proof.
  intro Hd. cbn [Generic.mineBlock]. unfold Array_join.
  apply N.leb_le in Hd. rewrite Hd. cbn [bind].
  replace (d + 1 - 1) with d by lia.
  unfold generic_meets. destruct (String.eqb _ _); reflexivity.
Qed.

Lemma nearest_double_succ (m : N) :
  (m <= 9007199254740992)%N ->
  nearest_double (m + 1) = N.min (m + 1) 9007199254740992.
Proof.
  intro Hm. unfold nearest_double.
  destruct (m + 1 <? 9007199254740992)%N eqn:E.
  - apply N.ltb_lt in E. lia.
  - apply N.ltb_ge in E.
    assert (H : (m + 1 = 9007199254740992 \/ m + 1 = 9007199254740993)%N) by lia.
    destruct H as [-> | ->]; vm_compute; reflexivity.
Qed.

Lemma generic_attempt_iter_fields (SHA256 : string -> string) (k : nat)
      (this : Generic.Block) :
  Generic.index (Nat.iter k (generic_attempt SHA256) this) = Generic.index this /\
  Generic.timestamp (Nat.iter k (generic_attempt SHA256) this)
  = Generic.timestamp this /\
  Generic.data (Nat.iter k (generic_attempt SHA256) this) = Generic.data this /\
  Generic.prevHash (Nat.iter k (generic_attempt SHA256) this)
  = Generic.prevHash this /\
  (forall n, Generic.nonce this = JNumber n ->
             (n <= 9007199254740992)%N ->
             Generic.nonce (Nat.iter k (generic_attempt SHA256) this)
             = JNumber (N.min (n + N.of_nat k) 9007199254740992)).
Proof.
  induction k as [|k [Hi [Ht [Hd [Hp Hn]]]]].
  - cbn [Nat.iter nat_rect]. do 4 (split; [reflexivity|]).
    intros n Hn Hle. rewrite Hn. f_equal. lia.
  - rewrite Nat.iter_succ. do 4 (split; [assumption|]).
    intros n Hnonce Hle. cbn [generic_attempt Generic.nonce Generic.set_hash
                              Generic.set_nonce].
    rewrite (Hn n Hnonce Hle). cbn [js_incr]. f_equal.
    rewrite nearest_double_succ by lia. lia.
Qed.

(** X1. When the hash a block gets after [k] rounds of the loop is the
    first one with [difficulty] leading zeros, [mineBlock(difficulty)]
    returns, and the block then is the one [k] rounds of [nonce++] and
    rehashing produce. *)
Theorem generic_mineBlock_first_attempt
        (SHA256 : string -> string) (d k : nat) :
  (N.of_nat (d + 1) <= 4294967295)%N ->
  forall this : Generic.Block,
    generic_meets d (Nat.iter k (generic_attempt SHA256) this) = true ->
    (forall j, j < k ->
               generic_meets d (Nat.iter j (generic_attempt SHA256) this) = false) ->
    forall fuel, k < fuel ->
      Generic.mineBlock SHA256 fuel d this
      = Ret (Nat.iter k (generic_attempt SHA256) this).
Proof.
  intro Hd. induction k as [|k IH]; intros this Hk Hbefore fuel Hfuel.
  - destruct fuel as [|fuel]; [lia|].
    rewrite (generic_mineBlock_step SHA256 fuel d this Hd).
    cbn [Nat.iter nat_rect] in *. rewrite Hk. reflexivity.
  - destruct fuel as [|fuel]; [lia|].
    rewrite (generic_mineBlock_step SHA256 fuel d this Hd).
    assert (H0 : generic_meets d this = false) by (apply (Hbefore 0); lia).
    rewrite H0.
    rewrite Nat.iter_succ_r. apply IH.
    + rewrite <- Nat.iter_succ_r. exact Hk.
    + intros j Hj. rewrite <- Nat.iter_succ_r. apply Hbefore. lia.
    + lia.
Qed.

Lemma generic_mineBlock_first_attempt_witness :
  Generic.mineBlock Runs.sha 5 2 Runs.blockG1_linked
  = Ret (Nat.iter 1 (generic_attempt Runs.sha) Runs.blockG1_linked).
Proof.
  apply (generic_mineBlock_first_attempt Runs.sha 2 1).
  - vm_compute. discriminate.
  - vm_compute. reflexivity.
  - intros j Hj. assert (j = 0) as -> by lia. vm_compute. reflexivity.
  - lia.
Defined.

(** X2. When [mineBlock(difficulty)] returns, the block went through some
    number [k] of rounds, none of the hashes before the last one had the
    leading zeros, the last one has them, and index, timestamp, data
    and previous hash are untouched.  A nonce of at most [2^53] grew by
    [k], or up to [2^53], where [nonce++] no longer changes it. *)
Theorem generic_mineBlock_result
        (SHA256 : string -> string) (fuel d : nat) :
  forall this mined : Generic.Block,
    Generic.mineBlock SHA256 fuel d this = Ret mined ->
    exists k,
      k < fuel /\
      mined = Nat.iter k (generic_attempt SHA256) this /\
      generic_meets d mined = true /\
      (forall j, j < k ->
         generic_meets d (Nat.iter j (generic_attempt SHA256) this) = false) /\
      Generic.index mined = Generic.index this /\
      Generic.timestamp mined = Generic.timestamp this /\
      Generic.data mined = Generic.data this /\
      Generic.prevHash mined = Generic.prevHash this /\
      (forall n, Generic.nonce this = JNumber n ->
                 (n <= 9007199254740992)%N ->
                 Generic.nonce mined
                 = JNumber (N.min (n + N.of_nat k) 9007199254740992)).
Proof.
  induction fuel as [|fuel IH]; intros this mined H.
  - discriminate H.
  - assert (Hd : (N.of_nat (d + 1) <= 4294967295)%N).
    { cbn [Generic.mineBlock] in H. unfold Array_join in H.
      destruct (N.of_nat (d + 1) <=? 4294967295)%N eqn:E.
      - apply N.leb_le. exact E.
      - discriminate H. }
    rewrite (generic_mineBlock_step SHA256 fuel d this Hd) in H.
    destruct (generic_meets d this) eqn:Hnow.
    + injection H as <-. exists 0. cbn [Nat.iter nat_rect].
      split; [lia|]. split; [reflexivity|]. split; [exact Hnow|].
      split; [intros j Hj; lia|].
      do 4 (split; [reflexivity|]).
      intros n Hn Hle. rewrite Hn. f_equal. lia.
    + destruct (IH _ _ H) as [k [Hk [Hm [Hmeets [Hbefore _]]]]].
      exists (S k). rewrite Nat.iter_succ_r.
      split; [lia|]. split; [exact Hm|]. split; [exact Hmeets|].
      split.
      * intros j Hj. destruct j as [|j]; [exact Hnow|].
        rewrite Nat.iter_succ_r. apply Hbefore. lia.
      * rewrite Hm, <- Nat.iter_succ_r.
        exact (generic_attempt_iter_fields SHA256 (S k) this).
Qed.

Lemma generic_mineBlock_result_witness :
  exists k,
    k < 10 /\
    Runs.blockG1 = Nat.iter k (generic_attempt Runs.sha) Runs.blockG1_linked /\
    generic_meets 2 Runs.blockG1 = true /\
    (forall j, j < k ->
       generic_meets 2 (Nat.iter j (generic_attempt Runs.sha) Runs.blockG1_linked)
       = false) /\
    Generic.index Runs.blockG1 = Generic.index Runs.blockG1_linked /\
    Generic.timestamp Runs.blockG1 = Generic.timestamp Runs.blockG1_linked /\
    Generic.data Runs.blockG1 = Generic.data Runs.blockG1_linked /\
    Generic.prevHash Runs.blockG1 = Generic.prevHash Runs.blockG1_linked /\
    (forall n, Generic.nonce Runs.blockG1_linked = JNumber n ->
               (n <= 9007199254740992)%N ->
               Generic.nonce Runs.blockG1
               = JNumber (N.min (n + N.of_nat k) 9007199254740992)).
Proof.
  apply (generic_mineBlock_result Runs.sha 10 2 Runs.blockG1_linked Runs.blockG1).
  vm_compute. reflexivity.
Defined.

Lemma substring_copies_length (d : nat) :
  forall h : string, substring 0 d h = copies d "0" -> d <= String.length h.
Proof.
  induction d as [|d IH]; intros h H.
  - lia.
  - destruct h as [|c h]; simpl in H; [discriminate H|].
    injection H as _ H. apply IH in H. simpl. lia.
Qed.

(** X3. No hash of SHA-256 has more than 64 characters: on a block whose
    hash is not longer, [mineBlock] with a difficulty above 64 never
    leaves its loop.  The difficulty is at most [2^28 - 16], so that the
    string of zeros is one every engine builds. *)
Theorem generic_mineBlock_difficulty_above_64 (d : nat) :
  64 < d ->
  (N.of_nat d <= 268435440)%N ->
  forall (fuel : nat) (this : Generic.Block),
    String.length (Generic.hash this) <= 64 ->
    Generic.mineBlock Runs.sha fuel d this = OutOfFuel.
Proof.
  intros Hbig Hsmall.
  assert (Hd : (N.of_nat (d + 1) <= 4294967295)%N) by lia.
  induction fuel as [|fuel IH]; intros this Hlen.
  - reflexivity.
  - rewrite (generic_mineBlock_step Runs.sha fuel d this Hd).
    destruct (generic_meets d this) eqn:Hmeets.
    + unfold generic_meets in Hmeets. apply String.eqb_eq in Hmeets.
      apply substring_copies_length in Hmeets. lia.
    + apply IH. cbn [generic_attempt Generic.hash Generic.set_hash].
      unfold Generic.calculateHash, Runs.sha. rewrite sha256_length. lia.
Qed.

Lemma generic_mineBlock_difficulty_above_64_witness :
  Generic.mineBlock Runs.sha 3 65 Runs.blockG1_linked = OutOfFuel.
Proof.
  apply (generic_mineBlock_difficulty_above_64 65).
  - lia.
  - vm_compute. discriminate.
  - simpl. lia.
Defined.

(** ** What [isChainValid] checks, in [index.js] *)

Lemma generic_validate_from_previous (SHA256 : string -> string)
      (rest : list Generic.Block) (k : nat) (p1 p2 : Generic.Block) :
  Generic.hash p1 = Generic.hash p2 ->
  Generic.validate_from SHA256 k p1 rest
  = Generic.validate_from SHA256 k p2 rest.
Proof.
  intro H. destruct rest as [|b rest]; [reflexivity|].
  cbn [Generic.validate_from]. rewrite H. reflexivity.
Qed.

Lemma generic_validate_from_Valid_iff (SHA256 : string -> string) :
  forall (rest : list Generic.Block) (k : nat) (previous : Generic.Block),
    Generic.validate_from SHA256 k previous rest = Valid <->
    (forall i p b,
        nth_error (previous :: rest) i = Some p ->
        nth_error (previous :: rest) (S i) = Some b ->
        Generic.hash b = Generic.calculateHash SHA256 b /\
        Generic.prevHash b = Generic.hash p).
Proof.
  induction rest as [|c rest IH]; intros k previous.
  - split; [|reflexivity].
    intros _ i p b _ Hb. destruct i; discriminate Hb.
  - cbn [Generic.validate_from]. split.
    + intro H.
      destruct (String.eqb_spec (Generic.hash c) (Generic.calculateHash SHA256 c))
        as [Hc | _]; cbn [negb] in H; [|discriminate H].
      destruct (String.eqb_spec (Generic.prevHash c) (Generic.hash previous))
        as [Hp | _]; cbn [negb] in H; [|discriminate H].
      intros i p b Hi Hsi. destruct i as [|i].
      * injection Hi as <-. injection Hsi as <-. split; assumption.
      * exact (proj1 (IH (S k) c) H i p b Hi Hsi).
    + intro H.
      destruct (H 0 previous c eq_refl eq_refl) as [Hc Hp].
      rewrite Hc, Hp, !String.eqb_refl. cbn [negb].
      apply (IH (S k) c). intros i p b Hi Hsi.
      exact (H (S i) p b Hi Hsi).
Qed.

(** X4. [isChainValid()] of [index.js] answers true exactly when every
    block after the first stores the digest of its own fields and the
    hash of the block before it.  Nothing else is looked at: not the
    number of leading zeros of a hash, and none of the fields of the
    first block but its hash. *)
Theorem generic_isChainValid_iff
        (SHA256 : string -> string) (this : Generic.Blockchain) :
  Generic.isChainValid SHA256 this = true <->
  (forall i p b,
      nth_error (Generic.chain this) i = Some p ->
      nth_error (Generic.chain this) (S i) = Some b ->
      Generic.hash b = Generic.calculateHash SHA256 b /\
      Generic.prevHash b = Generic.hash p).
Proof.
  unfold Generic.isChainValid, Generic.validate.
  destruct (Generic.chain this) as [|g rest].
  - split; [|reflexivity]. intros _ i p b Hi. destruct i; discriminate Hi.
  - rewrite <- (generic_validate_from_Valid_iff SHA256 rest 1 g).
    destruct (Generic.validate_from SHA256 1 g rest); cbn [verdict_ok];
      split; intro H; try reflexivity; discriminate H.
Qed.

Lemma generic_validate_from_report (SHA256 : string -> string) :
  forall (rest : list Generic.Block) (k : nat) (previous : Generic.Block),
    match Generic.validate_from SHA256 k previous rest with
    | Valid => True
    | HashMismatch i =>
        exists j b, i = k + j /\ nth_error rest j = Some b /\
                    Generic.hash b <> Generic.calculateHash SHA256 b /\
                    Generic.validate_from SHA256 k previous (firstn j rest) = Valid
    | PrevHashMismatch i =>
        exists j p b, i = k + j /\ nth_error (previous :: rest) j = Some p /\
                      nth_error rest j = Some b /\
                      Generic.hash b = Generic.calculateHash SHA256 b /\
                      Generic.prevHash b <> Generic.hash p /\
                      Generic.validate_from SHA256 k previous (firstn j rest) = Valid
    end.
Proof.
  induction rest as [|c rest IH]; intros k previous.
  - exact I.
  - cbn [Generic.validate_from].
    destruct (String.eqb_spec (Generic.hash c) (Generic.calculateHash SHA256 c))
      as [Hc | Hc]; cbn [negb].
    + destruct (String.eqb_spec (Generic.prevHash c) (Generic.hash previous))
        as [Hp | Hp]; cbn [negb].
      * specialize (IH (S k) c).
        destruct (Generic.validate_from SHA256 (S k) c rest) as [|i|i].
        -- exact I.
        -- destruct IH as [j [b [Hi [Hb [Hne Hv]]]]].
           exists (S j), b. split; [lia|]. split; [exact Hb|]. split; [exact Hne|].
           cbn [firstn Generic.validate_from].
           rewrite Hc, Hp, !String.eqb_refl. exact Hv.
        -- destruct IH as [j [p [b [Hi [Hpj [Hb [He [Hne Hv]]]]]]]].
           exists (S j), p, b. split; [lia|]. split; [exact Hpj|].
           split; [exact Hb|]. split; [exact He|]. split; [exact Hne|].
           cbn [firstn Generic.validate_from].
           rewrite Hc, Hp, !String.eqb_refl. exact Hv.
      * exists 0, previous, c. split; [lia|]. repeat split; assumption.
    + exists 0, c. split; [lia|]. repeat split; assumption.
Qed.

(** X5. When [isChainValid()] of [index.js] reports a block, the block
    really fails the check named (its stored hash is not the digest of
    its fields, or it passes that check and does not store the hash of
    the block before it), it is not the first block, and the chain cut
    just before it validates. *)
Theorem generic_validate_report
        (SHA256 : string -> string) (this : Generic.Blockchain) (i : nat) :
  (Generic.validate SHA256 this = HashMismatch i ->
   1 <= i /\
   exists b, nth_error (Generic.chain this) i = Some b /\
             Generic.hash b <> Generic.calculateHash SHA256 b /\
             Generic.validate SHA256
               (Generic.mkBlockchain (firstn i (Generic.chain this))
                                     (Generic.difficulty this)) = Valid) /\
  (Generic.validate SHA256 this = PrevHashMismatch i ->
   1 <= i /\
   exists p b, nth_error (Generic.chain this) (i - 1) = Some p /\
               nth_error (Generic.chain this) i = Some b /\
               Generic.hash b = Generic.calculateHash SHA256 b /\
               Generic.prevHash b <> Generic.hash p /\
               Generic.validate SHA256
                 (Generic.mkBlockchain (firstn i (Generic.chain this))
                                       (Generic.difficulty this)) = Valid).
Proof.
  unfold Generic.validate. cbn [Generic.chain].
  destruct (Generic.chain this) as [|g rest].
  - split; intro H; discriminate H.
  - pose proof (generic_validate_from_report SHA256 rest 1 g) as R.
    split; intro H; rewrite H in R.
    + destruct R as [j [b [-> [Hb [Hne Hv]]]]].
      split; [lia|]. exists b. cbn [Nat.add nth_error firstn].
      split; [exact Hb|]. split; [exact Hne | exact Hv].
    + destruct R as [j [p [b [-> [Hp [Hb [He [Hne Hv]]]]]]]].
      split; [lia|]. exists p, b.
      replace (1 + j - 1) with j by lia. cbn [Nat.add nth_error firstn].
      split; [exact Hp|]. split; [exact Hb|]. split; [exact He|].
      split; [exact Hne | exact Hv].
Qed.

(** X6. The first block is never checked: replacing it by any block with
    the same stored hash (other data, timestamp, index, previous hash or
    nonce) leaves the answer of [isChainValid()] as it was. *)
Theorem generic_genesis_not_checked
        (SHA256 : string -> string) (g g' : Generic.Block)
        (rest : list Generic.Block) (d : nat) :
  Generic.hash g = Generic.hash g' ->
  Generic.validate SHA256 (Generic.mkBlockchain (g :: rest) d)
  = Generic.validate SHA256 (Generic.mkBlockchain (g' :: rest) d).
Proof.
  intro H. unfold Generic.validate. cbn [Generic.chain].
  apply generic_validate_from_previous. exact H.
Qed.

Lemma generic_genesis_not_checked_witness :
  Generic.validate Runs.sha
    (Generic.mkBlockchain
       [Runs.genesisG; Runs.blockG1; Runs.blockG2; Runs.blockG3] 2)
  = Generic.validate Runs.sha
      (Generic.mkBlockchain
         [Generic.set_data Runs.genesisG (JStr "Another block");
          Runs.blockG1; Runs.blockG2; Runs.blockG3] 2).
Proof.
  apply (generic_genesis_not_checked Runs.sha). reflexivity.
Defined.

(** ** The chains [addBlock] builds, in [index.js] *)

Lemma generic_linked_snoc (b : Generic.Block) :
  forall (rest : list Generic.Block) (previous : Generic.Block),
    generic_linked previous rest ->
    Generic.prevHash b = Generic.hash (last rest previous) ->
    generic_linked previous (rest ++ [b])%list.
Proof.
  induction rest as [|c rest IH]; intros previous Hl Hb.
  - cbn [app generic_linked]. split; [exact Hb | exact I].
  - cbn [app generic_linked] in *. destruct Hl as [Hc Hl].
    split; [exact Hc|]. apply IH; [exact Hl|].
    rewrite Hb. apply f_equal. apply last_cons.
Qed.

Lemma generic_linked_no_link_mismatch (SHA256 : string -> string) :
  forall (rest : list Generic.Block) (k i : nat) (previous : Generic.Block),
    generic_linked previous rest ->
    Generic.validate_from SHA256 k previous rest <> PrevHashMismatch i.
Proof.
  induction rest as [|c rest IH]; intros k i previous Hl.
  - discriminate.
  - cbn [Generic.validate_from generic_linked] in *. destruct Hl as [Hc Hl].
    destruct (negb (String.eqb (Generic.hash c) (Generic.calculateHash SHA256 c)));
      [discriminate|].
    rewrite Hc, String.eqb_refl. cbn [negb]. apply IH. exact Hl.
Qed.

(** *** Block objects and the chain that holds them *)

Lemma store_length {B : Type} (v : B) :
  forall (heap : list B) (r : Heap.ref),
    List.length (Heap.store r v heap) = List.length heap.
Proof.
  induction heap as [|x heap IH]; intros [|r]; cbn [Heap.store List.length];
    try reflexivity.
  rewrite IH. reflexivity.
Qed.

Lemma deref_store_same {B : Type} (v : B) :
  forall (heap : list B) (r : Heap.ref),
    r < List.length heap -> Heap.deref (Heap.store r v heap) r = Some v.
Proof.
  unfold Heap.deref.
  induction heap as [|x heap IH]; intros [|r] Hr; cbn [List.length] in Hr;
    try lia; cbn [Heap.store nth_error].
  - reflexivity.
  - apply IH. lia.
Qed.

Lemma deref_store_other {B : Type} (v : B) :
  forall (heap : list B) (r r' : Heap.ref),
    r' <> r -> Heap.deref (Heap.store r v heap) r' = Heap.deref heap r'.
Proof.
  unfold Heap.deref.
  induction heap as [|x heap IH]; intros [|r] [|r'] Hne;
    cbn [Heap.store nth_error]; try reflexivity; try lia.
  apply IH. lia.
Qed.

Lemma deref_valid {B : Type} (heap : list B) (r : Heap.ref) :
  r < List.length heap -> exists b, Heap.deref heap r = Some b.
Proof.
  intro Hr. unfold Heap.deref.
  destruct (nth_error heap r) as [b|] eqn:E; [exists b; reflexivity|].
  apply nth_error_None in E. lia.
Qed.

Lemma deref_Some_valid {B : Type} (heap : list B) (r : Heap.ref) (b : B) :
  Heap.deref heap r = Some b -> r < List.length heap.
Proof.
  unfold Heap.deref. intro H. apply nth_error_Some. rewrite H. discriminate.
Qed.

Lemma objects_app {B : Type} (heap : list B) (l1 l2 : list Heap.ref) :
  Heap.objects heap (l1 ++ l2)
  = (Heap.objects heap l1 ++ Heap.objects heap l2)%list.
Proof.
  induction l1 as [|r l1 IH]; cbn [app Heap.objects].
  - reflexivity.
  - destruct (Heap.deref heap r); rewrite IH; reflexivity.
Qed.

(** Writing to an object leaves alone the arrays that do not hold it. *)
Lemma objects_store_fresh {B : Type} (v : B) (heap : list B) (r : Heap.ref) :
  forall refs : list Heap.ref,
    ~ In r refs ->
    Heap.objects (Heap.store r v heap) refs = Heap.objects heap refs.
Proof.
  induction refs as [|r' refs IH]; intro Hno; cbn [Heap.objects].
  - reflexivity.
  - rewrite deref_store_other
      by (intro Heq; apply Hno; left; exact Heq).
    rewrite IH by (intro Hin; apply Hno; right; exact Hin).
    reflexivity.
Qed.

Lemma objects_alloc {B : Type} (v : B) (heap : list B) :
  forall refs : list Heap.ref,
    Heap.valid heap refs ->
    Heap.objects (snd (Heap.alloc v heap)) refs = Heap.objects heap refs.
Proof.
  unfold Heap.valid, Heap.alloc. cbn [snd].
  induction refs as [|r refs IH]; intro Hv; cbn [Heap.objects].
  - reflexivity.
  - inversion Hv as [|r' refs' Hr Hrefs]; subst.
    rewrite (IH Hrefs). unfold Heap.deref.
    rewrite nth_error_app1 by exact Hr. reflexivity.
Qed.

Lemma objects_nth {B : Type} (heap : list B) :
  forall (refs : list Heap.ref) (i : nat) (r : Heap.ref),
    Heap.valid heap refs ->
    nth_error refs i = Some r ->
    nth_error (Heap.objects heap refs) i = Heap.deref heap r.
Proof.
  unfold Heap.valid.
  induction refs as [|r' refs IH]; intros i r Hv Hnth.
  - destruct i; discriminate Hnth.
  - inversion Hv as [|r0 refs0 Hr Hrefs]; subst. cbn [Heap.objects].
    destruct (deref_valid heap r' Hr) as [b Hb]. rewrite Hb.
    destruct i as [|i]; cbn [nth_error] in *.
    + injection Hnth as <-. symmetry. exact Hb.
    + apply IH; assumption.
Qed.

Lemma objects_length {B : Type} (heap : list B) :
  forall refs : list Heap.ref,
    Heap.valid heap refs ->
    List.length (Heap.objects heap refs) = List.length refs.
Proof.
  unfold Heap.valid.
  induction refs as [|r refs IH]; intro Hv; cbn [Heap.objects List.length].
  - reflexivity.
  - inversion Hv as [|r0 refs0 Hr Hrefs]; subst.
    destruct (deref_valid heap r Hr) as [b Hb]. rewrite Hb.
    cbn [List.length]. rewrite (IH Hrefs). reflexivity.
Qed.

Lemma valid_store {B : Type} (v : B) (heap : list B) (r : Heap.ref)
      (refs : list Heap.ref) :
  Heap.valid heap refs -> Heap.valid (Heap.store r v heap) refs.
Proof.
  unfold Heap.valid. intro H. rewrite store_length. exact H.
Qed.

Lemma valid_alloc {B : Type} (v : B) (heap : list B) (refs : list Heap.ref) :
  Heap.valid heap refs -> Heap.valid (snd (Heap.alloc v heap)) refs.
Proof.
  unfold Heap.valid, Heap.alloc. cbn [snd]. intro H.
  apply Forall_impl with (P := fun r => r < List.length heap); [|exact H].
  intros r Hr. rewrite length_app. simpl. lia.
Qed.

(** The last address of the chain points to the last block. *)
Lemma objects_latest {B : Type} (heap : list B) (refs : list Heap.ref)
      (r : Heap.ref) :
  Heap.valid heap refs ->
  nth_error refs (List.length refs - 1) = Some r ->
  nth_error (Heap.objects heap refs)
            (List.length (Heap.objects heap refs) - 1)
  = Heap.deref heap r.
Proof.
  intros Hv Hnth. rewrite (objects_length heap refs Hv).
  apply objects_nth; assumption.
Qed.

Lemma nth_error_last_None {A : Type} (l : list A) :
  nth_error l (List.length l - 1) = None -> l = [].
Proof.
  destruct l as [|x l]; [reflexivity|]. intro H.
  apply nth_error_None in H. cbn [List.length] in H. lia.
Qed.

(** On an object that is not in the chain, [addBlock] does to the chain
    what [Generic.addBlock] says. *)
Lemma generic_addBlock_fresh (SHA256 : string -> string) (fuel : nat)
      (newBlock : Heap.ref) (b : Generic.Block) (this : GenericObjects.State) :
  Heap.valid (GenericObjects.heap this) (GenericObjects.chain this) ->
  ~ In newBlock (GenericObjects.chain this) ->
  Heap.deref (GenericObjects.heap this) newBlock = Some b ->
  outcome_map GenericObjects.blockchain
              (GenericObjects.addBlock SHA256 fuel newBlock this)
  = Generic.addBlock SHA256 fuel b (GenericObjects.blockchain this).
Proof.
  intros Hv Hfresh Hb.
  unfold GenericObjects.addBlock, Generic.addBlock, GenericObjects.getLatestBlock,
    Generic.getLatestBlock, GenericObjects.blockchain.
  cbn [Generic.chain Generic.difficulty].
  destruct (nth_error (GenericObjects.chain this)
              (List.length (GenericObjects.chain this) - 1)) as [l|] eqn:Hl.
  - rewrite (objects_latest _ _ l Hv Hl).
    assert (Hlv : l < List.length (GenericObjects.heap this)).
    { unfold Heap.valid in Hv. rewrite Forall_forall in Hv. apply Hv.
      apply nth_error_In with (n := List.length (GenericObjects.chain this) - 1).
      exact Hl. }
    destruct (deref_valid _ l Hlv) as [latest Hlatest].
    rewrite Hlatest, Hb.
    destruct (Generic.mineBlock SHA256 fuel (GenericObjects.difficulty this)
                (Generic.set_prevHash b (Generic.hash latest)))
      as [mined| |]; cbn [bind outcome_map]; [|reflexivity|reflexivity].
    cbn [GenericObjects.heap GenericObjects.chain GenericObjects.difficulty].
    rewrite objects_app, (objects_store_fresh _ _ _ _ Hfresh).
    cbn [Heap.objects].
    rewrite (deref_store_same _ _ _ (deref_Some_valid _ _ _ Hb)).
    reflexivity.
  - apply nth_error_last_None in Hl. rewrite Hl. reflexivity.
Qed.

Lemma generic_addBlock_state (SHA256 : string -> string) (fuel : nat)
      (newBlock : Heap.ref) (this this' : GenericObjects.State) :
  GenericObjects.addBlock SHA256 fuel newBlock this = Ret this' ->
  exists l latest b mined,
    GenericObjects.getLatestBlock this = Some l /\
    Heap.deref (GenericObjects.heap this) l = Some latest /\
    Heap.deref (GenericObjects.heap this) newBlock = Some b /\
    Generic.mineBlock SHA256 fuel (GenericObjects.difficulty this)
      (Generic.set_prevHash b (Generic.hash latest)) = Ret mined /\
    this' = GenericObjects.mkState
              (Heap.store newBlock mined (GenericObjects.heap this))
              (GenericObjects.chain this ++ [newBlock])%list
              (GenericObjects.difficulty this).
Proof.
  unfold GenericObjects.addBlock. intro H.
  destruct (GenericObjects.getLatestBlock this) as [l|] eqn:Hl; [|discriminate H].
  destruct (Heap.deref (GenericObjects.heap this) l) as [latest|] eqn:Hlatest;
    [|discriminate H].
  destruct (Heap.deref (GenericObjects.heap this) newBlock) as [b|] eqn:Hb;
    [|discriminate H].
  destruct (Generic.mineBlock SHA256 fuel (GenericObjects.difficulty this)
              (Generic.set_prevHash b (Generic.hash latest)))
    as [mined| |] eqn:Hmine; cbn [bind] in H; try discriminate H.
  injection H as <-. exists l, latest, b, mined.
  split; [reflexivity|]. split; [exact Hlatest|].
  split; [first [exact Hb | reflexivity]|].
  split; [first [exact Hmine | reflexivity] | reflexivity].
Qed.

Lemma generic_shape_addBlock (SHA256 : string -> string) (fuel : nat)
      (newBlock : Generic.Block) (this this' : Generic.Blockchain) :
  generic_shape SHA256 this ->
  Generic.addBlock SHA256 fuel newBlock this = Ret this' ->
  generic_shape SHA256 this'.
Proof.
  intros [Hd [now [rest [Hchain [Hlinked Hmined]]]]] Hadd.
  destruct this as [chain d]. cbn [Generic.chain Generic.difficulty] in *.
  subst chain d. unfold Generic.addBlock in Hadd.
  rewrite generic_latest_is_last in Hadd.
  cbn [Generic.difficulty Generic.chain] in Hadd.
  destruct (Generic.mineBlock SHA256 fuel 2
              (Generic.set_prevHash newBlock
                 (Generic.hash (last rest (Generic.createGenesisBlock SHA256 now)))))
    as [mined| |] eqn:Hmine; cbn [bind] in Hadd; try discriminate Hadd.
  injection Hadd as <-. unfold generic_shape. cbn [Generic.chain Generic.difficulty].
  split; [reflexivity|].
  exists now, (rest ++ [mined])%list. split; [reflexivity|].
  pose proof (generic_mineBlock_fields SHA256 fuel 2 _ _ Hmine)
    as [_ [_ [Hprev _]]].
  cbn [Generic.prevHash Generic.set_prevHash] in Hprev.
  split.
  - apply generic_linked_snoc; assumption.
  - apply Forall_app. split; [exact Hmined|].
    constructor; [|constructor]. unfold generic_meets.
    rewrite (generic_mineBlock_prefix SHA256 fuel 2 _ _ Hmine).
    apply String.eqb_refl.
Qed.

Lemma generic_reachable_shape
      (SHA256 : string -> string) (this : GenericObjects.State) :
  generic_reachable SHA256 this ->
  Heap.valid (GenericObjects.heap this) (GenericObjects.chain this) /\
  generic_shape SHA256 (GenericObjects.blockchain this).
Proof.
  induction 1 as [now | this b _ [Hv Hshape]
                  | this this' fuel r _ [Hv Hshape] Hfresh Hadd].
  - split; [repeat constructor|]. split; [reflexivity|].
    exists now, []. split; [reflexivity|]. split; [exact I | constructor].
  - unfold GenericObjects.blockchain in *.
    cbn [GenericObjects.new_object snd GenericObjects.heap GenericObjects.chain
         GenericObjects.difficulty] in *.
    rewrite (objects_alloc b _ _ Hv).
    split; [apply valid_alloc; exact Hv | exact Hshape].
  - destruct (generic_addBlock_state SHA256 fuel r this this' Hadd)
      as [l [latest [b [mined [_ [_ [Hb [_ Hthis']]]]]]]].
    pose proof (generic_addBlock_fresh SHA256 fuel r b this Hv Hfresh Hb) as Href.
    rewrite Hadd in Href. cbn [outcome_map] in Href. symmetry in Href.
    split.
    + rewrite Hthis'. cbn [GenericObjects.heap GenericObjects.chain].
      apply Forall_app. split.
      * apply valid_store. exact Hv.
      * constructor; [|constructor]. rewrite store_length.
        exact (deref_Some_valid _ _ _ Hb).
    + exact (generic_shape_addBlock SHA256 fuel b _ _ Hshape Href).
Qed.

(** X7. In [index.js], as long as no block object is handed to
    [addBlock] twice, every chain built from a fresh [Blockchain] keeps
    difficulty 2 and starts with the genesis block (index 0, data
    "Genesis block", previous hash "0"), which is never mined; every later
    block stores the hash of the block before it and has a hash that
    starts with "00".  So [isChainValid()] never reports a broken link on
    such a chain: when it fails, it is with a hash mismatch. *)
Theorem generic_reachable_invariant
        (SHA256 : string -> string) (this : GenericObjects.State) :
  generic_reachable SHA256 this ->
  GenericObjects.difficulty this = 2 /\
  (exists now rest,
      Generic.chain (GenericObjects.blockchain this)
      = Generic.createGenesisBlock SHA256 now :: rest /\
      Generic.index (Generic.createGenesisBlock SHA256 now) = 0%N /\
      Generic.data (Generic.createGenesisBlock SHA256 now) = JStr "Genesis block" /\
      Generic.prevHash (Generic.createGenesisBlock SHA256 now) = "0" /\
      Generic.nonce (Generic.createGenesisBlock SHA256 now) = JNumber 0 /\
      generic_linked (Generic.createGenesisBlock SHA256 now) rest /\
      Forall (fun b => generic_meets 2 b = true) rest) /\
  (forall i, GenericObjects.validate SHA256 this <> PrevHashMismatch i).
Proof.
  intro Hreach.
  destruct (generic_reachable_shape SHA256 this Hreach)
    as [_ [Hd [now [rest [Hchain [Hlinked Hmined]]]]]].
  split; [exact Hd|]. split.
  - exists now, rest. split; [exact Hchain|].
    do 4 (split; [reflexivity|]). split; assumption.
  - intro i. unfold GenericObjects.validate, Generic.validate. rewrite Hchain.
    apply generic_linked_no_link_mismatch. exact Hlinked.
Qed.

Lemma stateA_reachable : generic_reachable Runs.sha stateA.
Proof.
  apply (generic_reach_add Runs.sha
           (snd (GenericObjects.new_object
                   (Generic.new_Block3 Runs.sha 3 Runs.g3 (Runs.amount_object 10))
                   stateG2))
           stateA 10 3).
  - apply generic_reach_object.
    apply (generic_reach_add Runs.sha
             (snd (GenericObjects.new_object
                     (Generic.new_Block3 Runs.sha 2 Runs.g2 (Runs.amount_object 8))
                     stateG1))
             stateG2 10 2).
    + apply generic_reach_object.
      apply (generic_reach_add Runs.sha
               (snd (GenericObjects.new_object
                       (Generic.new_Block3 Runs.sha 1 Runs.g1 (Runs.amount_object 4))
                       (GenericObjects.new_Blockchain Runs.sha Runs.t0)))
               stateG1 10 1).
      * apply generic_reach_object. apply generic_reach_new.
      * cbn. intros [H | H]; [discriminate H | exact H].
      * vm_compute. reflexivity.
    + cbn. intros [H | [H | H]]; [discriminate H | discriminate H | exact H].
    + vm_compute. reflexivity.
  - cbn. intros [H | [H | [H | H]]]; try discriminate H. exact H.
  - vm_compute. reflexivity.
Defined.

Lemma generic_reachable_invariant_witness :
  GenericObjects.blockchain stateA = Runs.chainA /\
  GenericObjects.difficulty stateA = 2 /\
  (exists now rest,
      Generic.chain (GenericObjects.blockchain stateA)
      = Generic.createGenesisBlock Runs.sha now :: rest /\
      Generic.index (Generic.createGenesisBlock Runs.sha now) = 0%N /\
      Generic.data (Generic.createGenesisBlock Runs.sha now) = JStr "Genesis block" /\
      Generic.prevHash (Generic.createGenesisBlock Runs.sha now) = "0" /\
      Generic.nonce (Generic.createGenesisBlock Runs.sha now) = JNumber 0 /\
      generic_linked (Generic.createGenesisBlock Runs.sha now) rest /\
      Forall (fun b => generic_meets 2 b = true) rest) /\
  (forall i, GenericObjects.validate Runs.sha stateA <> PrevHashMismatch i).
Proof.
  split; [reflexivity|].
  exact (generic_reachable_invariant Runs.sha stateA stateA_reachable).
Defined.

(** ** [addBlock] and tampering, in [index.js] *)

(** X8. [addBlock] throws a [TypeError] on an empty chain.  When it
    returns, it has written to the object it was handed and to no other:
    that object keeps its index, timestamp and data, its [prevHash] is
    the hash the tip had when the call started, and its hash has the
    leading zeros of the difficulty.  The address of the object is added
    to the chain, so the object is the new tip, and every place of the
    chain that already held it shows it as it is now.  The difficulty is
    unchanged.  If the object was not in the chain, the blocks that were
    there are the same as before, the call is what [Generic.addBlock]
    describes, and a chain that validated still does exactly when the
    new hash is the digest of the fields of the block; otherwise it
    fails at the new index. *)
Theorem generic_addBlock_spec
        (SHA256 : string -> string) (fuel : nat)
        (newBlock : Heap.ref) (this : GenericObjects.State) :
  (GenericObjects.chain this = [] ->
   GenericObjects.addBlock SHA256 fuel newBlock this = Throw TypeError) /\
  (forall this',
      GenericObjects.addBlock SHA256 fuel newBlock this = Ret this' ->
      exists l latest b mined,
        GenericObjects.getLatestBlock this = Some l /\
        Heap.deref (GenericObjects.heap this) l = Some latest /\
        Heap.deref (GenericObjects.heap this) newBlock = Some b /\
        Heap.deref (GenericObjects.heap this') newBlock = Some mined /\
        (forall r, r <> newBlock ->
                   Heap.deref (GenericObjects.heap this') r
                   = Heap.deref (GenericObjects.heap this) r) /\
        GenericObjects.chain this' = (GenericObjects.chain this ++ [newBlock])%list /\
        GenericObjects.getLatestBlock this' = Some newBlock /\
        GenericObjects.difficulty this' = GenericObjects.difficulty this /\
        Generic.prevHash mined = Generic.hash latest /\
        Generic.index mined = Generic.index b /\
        Generic.timestamp mined = Generic.timestamp b /\
        Generic.data mined = Generic.data b /\
        generic_meets (GenericObjects.difficulty this) mined = true /\
        (Heap.valid (GenericObjects.heap this) (GenericObjects.chain this) ->
         forall i, nth_error (GenericObjects.chain this) i = Some newBlock ->
                   nth_error (Generic.chain (GenericObjects.blockchain this')) i
                   = Some mined) /\
        (Heap.valid (GenericObjects.heap this) (GenericObjects.chain this) ->
         ~ In newBlock (GenericObjects.chain this) ->
         Generic.chain (GenericObjects.blockchain this')
         = (Generic.chain (GenericObjects.blockchain this) ++ [mined])%list /\
         Generic.addBlock SHA256 fuel b (GenericObjects.blockchain this)
         = Ret (GenericObjects.blockchain this') /\
         (GenericObjects.validate SHA256 this = Valid ->
          GenericObjects.validate SHA256 this'
          = if String.eqb (Generic.hash mined) (Generic.calculateHash SHA256 mined)
            then Valid
            else HashMismatch (List.length (GenericObjects.chain this))))).
Proof.
  split.
  - intro Hempty. unfold GenericObjects.addBlock, GenericObjects.getLatestBlock.
    rewrite Hempty. reflexivity.
  - intros this' Hadd.
    destruct (generic_addBlock_state SHA256 fuel newBlock this this' Hadd)
      as [l [latest [b [mined [Hl [Hlatest [Hb [Hmine Hthis']]]]]]]].
    exists l, latest, b, mined.
    pose proof (generic_mineBlock_fields SHA256 fuel _ _ _ Hmine)
      as [Hi [Hdata [Hprev Hts]]].
    cbn [Generic.prevHash Generic.index Generic.data Generic.timestamp
         Generic.set_prevHash] in Hi, Hdata, Hprev, Hts.
    assert (Hbv : newBlock < List.length (GenericObjects.heap this))
      by exact (deref_Some_valid _ _ _ Hb).
    assert (Hsame : Heap.deref (GenericObjects.heap this') newBlock = Some mined).
    { rewrite Hthis'. cbn [GenericObjects.heap]. apply deref_store_same.
      exact Hbv. }
    split; [exact Hl|]. split; [exact Hlatest|]. split; [exact Hb|].
    split; [exact Hsame|]. split.
    { intros r Hr. rewrite Hthis'. cbn [GenericObjects.heap].
      apply deref_store_other. exact Hr. }
    split; [rewrite Hthis'; reflexivity|]. split.
    { rewrite Hthis'. unfold GenericObjects.getLatestBlock.
      cbn [GenericObjects.chain]. apply nth_error_snoc_last. }
    split; [rewrite Hthis'; reflexivity|].
    split; [exact Hprev|]. split; [exact Hi|]. split; [exact Hts|].
    split; [exact Hdata|]. split.
    { unfold generic_meets.
      rewrite (generic_mineBlock_prefix SHA256 fuel _ _ _ Hmine).
      apply String.eqb_refl. }
    split.
    { intros Hv i Hi'. unfold GenericObjects.blockchain. cbn [Generic.chain].
      rewrite <- Hsame. apply objects_nth.
      - rewrite Hthis'. cbn [GenericObjects.heap GenericObjects.chain].
        apply Forall_app. split.
        + apply valid_store. exact Hv.
        + constructor; [|constructor]. rewrite store_length. exact Hbv.
      - rewrite Hthis'. cbn [GenericObjects.chain].
        rewrite nth_error_app1; [exact Hi'|].
        apply nth_error_Some. rewrite Hi'. discriminate. }
    intros Hv Hfresh.
    pose proof (generic_addBlock_fresh SHA256 fuel newBlock b this Hv Hfresh Hb)
      as Href.
    rewrite Hadd in Href. cbn [outcome_map] in Href. symmetry in Href.
    assert (Hblocks : Generic.chain (GenericObjects.blockchain this')
                      = (Generic.chain (GenericObjects.blockchain this)
                         ++ [mined])%list).
    { rewrite Hthis'. unfold GenericObjects.blockchain.
      cbn [Generic.chain GenericObjects.heap GenericObjects.chain].
      rewrite objects_app, (objects_store_fresh _ _ _ _ Hfresh).
      cbn [Heap.objects]. rewrite (deref_store_same _ _ _ Hbv). reflexivity. }
    split; [exact Hblocks|]. split; [exact Href|].
    intro Hvalid. unfold GenericObjects.validate in *.
    destruct (generic_addBlock_valid SHA256 fuel b _ _ Hvalid Href)
      as [latest' [mined' [_ [Hchain' [_ [_ Hverdict]]]]]].
    rewrite Hblocks in Hchain'. apply app_inj_tail in Hchain'.
    destruct Hchain' as [_ <-]. rewrite Hverdict.
    unfold GenericObjects.blockchain. cbn [Generic.chain].
    rewrite (objects_length _ _ Hv). reflexivity.
Qed.

Lemma generic_validate_from_tamper_verdict (SHA256 : string -> string) (d : json) :
  forall (rest : list Generic.Block) (i k : nat) (previous b : Generic.Block),
    Generic.validate_from SHA256 k previous rest = Valid ->
    nth_error rest i = Some b ->
    Generic.validate_from SHA256 k previous
      (Generic.update_at i (fun b => Generic.set_data b d) rest)
    = if String.eqb (Generic.hash b)
                    (Generic.calculateHash SHA256 (Generic.set_data b d))
      then Valid else HashMismatch (k + i).
Proof.
  induction rest as [|c rest IH]; intros i k previous b Hvalid Hnth.
  - destruct i; discriminate Hnth.
  - cbn [Generic.validate_from] in Hvalid.
    destruct (String.eqb_spec (Generic.hash c) (Generic.calculateHash SHA256 c))
      as [Hc | _]; cbn [negb] in Hvalid; [|discriminate Hvalid].
    destruct (String.eqb_spec (Generic.prevHash c) (Generic.hash previous))
      as [Hp | _]; cbn [negb] in Hvalid; [|discriminate Hvalid].
    destruct i as [|i]; cbn [Generic.update_at Generic.validate_from].
    + injection Hnth as ->.
      change (Generic.hash (Generic.set_data b d)) with (Generic.hash b).
      change (Generic.prevHash (Generic.set_data b d)) with (Generic.prevHash b).
      destruct (String.eqb (Generic.hash b)
                  (Generic.calculateHash SHA256 (Generic.set_data b d)));
        cbn [negb].
      * rewrite Hp, String.eqb_refl. cbn [negb].
        rewrite (generic_validate_from_previous SHA256 rest (S k)
                   (Generic.set_data b d) b eq_refl).
        exact Hvalid.
      * f_equal. lia.
    + rewrite Hc, Hp, !String.eqb_refl. cbn [negb]. simpl in Hnth.
      rewrite (IH i (S k) c b Hvalid Hnth).
      destruct (String.eqb _ _); [reflexivity | f_equal; lia].
Qed.

(** X9. On a chain that passes [isChainValid()], overwriting the data
    of block [i >= 1] and leaving its hash alone is reported as a hash
    mismatch at [i]; it goes unnoticed only if the digest of the new
    fields is the stored hash. *)
Theorem generic_tamper_data_verdict
        (SHA256 : string -> string) (this : Generic.Blockchain)
        (i : nat) (b : Generic.Block) (d : json) :
  Generic.validate SHA256 this = Valid ->
  1 <= i ->
  nth_error (Generic.chain this) i = Some b ->
  Generic.validate SHA256 (Generic.tamper_data i d this)
  = if String.eqb (Generic.hash b)
                  (Generic.calculateHash SHA256 (Generic.set_data b d))
    then Valid else HashMismatch i.
Proof.
  unfold Generic.validate, Generic.tamper_data. cbn [Generic.chain].
  intros Hvalid Hi Hnth.
  destruct (Generic.chain this) as [|g rest]; [destruct i; discriminate Hnth|].
  destruct i as [|i]; [lia|]. cbn [Generic.update_at]. simpl in Hnth.
  rewrite (generic_validate_from_tamper_verdict SHA256 d rest i 1 g b Hvalid Hnth).
  reflexivity.
Qed.

Lemma generic_tamper_data_verdict_witness :
  Generic.validate Runs.sha
    (Generic.tamper_data 2 (Runs.amount_object 800) Runs.chainA)
  = if String.eqb (Generic.hash Runs.blockG2)
                  (Generic.calculateHash Runs.sha
                     (Generic.set_data Runs.blockG2 (Runs.amount_object 800)))
    then Valid else HashMismatch 2.
Proof.
  apply (generic_tamper_data_verdict Runs.sha Runs.chainA 2 Runs.blockG2
           (Runs.amount_object 800)).
  - vm_compute. reflexivity.
  - lia.
  - reflexivity.
Defined.

(** ** The basic chain *)

(** On an object that is not in the chain, [addBlock] does to the chain
    what [Basic.addBlock] says. *)
Lemma basic_addBlock_fresh (SHA256 : string -> string)
      (newBlock : Heap.ref) (b : Basic.Block) (this : BasicObjects.State) :
  Heap.valid (BasicObjects.heap this) (BasicObjects.chain this) ->
  ~ In newBlock (BasicObjects.chain this) ->
  Heap.deref (BasicObjects.heap this) newBlock = Some b ->
  outcome_map BasicObjects.blockchain
              (BasicObjects.addBlock SHA256 newBlock this)
  = Basic.addBlock SHA256 b (BasicObjects.blockchain this).
Proof.
  intros Hv Hfresh Hb.
  unfold BasicObjects.addBlock, Basic.addBlock, BasicObjects.getLatestBlock,
    Basic.getLatestBlock, BasicObjects.blockchain.
  cbn [Basic.chain].
  destruct (nth_error (BasicObjects.chain this)
              (List.length (BasicObjects.chain this) - 1)) as [l|] eqn:Hl.
  - rewrite (objects_latest _ _ l Hv Hl).
    assert (Hlv : l < List.length (BasicObjects.heap this)).
    { unfold Heap.valid in Hv. rewrite Forall_forall in Hv. apply Hv.
      apply nth_error_In with (n := List.length (BasicObjects.chain this) - 1).
      exact Hl. }
    destruct (deref_valid _ l Hlv) as [latest Hlatest].
    rewrite Hlatest, Hb. cbn [outcome_map BasicObjects.heap BasicObjects.chain].
    rewrite objects_app, (objects_store_fresh _ _ _ _ Hfresh).
    cbn [Heap.objects].
    rewrite (deref_store_same _ _ _ (deref_Some_valid _ _ _ Hb)).
    reflexivity.
  - apply nth_error_last_None in Hl. rewrite Hl. reflexivity.
Qed.

Lemma basic_addBlock_state (SHA256 : string -> string)
      (newBlock : Heap.ref) (this this' : BasicObjects.State) :
  BasicObjects.addBlock SHA256 newBlock this = Ret this' ->
  exists l latest b,
    BasicObjects.getLatestBlock this = Some l /\
    Heap.deref (BasicObjects.heap this) l = Some latest /\
    Heap.deref (BasicObjects.heap this) newBlock = Some b /\
    this' = BasicObjects.mkState
              (Heap.store newBlock
                 (basic_link SHA256 b (Basic.hash latest))
                 (BasicObjects.heap this))
              (BasicObjects.chain this ++ [newBlock])%list.
Proof.
  unfold BasicObjects.addBlock. intro H.
  destruct (BasicObjects.getLatestBlock this) as [l|] eqn:Hl; [|discriminate H].
  destruct (Heap.deref (BasicObjects.heap this) l) as [latest|] eqn:Hlatest;
    [|discriminate H].
  destruct (Heap.deref (BasicObjects.heap this) newBlock) as [b|] eqn:Hb;
    [|discriminate H].
  injection H as <-. exists l, latest, b.
  split; [reflexivity|]. split; [exact Hlatest|].
  split; [first [exact Hb | reflexivity] | reflexivity].
Qed.

Lemma basic_reachable_shape (SHA256 : string -> string)
      (this : BasicObjects.State) :
  basic_reachable SHA256 this ->
  Heap.valid (BasicObjects.heap this) (BasicObjects.chain this) /\
  BasicObjects.validate SHA256 this = Valid /\
  exists now rest,
    Basic.chain (BasicObjects.blockchain this)
    = Basic.createGenesisBlock SHA256 now :: rest.
Proof.
  induction 1 as [now | this b _ [Hv [Hvalid [now [rest Hchain]]]]
                  | this this' r _ [Hv [Hvalid [now [rest Hchain]]]] Hfresh Hadd].
  - split; [repeat constructor|]. split; [reflexivity|].
    exists now, []. reflexivity.
  - unfold BasicObjects.validate, BasicObjects.blockchain in *.
    cbn [BasicObjects.new_object snd BasicObjects.heap BasicObjects.chain] in *.
    rewrite (objects_alloc b _ _ Hv).
    split; [apply valid_alloc; exact Hv|]. split; [exact Hvalid|].
    exists now, rest. exact Hchain.
  - destruct (basic_addBlock_state SHA256 r this this' Hadd)
      as [l [latest [b [_ [_ [Hb Hthis']]]]]].
    pose proof (basic_addBlock_fresh SHA256 r b this Hv Hfresh Hb) as Href.
    rewrite Hadd in Href. cbn [outcome_map] in Href. symmetry in Href.
    split; [|split].
    + rewrite Hthis'. cbn [BasicObjects.heap BasicObjects.chain].
      apply Forall_app. split.
      * apply valid_store. exact Hv.
      * constructor; [|constructor]. rewrite store_length.
        exact (deref_Some_valid _ _ _ Hb).
    + unfold BasicObjects.validate in *.
      exact (basic_addBlock_valid SHA256 b _ _ Hvalid Href).
    + unfold Basic.addBlock in Href.
      destruct (Basic.getLatestBlock (BasicObjects.blockchain this))
        as [latest'|]; [|discriminate Href].
      injection Href as Href. unfold BasicObjects.blockchain in *.
      cbn [Basic.chain] in *. rewrite <- Href, Hchain.
      eexists now, _. reflexivity.
Qed.

Lemma objects_nonempty {B : Type} (heap : list B) (refs : list Heap.ref) :
  Heap.valid heap refs -> Heap.objects heap refs <> [] ->
  exists l latest,
    nth_error refs (List.length refs - 1) = Some l /\
    Heap.deref heap l = Some latest.
Proof.
  intros Hv Hne.
  destruct (nth_error refs (List.length refs - 1)) as [l|] eqn:Hl.
  - assert (Hlv : l < List.length heap).
    { unfold Heap.valid in Hv. rewrite Forall_forall in Hv. apply Hv.
      apply nth_error_In with (n := List.length refs - 1). exact Hl. }
    destruct (deref_valid heap l Hlv) as [latest Hlatest].
    exists l, latest. split; [reflexivity | exact Hlatest].
  - apply nth_error_last_None in Hl. subst refs. contradiction Hne. reflexivity.
Qed.

(** What [addBlock] does with an object that is not in the chain. *)
Lemma basic_addBlock_fresh_ret (SHA256 : string -> string)
      (newBlock l : Heap.ref) (b latest : Basic.Block)
      (this : BasicObjects.State) :
  Heap.valid (BasicObjects.heap this) (BasicObjects.chain this) ->
  ~ In newBlock (BasicObjects.chain this) ->
  Heap.deref (BasicObjects.heap this) newBlock = Some b ->
  BasicObjects.getLatestBlock this = Some l ->
  Heap.deref (BasicObjects.heap this) l = Some latest ->
  exists this',
    BasicObjects.addBlock SHA256 newBlock this = Ret this' /\
    BasicObjects.chain this' = (BasicObjects.chain this ++ [newBlock])%list /\
    Heap.deref (BasicObjects.heap this') newBlock
    = Some (basic_link SHA256 b (Basic.hash latest)) /\
    Basic.chain (BasicObjects.blockchain this')
    = (Basic.chain (BasicObjects.blockchain this)
       ++ [basic_link SHA256 b (Basic.hash latest)])%list /\
    Basic.getLatestBlock (BasicObjects.blockchain this) = Some latest.
Proof.
  intros Hv Hfresh Hb Hl Hlatest.
  unfold BasicObjects.addBlock. rewrite Hl, Hlatest, Hb.
  eexists. split; [reflexivity|].
  cbn [BasicObjects.chain BasicObjects.heap]. split; [reflexivity|].
  pose proof (deref_store_same (basic_link SHA256 b (Basic.hash latest)) _ _
                (deref_Some_valid _ _ _ Hb)) as Hsame.
  split; [exact Hsame|]. split.
  - unfold BasicObjects.blockchain.
    cbn [Basic.chain BasicObjects.chain BasicObjects.heap].
    rewrite objects_app, (objects_store_fresh _ _ _ _ Hfresh).
    cbn [Heap.objects].
    change (Heap.deref
              (Heap.store newBlock
                 (Basic.set_hash (Basic.set_prevHash b (Basic.hash latest))
                    (Basic.calculateHash SHA256
                       (Basic.set_prevHash b (Basic.hash latest))))
                 (BasicObjects.heap this)) newBlock)
      with (Heap.deref
              (Heap.store newBlock (basic_link SHA256 b (Basic.hash latest))
                 (BasicObjects.heap this)) newBlock).
    rewrite Hsame. reflexivity.
  - unfold Basic.getLatestBlock, BasicObjects.blockchain. cbn [Basic.chain].
    rewrite (objects_latest _ _ l Hv Hl). exact Hlatest.
Qed.

(** X10. In the basic version, as long as no block object is handed to
    [addBlock] twice, every chain built from a fresh [Blockchain] starts
    with the genesis block and passes [isChainValid()], whatever the
    fields of the objects handed over.  On such a chain [addBlock]
    returns for every object that is not in the chain yet: it adds the
    object at the end, linked to the old tip and rehashed, with the
    index, data and timestamp it had, and the chain still validates. *)
Theorem basic_reachable_valid
        (SHA256 : string -> string) (this : BasicObjects.State) :
  basic_reachable SHA256 this ->
  BasicObjects.isChainValid SHA256 this = true /\
  (exists now rest,
      Basic.chain (BasicObjects.blockchain this)
      = Basic.createGenesisBlock SHA256 now :: rest) /\
  (forall newBlock b,
      Heap.deref (BasicObjects.heap this) newBlock = Some b ->
      ~ In newBlock (BasicObjects.chain this) ->
      exists this' latest added,
        BasicObjects.addBlock SHA256 newBlock this = Ret this' /\
        Basic.addBlock SHA256 b (BasicObjects.blockchain this)
        = Ret (BasicObjects.blockchain this') /\
        Basic.getLatestBlock (BasicObjects.blockchain this) = Some latest /\
        BasicObjects.chain this' = (BasicObjects.chain this ++ [newBlock])%list /\
        Heap.deref (BasicObjects.heap this') newBlock = Some added /\
        Basic.chain (BasicObjects.blockchain this')
        = (Basic.chain (BasicObjects.blockchain this) ++ [added])%list /\
        Basic.prevHash added = Basic.hash latest /\
        Basic.hash added = Basic.calculateHash SHA256 added /\
        Basic.index added = Basic.index b /\
        Basic.data added = Basic.data b /\
        Basic.timestamp added = Basic.timestamp b /\
        BasicObjects.isChainValid SHA256 this' = true).
Proof.
  intro Hreach.
  destruct (basic_reachable_shape SHA256 this Hreach)
    as [Hv [Hvalid [now [rest Hchain]]]].
  split.
  { unfold BasicObjects.isChainValid, Basic.isChainValid.
    unfold BasicObjects.validate in Hvalid. rewrite Hvalid. reflexivity. }
  split; [exists now, rest; exact Hchain|].
  intros newBlock b Hb Hfresh.
  assert (Hne : Heap.objects (BasicObjects.heap this) (BasicObjects.chain this)
                <> []).
  { unfold BasicObjects.blockchain in Hchain. cbn [Basic.chain] in Hchain.
    rewrite Hchain. discriminate. }
  destruct (objects_nonempty _ _ Hv Hne) as [l [latest [Hl Hlatest]]].
  destruct (basic_addBlock_fresh_ret SHA256 newBlock l b latest this
              Hv Hfresh Hb Hl Hlatest)
    as [this' [Hadd [Hrefs [Hderef [Hblocks Hlast]]]]].
  exists this', latest, (basic_link SHA256 b (Basic.hash latest)).
  split; [exact Hadd|]. split.
  { pose proof (basic_addBlock_fresh SHA256 newBlock b this Hv Hfresh Hb) as Href.
    rewrite Hadd in Href. symmetry. exact Href. }
  split; [exact Hlast|]. split; [exact Hrefs|].
  split; [exact Hderef|]. split; [exact Hblocks|].
  do 5 (split; [reflexivity|]).
  pose proof (basic_reach_add SHA256 this this' newBlock Hreach Hfresh Hadd)
    as Hreach'.
  destruct (basic_reachable_shape SHA256 this' Hreach') as [_ [Hvalid' _]].
  unfold BasicObjects.isChainValid, Basic.isChainValid.
  unfold BasicObjects.validate in Hvalid'. rewrite Hvalid'. reflexivity.
Qed.

Lemma basic_state3_reachable : basic_reachable Runs.sha basic_state3.
Proof.
  apply (basic_reach_add Runs.sha
           (snd (BasicObjects.new_object
                   (Basic.new_Block3 Runs.sha 2 Runs.g2 (Runs.amount_object 8))
                   basic_state2))
           basic_state3 2).
  - apply basic_reach_object.
    apply (basic_reach_add Runs.sha
             (snd (BasicObjects.new_object
                     (Basic.new_Block3 Runs.sha 1 Runs.g1 (Runs.amount_object 4))
                     (BasicObjects.new_Blockchain Runs.sha Runs.t0)))
             basic_state2 1).
    + apply basic_reach_object. apply basic_reach_new.
    + cbn. intros [H | H]; [discriminate H | exact H].
    + vm_compute. reflexivity.
  - cbn. intros [H | [H | H]]; [discriminate H | discriminate H | exact H].
  - vm_compute. reflexivity.
Defined.

Lemma basic_reachable_valid_witness :
  BasicObjects.isChainValid Runs.sha basic_state3 = true /\
  (exists now rest,
      Basic.chain (BasicObjects.blockchain basic_state3)
      = Basic.createGenesisBlock Runs.sha now :: rest) /\
  (exists this' latest added,
      BasicObjects.addBlock Runs.sha 3
        (snd (BasicObjects.new_object
                (Basic.new_Block3 Runs.sha 3 Runs.g3 (Runs.amount_object 10))
                basic_state3)) = Ret this' /\
      Basic.addBlock Runs.sha
        (Basic.new_Block3 Runs.sha 3 Runs.g3 (Runs.amount_object 10))
        (BasicObjects.blockchain
           (snd (BasicObjects.new_object
                   (Basic.new_Block3 Runs.sha 3 Runs.g3 (Runs.amount_object 10))
                   basic_state3)))
      = Ret (BasicObjects.blockchain this') /\
      Basic.getLatestBlock
        (BasicObjects.blockchain
           (snd (BasicObjects.new_object
                   (Basic.new_Block3 Runs.sha 3 Runs.g3 (Runs.amount_object 10))
                   basic_state3))) = Some latest /\
      BasicObjects.chain this' = [0; 1; 2; 3] /\
      Heap.deref (BasicObjects.heap this') 3 = Some added /\
      Basic.chain (BasicObjects.blockchain this')
      = [basic_genesis; basic_block1; basic_block2; added] /\
      Basic.prevHash added = Basic.hash latest /\
      Basic.hash added = Basic.calculateHash Runs.sha added /\
      Basic.index added = 3%N /\
      Basic.data added = Runs.amount_object 10 /\
      Basic.timestamp added = Runs.g3 /\
      BasicObjects.isChainValid Runs.sha this' = true).
Proof.
  destruct (basic_reachable_valid Runs.sha basic_state3 basic_state3_reachable)
    as [Hvalid [Hgenesis _]].
  split; [exact Hvalid|]. split; [exact Hgenesis|].
  apply (proj2 (proj2
           (basic_reachable_valid Runs.sha
              (snd (BasicObjects.new_object
                      (Basic.new_Block3 Runs.sha 3 Runs.g3 (Runs.amount_object 10))
                      basic_state3))
              (basic_reach_object Runs.sha basic_state3 _ basic_state3_reachable)))
           3 (Basic.new_Block3 Runs.sha 3 Runs.g3 (Runs.amount_object 10))).
  - reflexivity.
  - cbn. intros [H | [H | [H | H]]]; try discriminate H. exact H.
Defined.

Lemma basic_validate_from_app (SHA256 : string -> string) :
  forall (l1 l2 : list Basic.Block) (k : nat) (previous : Basic.Block),
    Basic.validate_from SHA256 k previous (l1 ++ l2)%list
    = match Basic.validate_from SHA256 k previous l1 with
      | Valid => Basic.validate_from SHA256 (k + List.length l1)
                   (last l1 previous) l2
      | v => v
      end.
Proof.
  induction l1 as [|c l1 IH]; intros l2 k previous.
  - cbn [app Basic.validate_from List.length last].
    rewrite Nat.add_0_r. reflexivity.
  - cbn [app Basic.validate_from].
    destruct (negb (String.eqb (Basic.hash c) (Basic.calculateHash SHA256 c)));
      [reflexivity|].
    destruct (negb (String.eqb (Basic.prevHash c) (Basic.hash previous)));
      [reflexivity|].
    rewrite IH. rewrite last_cons. cbn [List.length].
    replace (S k + List.length l1) with (k + S (List.length l1)) by lia.
    reflexivity.
Qed.

(** X21. In the basic version [addBlock] pushes the object it is
    handed, not a copy.  Handing it the tip of a chain that validates
    rewrites the tip where it stands: the tip is now in the chain twice,
    its [prevHash] is its own former hash, and [isChainValid()] answers
    false with a link mismatch at the place the tip already had, unless
    that former hash is also the hash of the block before it. *)
Theorem basic_addBlock_same_object
        (SHA256 : string -> string) (this this' : BasicObjects.State)
        (refs : list Heap.ref) (previous tip : Heap.ref)
        (p b : Basic.Block) :
  Heap.valid (BasicObjects.heap this) (BasicObjects.chain this) ->
  BasicObjects.chain this = (refs ++ [previous; tip])%list ->
  ~ In tip (refs ++ [previous])%list ->
  Heap.deref (BasicObjects.heap this) previous = Some p ->
  Heap.deref (BasicObjects.heap this) tip = Some b ->
  BasicObjects.validate SHA256 this = Valid ->
  Basic.hash b <> Basic.hash p ->
  BasicObjects.addBlock SHA256 tip this = Ret this' ->
  BasicObjects.chain this' = (refs ++ [previous; tip; tip])%list /\
  Heap.deref (BasicObjects.heap this') tip
  = Some (basic_link SHA256 b (Basic.hash b)) /\
  BasicObjects.validate SHA256 this' = PrevHashMismatch (List.length refs + 1) /\
  BasicObjects.isChainValid SHA256 this' = false.
Proof.
  intros Hv Hchain Hfresh Hp Hb Hvalid Hne Hadd.
  destruct (basic_addBlock_state SHA256 tip this this' Hadd)
    as [l [latest [b' [Hl [Hlatest [Hb' Hthis']]]]]].
  rewrite Hb in Hb'. injection Hb' as <-.
  assert (Hltip : l = tip).
  { unfold BasicObjects.getLatestBlock in Hl. rewrite Hchain in Hl.
    rewrite length_app in Hl. cbn [List.length] in Hl.
    rewrite nth_error_app2 in Hl by lia.
    replace (List.length refs + 2 - 1 - List.length refs) with 1 in Hl by lia.
    cbn [nth_error] in Hl. injection Hl as <-. reflexivity. }
  subst l. rewrite Hb in Hlatest. injection Hlatest as <-.
  set (b2 := basic_link SHA256 b (Basic.hash b)) in *.
  assert (Htv : tip < List.length (BasicObjects.heap this))
    by exact (deref_Some_valid _ _ _ Hb).
  assert (Hsame : Heap.deref (BasicObjects.heap this') tip = Some b2).
  { rewrite Hthis'. cbn [BasicObjects.heap]. apply deref_store_same. exact Htv. }
  assert (Hrefs : BasicObjects.chain this' = (refs ++ [previous; tip; tip])%list).
  { rewrite Hthis'. cbn [BasicObjects.chain]. rewrite Hchain, <- app_assoc.
    reflexivity. }
  assert (Hverdict : BasicObjects.validate SHA256 this'
                     = PrevHashMismatch (List.length refs + 1)).
  { unfold BasicObjects.validate, BasicObjects.blockchain, Basic.validate in *.
    cbn [Basic.chain] in *. rewrite Hrefs.
    replace (refs ++ [previous; tip; tip])%list
      with ((refs ++ [previous]) ++ [tip; tip])%list
      by (rewrite <- app_assoc; reflexivity).
    rewrite Hchain in Hvalid.
    replace (refs ++ [previous; tip])%list
      with ((refs ++ [previous]) ++ [tip])%list in Hvalid
      by (rewrite <- app_assoc; reflexivity).
    rewrite objects_app in Hvalid. rewrite objects_app.
    assert (Hold : Heap.objects (BasicObjects.heap this') (refs ++ [previous])
                   = Heap.objects (BasicObjects.heap this) (refs ++ [previous])).
    { rewrite Hthis'. cbn [BasicObjects.heap].
      apply objects_store_fresh. exact Hfresh. }
    rewrite Hold. cbn [Heap.objects] in *. rewrite Hsame. rewrite Hb in Hvalid.
    rewrite objects_app in *. cbn [Heap.objects] in *. rewrite Hp in *.
    assert (Hrv : Heap.valid (BasicObjects.heap this) refs).
    { unfold Heap.valid in *. rewrite Hchain in Hv.
      apply Forall_app in Hv. exact (proj1 Hv). }
    pose proof (objects_length _ _ Hrv) as Hlen.
    destruct (Heap.objects (BasicObjects.heap this) refs) as [|g blocks].
    - cbn [app] in *. cbn [Basic.validate_from] in *.
      cbn [List.length] in Hlen. rewrite <- Hlen.
      change (Basic.hash b2) with (Basic.calculateHash SHA256
                                     (Basic.set_prevHash b (Basic.hash b))).
      change (Basic.calculateHash SHA256 b2)
        with (Basic.calculateHash SHA256 (Basic.set_prevHash b (Basic.hash b))).
      rewrite String.eqb_refl. cbn [negb].
      change (Basic.prevHash b2) with (Basic.hash b).
      destruct (String.eqb_spec (Basic.hash b) (Basic.hash p)) as [Heq | _];
        [contradiction (Hne Heq)|]. reflexivity.
    - change (((g :: blocks) ++ [p]) ++ ?x)%list
        with (g :: ((blocks ++ [p]) ++ x))%list in *.
      cbn beta iota in *.
      rewrite basic_validate_from_app in Hvalid.
      rewrite basic_validate_from_app.
      destruct (Basic.validate_from SHA256 1 g (blocks ++ [p])%list);
        try discriminate Hvalid.
      rewrite last_last. rewrite length_app. cbn [List.length] in *.
      cbn [Basic.validate_from].
      change (Basic.hash b2) with (Basic.calculateHash SHA256
                                     (Basic.set_prevHash b (Basic.hash b))).
      change (Basic.calculateHash SHA256 b2)
        with (Basic.calculateHash SHA256 (Basic.set_prevHash b (Basic.hash b))).
      rewrite String.eqb_refl. cbn [negb].
      change (Basic.prevHash b2) with (Basic.hash b).
      destruct (String.eqb_spec (Basic.hash b) (Basic.hash p)) as [Heq | _];
        [contradiction (Hne Heq)|]. cbn [negb]. f_equal. lia. }
  split; [exact Hrefs|]. split; [exact Hsame|]. split; [exact Hverdict|].
  unfold BasicObjects.isChainValid, Basic.isChainValid.
  unfold BasicObjects.validate in Hverdict. rewrite Hverdict. reflexivity.
Qed.

Lemma basic_addBlock_same_object_witness :
  exists this',
    BasicObjects.addBlock Runs.sha 1 basic_state2 = Ret this' /\
    BasicObjects.chain this' = [0; 1; 1] /\
    Heap.deref (BasicObjects.heap this') 1
    = Some (basic_link Runs.sha basic_block1 (Basic.hash basic_block1)) /\
    BasicObjects.validate Runs.sha this' = PrevHashMismatch 1 /\
    BasicObjects.isChainValid Runs.sha this' = false.
Proof.
  eexists. split; [vm_compute; reflexivity|].
  apply (basic_addBlock_same_object Runs.sha basic_state2 _ [] 0 1
           basic_genesis basic_block1).
  - repeat constructor.
  - reflexivity.
  - cbn. intros [H | H]; [discriminate H | exact H].
  - reflexivity.
  - reflexivity.
  - vm_compute. reflexivity.
  - vm_compute. discriminate.
  - vm_compute. reflexivity.
Defined.

Lemma basic_validate_from_previous (SHA256 : string -> string)
      (rest : list Basic.Block) (k : nat) (p1 p2 : Basic.Block) :
  Basic.hash p1 = Basic.hash p2 ->
  Basic.validate_from SHA256 k p1 rest = Basic.validate_from SHA256 k p2 rest.
Proof.
  intro H. destruct rest as [|b rest]; [reflexivity|].
  cbn [Basic.validate_from]. rewrite H. reflexivity.
Qed.

Lemma basic_validate_from_rehash_inner (SHA256 : string -> string) (d : json) :
  forall (rest : list Basic.Block) (i k : nat) (previous b c : Basic.Block),
    Basic.validate_from SHA256 k previous rest = Valid ->
    nth_error rest i = Some b ->
    nth_error rest (S i) = Some c ->
    Basic.calculateHash SHA256 (Basic.set_data b d) <> Basic.hash b ->
    Basic.validate_from SHA256 k previous
      (Basic.update_at i (basic_rehash SHA256 d) rest)
    = PrevHashMismatch (k + S i).
Proof.
  induction rest as [|x rest IH]; intros i k previous b c Hvalid Hb Hc Hdiff.
  - destruct i; discriminate Hb.
  - cbn [Basic.validate_from] in Hvalid.
    destruct (String.eqb_spec (Basic.hash x) (Basic.calculateHash SHA256 x))
      as [Hx | _]; cbn [negb] in Hvalid; [|discriminate Hvalid].
    destruct (String.eqb_spec (Basic.prevHash x) (Basic.hash previous))
      as [Hp | _]; cbn [negb] in Hvalid; [|discriminate Hvalid].
    destruct i as [|i]; cbn [Basic.update_at].
    + injection Hb as ->. destruct rest as [|y rest]; [discriminate Hc|].
      injection Hc as ->.
      cbn [Basic.validate_from] in Hvalid.
      destruct (String.eqb_spec (Basic.hash c) (Basic.calculateHash SHA256 c))
        as [Hcc | _]; cbn [negb] in Hvalid; [|discriminate Hvalid].
      destruct (String.eqb_spec (Basic.prevHash c) (Basic.hash b))
        as [Hcp | _]; cbn [negb] in Hvalid; [|discriminate Hvalid].
      cbn [Basic.validate_from]. unfold basic_rehash.
      change (Basic.calculateHash SHA256
                (Basic.set_hash (Basic.set_data b d)
                   (Basic.calculateHash SHA256 (Basic.set_data b d))))
        with (Basic.calculateHash SHA256 (Basic.set_data b d)).
      cbn [Basic.hash Basic.set_hash Basic.prevHash Basic.set_data].
      rewrite String.eqb_refl. cbn [negb].
      rewrite Hp, String.eqb_refl. cbn [negb].
      rewrite <- Hcc, String.eqb_refl. cbn [negb].
      rewrite Hcp.
      destruct (String.eqb_spec (Basic.hash b)
                  (Basic.calculateHash SHA256 (Basic.set_data b d)))
        as [Heq | _].
      * symmetry in Heq. contradiction.
      * cbn [negb]. f_equal. lia.
    + cbn [Basic.validate_from].
      rewrite <- Hx, Hp, !String.eqb_refl. cbn [negb].
      simpl in Hb, Hc.
      rewrite (IH i (S k) x b c Hvalid Hb Hc Hdiff). f_equal. lia.
Qed.

(** X11. In the basic version, on a chain that passes [isChainValid()],
    overwriting the data of a block that has a successor and recomputing
    its hash (what the script does to block 1) is reported as a broken
    link at the successor, provided the new digest is not the old hash. *)
Theorem basic_tamper_rehash_inner
        (SHA256 : string -> string) (this : Basic.Blockchain)
        (i : nat) (b c : Basic.Block) (d : json) :
  Basic.validate SHA256 this = Valid ->
  1 <= i ->
  nth_error (Basic.chain this) i = Some b ->
  nth_error (Basic.chain this) (S i) = Some c ->
  Basic.calculateHash SHA256 (Basic.set_data b d) <> Basic.hash b ->
  Basic.validate SHA256 (basic_tamper_rehash SHA256 i d this)
  = PrevHashMismatch (S i).
Proof.
  unfold Basic.validate, basic_tamper_rehash. cbn [Basic.chain].
  intros Hvalid Hi Hb Hc Hdiff.
  destruct (Basic.chain this) as [|g rest]; [destruct i; discriminate Hb|].
  destruct i as [|i]; [lia|]. cbn [Basic.update_at]. simpl in Hb, Hc.
  rewrite (basic_validate_from_rehash_inner SHA256 d rest i 1 g b c
             Hvalid Hb Hc Hdiff).
  reflexivity.
Qed.

Lemma basic_tamper_rehash_inner_witness :
  Basic.validate Runs.sha
    (basic_tamper_rehash Runs.sha 1 (Runs.amount_object 100) basic_chain3)
  = PrevHashMismatch 2.
Proof.
  apply (basic_tamper_rehash_inner Runs.sha basic_chain3 1
           basic_block1 basic_block2 (Runs.amount_object 100)).
  - vm_compute. reflexivity.
  - lia.
  - reflexivity.
  - reflexivity.
  - vm_compute. discriminate.
Defined.

Lemma basic_validate_from_rehash_last (SHA256 : string -> string) (d : json) :
  forall (rest : list Basic.Block) (i k : nat) (previous : Basic.Block),
    Basic.validate_from SHA256 k previous rest = Valid ->
    S i = List.length rest ->
    Basic.validate_from SHA256 k previous
      (Basic.update_at i (basic_rehash SHA256 d) rest)
    = Valid.
Proof.
  induction rest as [|x rest IH]; intros i k previous Hvalid Hlen.
  - discriminate Hlen.
  - cbn [Basic.validate_from] in Hvalid.
    destruct (String.eqb_spec (Basic.hash x) (Basic.calculateHash SHA256 x))
      as [Hx | _]; cbn [negb] in Hvalid; [|discriminate Hvalid].
    destruct (String.eqb_spec (Basic.prevHash x) (Basic.hash previous))
      as [Hp | _]; cbn [negb] in Hvalid; [|discriminate Hvalid].
    destruct i as [|i]; cbn [Basic.update_at Basic.validate_from].
    + destruct rest as [|y rest]; [|discriminate Hlen].
      unfold basic_rehash.
      change (Basic.calculateHash SHA256
                (Basic.set_hash (Basic.set_data x d)
                   (Basic.calculateHash SHA256 (Basic.set_data x d))))
        with (Basic.calculateHash SHA256 (Basic.set_data x d)).
      cbn [Basic.hash Basic.set_hash Basic.prevHash Basic.set_data].
      rewrite String.eqb_refl, Hp, String.eqb_refl. reflexivity.
    + rewrite <- Hx, Hp, !String.eqb_refl. cbn [negb].
      apply IH; [exact Hvalid|]. simpl in Hlen. lia.
Qed.

(** X12. On a chain that passes [isChainValid()], overwriting the data
    of the last block and recomputing its hash goes unnoticed: the chain
    still validates (the note in the script of the basic version). *)
Theorem basic_tamper_rehash_last
        (SHA256 : string -> string) (this : Basic.Blockchain)
        (i : nat) (d : json) :
  Basic.validate SHA256 this = Valid ->
  S i = List.length (Basic.chain this) ->
  Basic.isChainValid SHA256 (basic_tamper_rehash SHA256 i d this) = true.
Proof.
  unfold Basic.isChainValid, Basic.validate, basic_tamper_rehash.
  cbn [Basic.chain]. intros Hvalid Hlen.
  destruct (Basic.chain this) as [|g rest]; [discriminate Hlen|].
  destruct i as [|i]; cbn [Basic.update_at].
  - destruct rest; [reflexivity | discriminate Hlen].
  - rewrite (basic_validate_from_rehash_last SHA256 d rest i 1 g Hvalid);
      [reflexivity|]. simpl in Hlen. lia.
Qed.

Lemma basic_tamper_rehash_last_witness :
  Basic.isChainValid Runs.sha
    (basic_tamper_rehash Runs.sha 2 (Runs.amount_object 100) basic_chain3)
  = true.
Proof.
  apply (basic_tamper_rehash_last Runs.sha basic_chain3 2 (Runs.amount_object 100)).
  - vm_compute. reflexivity.
  - reflexivity.
Defined.

(** ** The transaction ledger *)

Lemma reachable_constants (SHA256 : string -> string)
      (this : LedgerMode.Blockchain) :
  LedgerMode.reachable SHA256 this ->
  LedgerMode.difficulty this = 2 /\
  LedgerMode.miningReward this = 100%float /\
  (exists now rest,
      LedgerMode.chain this = LedgerMode.createGenesisBlock SHA256 now :: rest /\
      Forall (fun b => ledger_meets 2 b = true) rest) /\
  (2 <= List.length (LedgerMode.chain this) ->
   exists rewardTo rest,
     LedgerMode.pendingTransaction this
     = LedgerMode.new_Transaction None (Some rewardTo) 100%float :: rest).
Proof.
  induction 1 as [now | this t _ IH | this this' fuel now rewardTo _ IH Hmine].
  - split; [reflexivity|]. split; [reflexivity|]. split.
    + exists now, []. split; [reflexivity | constructor].
    + simpl. lia.
  - destruct IH as [Hd [Hr [Hshape Hpending]]].
    split; [exact Hd|]. split; [exact Hr|]. split; [exact Hshape|].
    intro Hlen. destruct (Hpending Hlen) as [r [rest Hp]].
    exists r, (rest ++ [t])%list. simpl. rewrite Hp. reflexivity.
  - destruct IH as [Hd [Hr [[now0 [rest [Hchain Hmined]]] _]]].
    unfold LedgerMode.minePedingTransactions in Hmine.
    destruct (LedgerMode.mineBlock SHA256 fuel (LedgerMode.difficulty this)
                (LedgerMode.new_Block2 SHA256 now
                   (LedgerMode.PTransactions (LedgerMode.pendingTransaction this))))
      as [block| |] eqn:Hblock; cbn [bind] in Hmine; try discriminate Hmine.
    injection Hmine as <-.
    cbn [LedgerMode.difficulty LedgerMode.miningReward LedgerMode.chain
         LedgerMode.pendingTransaction].
    split; [exact Hd|]. split; [exact Hr|]. split.
    + exists now0, (rest ++ [block])%list. rewrite Hchain.
      split; [reflexivity|]. apply Forall_app. split; [exact Hmined|].
      constructor; [|constructor]. unfold ledger_meets.
      rewrite Hd in Hblock.
      rewrite (ledger_mineBlock_prefix SHA256 fuel 2 _ _ Hblock).
      apply String.eqb_refl.
    + intros _. exists rewardTo, []. rewrite Hr. reflexivity.
Qed.

(** X13. Every ledger built by [createTransaction] and
    [minePedingTransactions] from a fresh [Blockchain] keeps difficulty 2
    and mining reward 100, starts with the genesis block, holds after it
    only blocks whose payload is an array of transactions, whose
    [prevHash] is the empty string and whose hash starts with "00"; once
    a block was mined, the pending pool starts with a reward
    transaction. *)
Theorem ledger_reachable_invariant
        (SHA256 : string -> string) (this : LedgerMode.Blockchain) :
  LedgerMode.reachable SHA256 this ->
  LedgerMode.difficulty this = 2 /\
  LedgerMode.miningReward this = 100%float /\
  (exists now rest,
      LedgerMode.chain this = LedgerMode.createGenesisBlock SHA256 now :: rest /\
      LedgerMode.transaction (LedgerMode.createGenesisBlock SHA256 now)
      = LedgerMode.PString "Genesis block" /\
      LedgerMode.prevHash (LedgerMode.createGenesisBlock SHA256 now) = "0" /\
      Forall mined_block rest /\
      Forall (fun b => ledger_meets 2 b = true) rest) /\
  (2 <= List.length (LedgerMode.chain this) ->
   exists rewardTo rest,
     LedgerMode.pendingTransaction this
     = LedgerMode.new_Transaction None (Some rewardTo) 100%float :: rest).
Proof.
  intro Hreach.
  destruct (reachable_constants SHA256 this Hreach)
    as [Hd [Hr [[now [rest [Hchain Hmeets]]] Hpending]]].
  destruct (reachable_shape SHA256 this Hreach) as [now' [rest' [Hchain' Hmined]]].
  assert (Hrest : rest' = rest).
  { rewrite Hchain in Hchain'. apply (f_equal (@tl _)) in Hchain'.
    cbn [tl] in Hchain'. symmetry. exact Hchain'. }
  subst rest'.
  split; [exact Hd|]. split; [exact Hr|]. split; [|exact Hpending].
  exists now, rest. split; [exact Hchain|].
  split; [reflexivity|]. split; [reflexivity|]. split; assumption.
Qed.

Lemma ledgerD_reachable : LedgerMode.reachable Runs.sha Runs.ledgerD.
Proof.
  apply (LedgerMode.reach_mine Runs.sha Runs.ledgerC Runs.ledgerD 10 Runs.l2 "M").
  - exact ledgerC_reachable.
  - vm_compute. reflexivity.
Defined.

Lemma ledger_reachable_invariant_witness :
  LedgerMode.difficulty Runs.ledgerD = 2 /\
  LedgerMode.miningReward Runs.ledgerD = 100%float /\
  (exists now rest,
      LedgerMode.chain Runs.ledgerD
      = LedgerMode.createGenesisBlock Runs.sha now :: rest /\
      LedgerMode.transaction (LedgerMode.createGenesisBlock Runs.sha now)
      = LedgerMode.PString "Genesis block" /\
      LedgerMode.prevHash (LedgerMode.createGenesisBlock Runs.sha now) = "0" /\
      Forall mined_block rest /\
      Forall (fun b => ledger_meets 2 b = true) rest) /\
  (2 <= List.length (LedgerMode.chain Runs.ledgerD) ->
   exists rewardTo rest,
     LedgerMode.pendingTransaction Runs.ledgerD
     = LedgerMode.new_Transaction None (Some rewardTo) 100%float :: rest).
Proof.
  exact (ledger_reachable_invariant Runs.sha Runs.ledgerD ledgerD_reachable).
Defined.

(** *** Balances and mining *)

Lemma txs_delta_received_sent (addr : LedgerMode.address)
      (txs : list LedgerMode.Transaction) :
  txs_delta addr txs = (received addr txs - sent addr txs)%Z.
Proof.
  induction txs as [|t txs IH]; cbn [txs_delta received sent].
  - reflexivity.
  - rewrite IH. unfold tx_delta. lia.
Qed.

(** An address the transactions do not mention is left alone by the
    scan, whatever the amounts. *)
Lemma fold_balance_absent (a : string) (txs : list LedgerMode.Transaction) :
  ~ In a (flat_map LedgerMode.tx_addresses txs) ->
  forall balance : float,
    fold_left (LedgerMode.balance_step (Some a))
              (map LedgerMode.ETransaction txs) balance
    = balance.
Proof.
  induction txs as [|t txs IH]; intros Hno balance; cbn [map fold_left flat_map] in *.
  - reflexivity.
  - assert (Ht : ~ In a (LedgerMode.tx_addresses t))
      by (intro Hin; apply Hno; apply in_or_app; left; exact Hin).
    assert (Hstep : LedgerMode.balance_step (Some a) balance
                      (LedgerMode.ETransaction t) = balance).
    { unfold LedgerMode.balance_step, LedgerMode.tx_addresses in *.
      destruct (LedgerMode.toAddress t) as [to|];
        destruct (LedgerMode.fromAddress t) as [from|];
        cbn [LedgerMode.address_eqb LedgerMode.address_list app] in *.
      - destruct (String.eqb_spec from a) as [-> | _];
          [contradiction Ht; left; reflexivity|].
        destruct (String.eqb_spec to a) as [-> | _];
          [contradiction Ht; right; left; reflexivity|]. reflexivity.
      - destruct (String.eqb_spec to a) as [-> | _];
          [contradiction Ht; left; reflexivity|]. reflexivity.
      - destruct (String.eqb_spec from a) as [-> | _];
          [contradiction Ht; left; reflexivity|]. reflexivity.
      - reflexivity. }
    rewrite Hstep. apply IH.
    intro Hin. apply Hno. apply in_or_app. right. exact Hin.
Qed.

Lemma balance_blocks_absent (a : string) :
  forall (blocks : list LedgerMode.Block) (balance : float),
    Forall iterable blocks ->
    ~ In a (flat_map LedgerMode.tx_addresses
              (flat_map LedgerMode.block_transactions blocks)) ->
    LedgerMode.balance_blocks (Some a) blocks balance = Ret balance.
Proof.
  induction blocks as [|b blocks IH]; intros balance Hall Hno.
  - reflexivity.
  - inversion Hall as [|b' blocks' Hb Hblocks]; subst.
    cbn [LedgerMode.balance_blocks flat_map] in *.
    rewrite flat_map_app in Hno.
    unfold LedgerMode.block_transactions in Hno at 1. unfold iterable in Hb.
    destruct (LedgerMode.transaction b) as [s | txs |];
      cbn [LedgerMode.js_iterate bind].
    + rewrite fold_balance_chars. apply IH; [exact Hblocks|].
      intro Hin. apply Hno. apply in_or_app. right. exact Hin.
    + rewrite fold_balance_absent.
      * apply IH; [exact Hblocks|].
        intro Hin. apply Hno. apply in_or_app. right. exact Hin.
      * intro Hin. apply Hno. apply in_or_app. left. exact Hin.
    + contradiction Hb. reflexivity.
Qed.

(** X14. On a ledger built by the public methods, as long as the scan
    for an address rounds nothing, the balance [getBalanceOfAddress]
    returns is exactly what the transactions of the chain send to the
    address minus what they take from it (in units of [2^-1074]);
    pending transactions do not count, and an address no transaction of
    the chain mentions has balance 0, whatever the amounts. *)
Theorem getBalanceOfAddress_formula
        (SHA256 : string -> string) (this : LedgerMode.Blockchain)
        (addr : LedgerMode.address) :
  LedgerMode.reachable SHA256 this ->
  (LedgerMode.balance_exact addr this = true ->
   exists balance : float,
     LedgerMode.getBalanceOfAddress addr this = Ret balance /\
     units balance
     = Some (received addr (LedgerMode.chain_transactions this)
             - sent addr (LedgerMode.chain_transactions this))%Z) /\
  (forall t, LedgerMode.getBalanceOfAddress addr
               (LedgerMode.createTransaction t this)
             = LedgerMode.getBalanceOfAddress addr this) /\
  (forall a, addr = Some a -> ~ In a (LedgerMode.addresses this) ->
             LedgerMode.getBalanceOfAddress addr this = Ret 0%float).
Proof.
  intro Hreach.
  pose proof (shape_iterable SHA256 this (reachable_shape SHA256 this Hreach))
    as Hiter.
  split; [|split].
  - intro Hexact.
    destruct (getBalanceOfAddress_units this addr Hiter Hexact) as [z [Hz Hu]].
    exists z. split; [exact Hz|].
    rewrite Hu, txs_delta_received_sent. reflexivity.
  - intro t. reflexivity.
  - intros a -> Hnotin. unfold LedgerMode.getBalanceOfAddress.
    apply balance_blocks_absent; [exact Hiter|].
    intro Hin. apply Hnotin. unfold LedgerMode.addresses.
    apply nodup_In. exact Hin.
Qed.

Lemma getBalanceOfAddress_formula_witness :
  (exists balance : float,
      LedgerMode.getBalanceOfAddress (Some "A") Runs.ledgerD = Ret balance /\
      units balance
      = Some (received (Some "A") (LedgerMode.chain_transactions Runs.ledgerD)
              - sent (Some "A") (LedgerMode.chain_transactions Runs.ledgerD))%Z) /\
  LedgerMode.getBalanceOfAddress (Some "A")
    (LedgerMode.createTransaction (Runs.transfer "A" "B" 5%float) Runs.ledgerD)
  = LedgerMode.getBalanceOfAddress (Some "A") Runs.ledgerD /\
  LedgerMode.getBalanceOfAddress (Some "Z") Runs.ledgerD = Ret 0%float.
Proof.
  split; [|split].
  - apply (proj1 (getBalanceOfAddress_formula Runs.sha Runs.ledgerD (Some "A")
                    ledgerD_reachable)).
    vm_compute. reflexivity.
  - apply (proj1 (proj2 (getBalanceOfAddress_formula Runs.sha Runs.ledgerD
                           (Some "A") ledgerD_reachable))).
  - apply (proj2 (proj2 (getBalanceOfAddress_formula Runs.sha Runs.ledgerD
                           (Some "Z") ledgerD_reachable)) "Z").
    + reflexivity.
    + vm_compute. intros [H | [H | [H | H]]]; try discriminate H. exact H.
Defined.

Lemma balance_after_mining (SHA256 : string -> string) (fuel : nat)
      (now rewardTo : string) (this this' : LedgerMode.Blockchain)
      (addr : LedgerMode.address) (z : float) :
  LedgerMode.getBalanceOfAddress addr this = Ret z ->
  LedgerMode.minePedingTransactions SHA256 fuel now rewardTo this = Ret this' ->
  LedgerMode.getBalanceOfAddress addr this'
  = Ret (fold_left (LedgerMode.balance_step addr)
                   (map LedgerMode.ETransaction (LedgerMode.pendingTransaction this))
                   z).
Proof.
  intros Hz Hmine. apply minePedingTransactions_prevHash in Hmine.
  destruct Hmine as [block [Hchain [_ [Htx _]]]].
  unfold LedgerMode.getBalanceOfAddress in *.
  rewrite Hchain, balance_blocks_app, Hz. cbn [bind LedgerMode.balance_blocks].
  rewrite Htx. reflexivity.
Qed.

(** X15. [minePedingTransactions] adds one block holding the whole
    pending pool, and leaves in the pool the reward of the caller alone:
    the new balance of every address is its old balance taken through
    the transactions of the old pool by the statements of the scan, in
    the arithmetic of doubles.  When none of them rounds, the balance
    changes exactly by what the pool sent to the address minus what it
    took from it.  The reward just created is not part of it. *)
Theorem minePedingTransactions_balance
        (SHA256 : string -> string) (fuel : nat) (now rewardTo : string)
        (this this' : LedgerMode.Blockchain) (addr : LedgerMode.address)
        (z : float) :
  LedgerMode.getBalanceOfAddress addr this = Ret z ->
  LedgerMode.minePedingTransactions SHA256 fuel now rewardTo this = Ret this' ->
  LedgerMode.getBalanceOfAddress addr this'
  = Ret (fold_left (LedgerMode.balance_step addr)
                   (map LedgerMode.ETransaction (LedgerMode.pendingTransaction this))
                   z) /\
  (forall u : Z,
      units z = Some u ->
      LedgerMode.elements_exact addr
        (map LedgerMode.ETransaction (LedgerMode.pendingTransaction this)) z = true ->
      exists z' : float,
        LedgerMode.getBalanceOfAddress addr this' = Ret z' /\
        units z' = Some (u + received addr (LedgerMode.pendingTransaction this)
                           - sent addr (LedgerMode.pendingTransaction this))%Z) /\
  List.length (LedgerMode.chain this') = S (List.length (LedgerMode.chain this)) /\
  LedgerMode.pendingTransaction this'
  = [LedgerMode.new_Transaction None (Some rewardTo) (LedgerMode.miningReward this)].
Proof.
  intros Hz Hmine.
  pose proof (balance_after_mining SHA256 fuel now rewardTo this this' addr z
                Hz Hmine) as Hafter.
  apply minePedingTransactions_prevHash in Hmine.
  destruct Hmine as [block [Hchain [_ [_ [Hpending _]]]]].
  split; [exact Hafter|]. split; [|split; [|exact Hpending]].
  - intros u Hu Hexact. eexists. split; [exact Hafter|].
    rewrite (fold_balance_units addr _ z u Hu Hexact), txs_delta_received_sent.
    f_equal. lia.
  - rewrite Hchain, length_app. simpl. lia.
Qed.

Lemma minePedingTransactions_balance_witness :
  LedgerMode.getBalanceOfAddress (Some "M") Runs.ledgerD = Ret 100%float /\
  (exists z' : float,
      LedgerMode.getBalanceOfAddress (Some "M") Runs.ledgerD = Ret z' /\
      units z'
      = Some (0 + received (Some "M") (LedgerMode.pendingTransaction Runs.ledgerC)
                - sent (Some "M") (LedgerMode.pendingTransaction Runs.ledgerC))%Z) /\
  List.length (LedgerMode.chain Runs.ledgerD)
  = S (List.length (LedgerMode.chain Runs.ledgerC)) /\
  LedgerMode.pendingTransaction Runs.ledgerD
  = [LedgerMode.new_Transaction None (Some "M")
       (LedgerMode.miningReward Runs.ledgerC)].
Proof.
  assert (Hz : LedgerMode.getBalanceOfAddress (Some "M") Runs.ledgerC = Ret 0%float)
    by reflexivity.
  assert (Hmine : LedgerMode.minePedingTransactions Runs.sha 10 Runs.l2 "M"
                    Runs.ledgerC = Ret Runs.ledgerD)
    by (vm_compute; reflexivity).
  destruct (minePedingTransactions_balance Runs.sha 10 Runs.l2 "M"
              Runs.ledgerC Runs.ledgerD (Some "M") 0%float Hz Hmine)
    as [Hfold [Hunits [Hlen Hpool]]].
  split; [exact Hfold|]. split; [|split; [exact Hlen | exact Hpool]].
  apply (Hunits 0%Z); reflexivity.
Defined.

(** X16. The reward of a mining call is credited by the next mining
    call, whoever makes it: after two calls in a row, the balance of the
    first caller is what it was after the first call plus the mining
    reward, the balance of [null] (the sender of rewards) is that
    balance minus the reward, both computed on doubles, and every other
    balance is unchanged by the second call. *)
Theorem reward_credited_by_next_block
        (SHA256 : string -> string) (fuel1 fuel2 : nat)
        (now1 now2 rewardTo1 rewardTo2 : string)
        (this this1 this2 : LedgerMode.Blockchain)
        (addr : LedgerMode.address) (z : float) :
  LedgerMode.minePedingTransactions SHA256 fuel1 now1 rewardTo1 this = Ret this1 ->
  LedgerMode.getBalanceOfAddress addr this1 = Ret z ->
  LedgerMode.minePedingTransactions SHA256 fuel2 now2 rewardTo2 this1 = Ret this2 ->
  LedgerMode.getBalanceOfAddress addr this2
  = Ret (match addr with
         | Some a => if String.eqb rewardTo1 a
                     then z + LedgerMode.miningReward this else z
         | None => z - LedgerMode.miningReward this
         end)%float.
Proof.
  intros H1 Hz H2.
  rewrite (balance_after_mining SHA256 fuel2 now2 rewardTo2 this1 this2 addr z Hz H2).
  apply minePedingTransactions_prevHash in H1.
  destruct H1 as [_ [_ [_ [_ [Hpending _]]]]].
  rewrite Hpending. cbn [map fold_left LedgerMode.balance_step
    LedgerMode.toAddress LedgerMode.fromAddress LedgerMode.amount].
  destruct addr as [a|]; cbn [LedgerMode.address_eqb].
  - destruct (String.eqb rewardTo1 a); reflexivity.
  - reflexivity.
Qed.

Lemma reward_credited_by_next_block_witness :
  LedgerMode.getBalanceOfAddress (Some "M") Runs.ledgerD
  = Ret (if String.eqb "M" "M"
         then 0 + LedgerMode.miningReward
                    (createTransactions Runs.transfers
                       (LedgerMode.new_Blockchain Runs.sha Runs.t0))
         else 0)%float.
Proof.
  apply (reward_credited_by_next_block Runs.sha 10 10 Runs.l1 Runs.l2 "M" "M"
           (createTransactions Runs.transfers
              (LedgerMode.new_Blockchain Runs.sha Runs.t0))
           Runs.ledgerC Runs.ledgerD (Some "M") 0%float).
  - vm_compute. reflexivity.
  - reflexivity.
  - vm_compute. reflexivity.
Defined.

Lemma createTransactions_fields (txs : list LedgerMode.Transaction) :
  forall this : LedgerMode.Blockchain,
    LedgerMode.chain (createTransactions txs this) = LedgerMode.chain this /\
    LedgerMode.pendingTransaction (createTransactions txs this)
    = (LedgerMode.pendingTransaction this ++ txs)%list /\
    LedgerMode.difficulty (createTransactions txs this)
    = LedgerMode.difficulty this /\
    LedgerMode.miningReward (createTransactions txs this)
    = LedgerMode.miningReward this.
Proof.
  unfold createTransactions.
  induction txs as [|t txs IH]; intro this; cbn [fold_left].
  - rewrite app_nil_r. repeat split.
  - destruct (IH (LedgerMode.createTransaction t this)) as [Hc [Hp [Hd Hr]]].
    rewrite Hc, Hp, Hd, Hr. cbn [LedgerMode.createTransaction LedgerMode.chain
      LedgerMode.pendingTransaction LedgerMode.difficulty LedgerMode.miningReward].
    rewrite <- app_assoc. repeat split.
Qed.

(** X17. Transactions leave the pool in the order they came in: after
    any number of [createTransaction] calls, [minePedingTransactions]
    appends one block, the new tip, whose payload is the pool that was
    there before followed by the submitted transactions in order, keeps
    the earlier blocks, and resets the pool to the reward of the
    caller. *)
Theorem minePedingTransactions_packages_pool
        (SHA256 : string -> string) (fuel : nat) (now rewardTo : string)
        (txs : list LedgerMode.Transaction)
        (this this' : LedgerMode.Blockchain) :
  LedgerMode.minePedingTransactions SHA256 fuel now rewardTo
    (createTransactions txs this) = Ret this' ->
  exists block,
    LedgerMode.chain this' = (LedgerMode.chain this ++ [block])%list /\
    LedgerMode.getLatestBlock this' = Some block /\
    LedgerMode.transaction block
    = LedgerMode.PTransactions (LedgerMode.pendingTransaction this ++ txs)%list /\
    LedgerMode.timestamp block = now /\
    LedgerMode.pendingTransaction this'
    = [LedgerMode.new_Transaction None (Some rewardTo) (LedgerMode.miningReward this)].
Proof.
  intro Hmine.
  destruct (createTransactions_fields txs this) as [Hc [Hp [_ Hr]]].
  unfold LedgerMode.minePedingTransactions in Hmine.
  destruct (LedgerMode.mineBlock SHA256 fuel
              (LedgerMode.difficulty (createTransactions txs this))
              (LedgerMode.new_Block2 SHA256 now
                 (LedgerMode.PTransactions
                    (LedgerMode.pendingTransaction (createTransactions txs this)))))
    as [block| |] eqn:Hblock; cbn [bind] in Hmine; try discriminate Hmine.
  injection Hmine as <-.
  apply ledger_mineBlock_fields in Hblock.
  destruct Hblock as [Htx [_ Hts]].
  exists block. cbn [LedgerMode.chain LedgerMode.pendingTransaction].
  rewrite Hc, Hr. split; [reflexivity|]. split.
  - unfold LedgerMode.getLatestBlock. cbn [LedgerMode.chain].
    apply nth_error_snoc_last.
  - split; [rewrite Htx, Hp; reflexivity|]. split; [exact Hts | reflexivity].
Qed.

Lemma minePedingTransactions_packages_pool_witness :
  exists block,
    LedgerMode.chain Runs.ledgerC
    = (LedgerMode.chain (LedgerMode.new_Blockchain Runs.sha Runs.t0) ++ [block])%list /\
    LedgerMode.getLatestBlock Runs.ledgerC = Some block /\
    LedgerMode.transaction block
    = LedgerMode.PTransactions
        (LedgerMode.pendingTransaction (LedgerMode.new_Blockchain Runs.sha Runs.t0)
         ++ Runs.transfers)%list /\
    LedgerMode.timestamp block = Runs.l1 /\
    LedgerMode.pendingTransaction Runs.ledgerC
    = [LedgerMode.new_Transaction None (Some "M")
         (LedgerMode.miningReward (LedgerMode.new_Blockchain Runs.sha Runs.t0))].
Proof.
  apply (minePedingTransactions_packages_pool Runs.sha 10 Runs.l1 "M"
           Runs.transfers (LedgerMode.new_Blockchain Runs.sha Runs.t0)
           Runs.ledgerC).
  vm_compute. reflexivity.
Defined.

Lemma txs_delta_null (reward : float) (txs : list LedgerMode.Transaction) :
  Forall (tx_ok reward) txs ->
  txs_delta None txs = (- (units_or_zero reward * Z.of_nat (rewards txs)))%Z.
Proof.
  induction 1 as [|t txs [Hto Hfrom] _ IH]; cbn [txs_delta].
  - unfold rewards. simpl. lia.
  - rewrite IH. unfold rewards, tx_delta, LedgerMode.is_reward, amount_units.
    cbn [filter]. unfold LedgerMode.is_reward.
    destruct (LedgerMode.toAddress t) as [to|]; [|contradiction Hto; reflexivity].
    destruct (LedgerMode.fromAddress t) as [from|];
      cbn [LedgerMode.address_eqb List.length].
    + lia.
    + rewrite (Hfrom eq_refl). lia.
Qed.

(** X18. On a ledger built from transfers between two addresses, and
    as long as the scans round nothing, the balance of [null], the
    sender of the rewards, is exactly minus the rewards the chain holds,
    so that with [null] counted all the balances add up to 0. *)
Theorem null_balance_offsets_rewards
        (SHA256 : string -> string) (this : LedgerMode.Blockchain) :
  LedgerMode.reachable_p2p SHA256 this ->
  LedgerMode.balance_exact None this = true ->
  exists (reward : Z) (null : float),
    units (LedgerMode.miningReward this) = Some reward /\
    LedgerMode.getBalanceOfAddress None this = Ret null /\
    units null
    = Some (- (reward * Z.of_nat (LedgerMode.reward_count this)))%Z /\
    (LedgerMode.no_rounding this = true ->
     exists total : Z,
       LedgerMode.grand_total this = Ret (Some total) /\
       units null = Some (- total)%Z).
Proof.
  intros Hreach Hexact.
  pose proof (reachable_p2p_conserving SHA256 this Hreach) as Hcons.
  pose proof (conserving_total this Hcons) as Htotal.
  destruct Hcons as [Hr [Hiter [Hchain _]]].
  destruct (getBalanceOfAddress_units this None Hiter Hexact) as [null [Hnull Hu]].
  rewrite (txs_delta_null _ _ Hchain) in Hu.
  fold (LedgerMode.reward_count this) in Hu.
  exists (units_or_zero (LedgerMode.miningReward this)), null.
  split; [rewrite Hr; reflexivity|]. split; [exact Hnull|]. split; [exact Hu|].
  intro Hno. eexists. split; [exact (Htotal Hno) | exact Hu].
Qed.

Lemma null_balance_offsets_rewards_witness :
  exists (reward : Z) (null : float) (total : Z),
    units (LedgerMode.miningReward Runs.ledgerD) = Some reward /\
    LedgerMode.getBalanceOfAddress None Runs.ledgerD = Ret null /\
    units null
    = Some (- (reward * Z.of_nat (LedgerMode.reward_count Runs.ledgerD)))%Z /\
    LedgerMode.grand_total Runs.ledgerD = Ret (Some total) /\
    units null = Some (- total)%Z.
Proof.
  destruct (null_balance_offsets_rewards Runs.sha Runs.ledgerD
              ledgerD_reachable_p2p eq_refl)
    as [reward [null [Hr [Hnull [Hu Hsum]]]]].
  destruct (Hsum eq_refl) as [total [Htotal Hneg]].
  exists reward, null, total.
  split; [exact Hr|]. split; [exact Hnull|]. split; [exact Hu|].
  split; [exact Htotal | exact Hneg].
Defined.

(** *** Doubles that hold whole numbers

    The sum and the difference of two doubles that hold whole numbers
    are exact as long as the result is at most [2^53] in absolute
    value.  The proofs go through the specification of the operations
    in [SpecFloat]. *)
Section WholeNumbers.
Local Open Scope Z_scope.

Lemma iter_pos_nat {A : Type} (f : A -> A) (p : positive) :
  forall x : A, iter_pos f p x = Nat.iter (Pos.to_nat p) f x.
Proof.
  induction p as [p IH | p IH |]; intro x; cbn [iter_pos].
  - rewrite !IH, Pos2Nat.inj_xI.
    replace (S (2 * Pos.to_nat p))%nat with (S (Pos.to_nat p + Pos.to_nat p))%nat
      by lia.
    rewrite Nat.iter_succ_r, Nat.iter_add. reflexivity.
  - rewrite !IH, Pos2Nat.inj_xO.
    replace (2 * Pos.to_nat p)%nat with (Pos.to_nat p + Pos.to_nat p)%nat by lia.
    rewrite Nat.iter_add. reflexivity.
  - reflexivity.
Qed.

Lemma shr_iter_exact (k : nat) :
  forall p q : positive,
    Zpos p = Zpos q * 2 ^ Z.of_nat k ->
    Nat.iter k shr_1 (Build_shr_record (Zpos p) false false)
    = Build_shr_record (Zpos q) false false.
Proof.
  induction k as [|k IH]; intros p q H.
  - cbn [Nat.iter nat_rect]. rewrite Z.pow_0_r, Z.mul_1_r in H.
    injection H as ->. reflexivity.
  - rewrite Nat.iter_succ.
    rewrite (IH p (q~0)%positive).
    + reflexivity.
    + rewrite H, Nat2Z.inj_succ, Z.pow_succ_r by lia. lia.
Qed.

Lemma iter_xO_value (p d : positive) :
  Zpos (Pos.iter xO p d) = Zpos p * 2 ^ Zpos d.
Proof.
  induction d as [|d IH] using Pos.peano_ind.
  - cbn [Pos.iter]. change (2 ^ 1) with 2. lia.
  - rewrite Pos.iter_succ, Pos2Z.inj_succ, Z.pow_succ_r by lia.
    assert (H : Zpos (Pos.iter xO p d)~0 = 2 * Zpos (Pos.iter xO p d)) by lia.
    rewrite H, IH. lia.
Qed.

Lemma digits_bounds (p : positive) :
  2 ^ (Zpos (digits2_pos p) - 1) <= Zpos p < 2 ^ Zpos (digits2_pos p).
Proof.
  induction p as [p IH | p IH |]; cbn [digits2_pos].
  - rewrite Pos2Z.inj_succ.
    replace (Z.succ (Zpos (digits2_pos p)) - 1) with (Z.succ (Zpos (digits2_pos p) - 1))
      by lia.
    rewrite !Z.pow_succ_r by lia. lia.
  - rewrite Pos2Z.inj_succ.
    replace (Z.succ (Zpos (digits2_pos p)) - 1) with (Z.succ (Zpos (digits2_pos p) - 1))
      by lia.
    rewrite !Z.pow_succ_r by lia. lia.
  - cbn. lia.
Qed.

(** The position of the leading bit of [p * 2^A]. *)
Lemma digits_scaled (p : positive) (A : Z) :
  0 <= A ->
  Z.log2 (Zpos p * 2 ^ A) = Zpos (digits2_pos p) - 1 + A.
Proof.
  intro HA. apply Z.log2_unique; [lia|].
  pose proof (digits_bounds p) as [Hlo Hhi].
  replace (Z.succ (Zpos (digits2_pos p) - 1 + A)) with (Zpos (digits2_pos p) + A)
    by lia.
  rewrite !Z.pow_add_r by lia.
  assert (0 < 2 ^ A) by (apply Z.pow_pos_nonneg; lia).
  split; nia.
Qed.

Lemma digits_same_value (p q : positive) (A B : Z) :
  0 <= A -> 0 <= B ->
  Zpos p * 2 ^ A = Zpos q * 2 ^ B ->
  Zpos (digits2_pos p) + A = Zpos (digits2_pos q) + B.
Proof.
  intros HA HB H.
  pose proof (digits_scaled p A HA) as Hp.
  pose proof (digits_scaled q B HB) as Hq.
  rewrite H in Hp. lia.
Qed.

Lemma canonical_exponent (m : positive) (e : Z) :
  canonical_mantissa prec emax m e = true ->
  fexp prec emax (Zpos (digits2_pos m) + e) = e /\ -1074 <= e.
Proof.
  unfold canonical_mantissa. intro H. apply Z.eqb_eq in H. split; [exact H|].
  unfold fexp, SpecFloat.emin, prec, emax in H. lia.
Qed.

Lemma binary_round_aux_canonical (s : bool) (m : positive) (e : Z) :
  canonical_mantissa prec emax m e = true -> e <= 971 ->
  binary_round_aux prec emax s (Zpos m) e loc_Exact = S754_finite s m e.
Proof.
  intros Hc He. destruct (canonical_exponent m e Hc) as [Hf _].
  unfold binary_round_aux, shr_fexp. cbn [Zdigits2 shr_record_of_loc].
  rewrite Hf, Z.sub_diag. cbn [shr shr_m loc_of_shr_record round_nearest_even].
  cbn [Zdigits2 shr_record_of_loc]. rewrite Hf, Z.sub_diag. cbn [shr shr_m].
  assert (H : (e <=? emax - prec) = true) by (apply Z.leb_le; unfold emax, prec; lia).
  rewrite H. reflexivity.
Qed.

Lemma pow2_cancel (x y A B : Z) :
  0 <= A <= B -> x * 2 ^ A = y * 2 ^ B -> x = y * 2 ^ (B - A).
Proof.
  intros HAB H. replace B with (A + (B - A)) in H at 1 by lia.
  rewrite Z.pow_add_r in H by lia.
  assert (0 < 2 ^ A) by (apply Z.pow_pos_nonneg; lia).
  nia.
Qed.

(** Rounding a number that is a double returns it. *)
Lemma binary_round_exact (s : bool) (p : positive) (ez : Z) (m : positive) (e : Z) :
  -1074 <= ez -> e <= 971 ->
  canonical_mantissa prec emax m e = true ->
  Zpos p * 2 ^ (ez + 1074) = Zpos m * 2 ^ (e + 1074) ->
  binary_round prec emax s p ez = S754_finite s m e.
Proof.
  intros Hez He Hc Hval.
  destruct (canonical_exponent m e Hc) as [Hf Hemin].
  assert (Hd : Zpos (digits2_pos p) + ez = Zpos (digits2_pos m) + e).
  { pose proof (digits_same_value p m (ez + 1074) (e + 1074)
                  ltac:(lia) ltac:(lia) Hval). lia. }
  unfold binary_round, shl_align. rewrite Hd, Hf.
  destruct (e - ez) as [|n|n] eqn:Hdiff.
  - assert (e = ez) by lia. subst e.
    assert (p = m).
    { apply pow2_cancel in Hval; [|lia]. rewrite Z.sub_diag, Z.pow_0_r in Hval.
      lia. }
    subst p. apply binary_round_aux_canonical; assumption.
  - assert (Hp : Zpos p = Zpos m * 2 ^ Zpos n).
    { apply pow2_cancel in Hval; [|lia].
      replace (e + 1074 - (ez + 1074)) with (Zpos n) in Hval by lia. exact Hval. }
    unfold binary_round_aux, shr_fexp. cbn [Zdigits2 shr_record_of_loc].
    rewrite Hd, Hf, Hdiff. cbn [shr].
    rewrite iter_pos_nat.
    rewrite (shr_iter_exact (Pos.to_nat n) p m)
      by (rewrite positive_nat_Z; exact Hp).
    cbn [shr_m loc_of_shr_record round_nearest_even Zdigits2 shr_record_of_loc].
    replace (ez + Zpos n) with e by lia.
    rewrite Hf, Z.sub_diag. cbn [shr shr_m].
    assert (H : (e <=? emax - prec) = true)
      by (apply Z.leb_le; unfold emax, prec; lia).
    rewrite H. reflexivity.
  - assert (Hm : Zpos (Pos.iter xO p n) = Zpos m).
    { rewrite iter_xO_value. symmetry in Hval.
      apply pow2_cancel in Hval; [|lia].
      replace (ez + 1074 - (e + 1074)) with (Zpos n) in Hval by lia.
      symmetry. exact Hval. }
    injection Hm as ->. apply binary_round_aux_canonical; assumption.
Qed.

(** Whole numbers up to [2^53] are doubles. *)
Lemma whole_representable (t : positive) :
  Zpos t <= 2 ^ 53 ->
  exists (m : positive) (e : Z),
    e <= 971 /\
    canonical_mantissa prec emax m e = true /\
    Zpos m * 2 ^ (e + 1074) = Zpos t * 2 ^ 1074.
Proof.
  intro Ht.
  pose proof (digits_bounds t) as [Hlo Hhi].
  destruct (Z.compare_spec (Zpos (digits2_pos t)) 53) as [Heq | Hlt | Hgt].
  - exists t, 0. split; [lia|]. split.
    + unfold canonical_mantissa. rewrite Heq. reflexivity.
    + reflexivity.
  - destruct (53 - Zpos (digits2_pos t)) as [|k|k] eqn:Hk; try lia.
    exists (Pos.iter xO t k), (- Zpos k). split; [lia|].
    assert (Hv : Zpos (Pos.iter xO t k) * 2 ^ (- Zpos k + 1074) = Zpos t * 2 ^ 1074).
    { rewrite iter_xO_value.
      replace 1074 with (Zpos k + (- Zpos k + 1074)) at 2 by lia.
      rewrite (Z.pow_add_r 2 (Zpos k)) by lia. ring. }
    split; [|exact Hv].
    pose proof (digits_same_value (Pos.iter xO t k) t (- Zpos k + 1074) 1074
                  ltac:(lia) ltac:(lia) Hv) as Hd.
    unfold canonical_mantissa. apply Z.eqb_eq.
    replace (Zpos (digits2_pos (Pos.iter xO t k)) + - Zpos k)
      with (53 - Zpos k) by lia.
    unfold fexp, SpecFloat.emin, prec, emax. lia.
  - assert (H53 : Zpos t = 2 ^ 53).
    { assert (2 ^ 53 <= 2 ^ (Zpos (digits2_pos t) - 1))
        by (apply Z.pow_le_mono_r; lia).
      lia. }
    exists 4503599627370496%positive, 1. split; [lia|]. split.
    + reflexivity.
    + rewrite H53. change (1 + 1074) with (Z.succ 1074).
      rewrite Z.pow_succ_r by lia. change (2 ^ 53) with (4503599627370496 * 2).
      ring.
Qed.

Lemma binary_normalize_exact (M ez t : Z) :
  -1074 <= ez ->
  M * 2 ^ (ez + 1074) = t * 2 ^ 1074 ->
  Z.abs t <= 2 ^ 53 ->
  sf_units (binary_normalize prec emax M ez false) = Some (t * 2 ^ 1074).
Proof.
  intros Hez Hval Ht.
  assert (Hpow : 0 < 2 ^ (ez + 1074)) by (apply Z.pow_pos_nonneg; lia).
  assert (Hpow' : 0 < 2 ^ 1074) by (apply Z.pow_pos_nonneg; lia).
  destruct M as [|p|p]; cbn [binary_normalize].
  - cbn [sf_units]. f_equal. lia.
  - destruct t as [|t|t]; try nia.
    destruct (whole_representable t ltac:(lia)) as [m [e [He [Hc Hm]]]].
    rewrite (binary_round_exact false p ez m e Hez He Hc) by lia.
    cbn [sf_units cond_Zopp]. f_equal. exact Hm.
  - destruct t as [|t|t]; try nia.
    destruct (whole_representable t ltac:(lia)) as [m [e [He [Hc Hm]]]].
    rewrite (binary_round_exact true p ez m e Hez He Hc) by lia.
    cbn [sf_units cond_Zopp]. f_equal. lia.
Qed.

Lemma shl_align_value (m : positive) (e e' : Z) :
  e' <= e -> -1074 <= e' ->
  Zpos (fst (shl_align m e e')) * 2 ^ (e' + 1074) = Zpos m * 2 ^ (e + 1074).
Proof.
  intros Hle He'. unfold shl_align.
  destruct (e' - e) as [|d|d] eqn:Hd; cbn [fst]; try lia.
  - replace e' with e by lia. reflexivity.
  - rewrite iter_xO_value.
    replace (e + 1074) with (Zpos d + (e' + 1074)) by lia.
    rewrite (Z.pow_add_r 2 (Zpos d)) by lia. ring.
Qed.

Lemma valid_finite_exponent (s : bool) (m : positive) (e : Z) :
  valid_binary (S754_finite s m e) = true -> -1074 <= e.
Proof.
  cbn [SpecFloat.valid_binary]. unfold bounded. intro H.
  apply andb_true_iff in H. destruct H as [Hc _].
  exact (proj2 (canonical_exponent m e Hc)).
Qed.

Lemma sf_units_Prim2SF (x : float) : sf_units (Prim2SF x) = units x.
Proof. reflexivity. Qed.

(** The sum of two doubles that hold whole numbers is exact when it is
    at most [2^53] in absolute value. *)
Lemma SFadd_exact_whole (x y : spec_float) (a b : Z) :
  valid_binary x = true -> valid_binary y = true ->
  sf_units x = Some (a * 2 ^ 1074) ->
  sf_units y = Some (b * 2 ^ 1074) ->
  Z.abs (a + b) <= 2 ^ 53 ->
  sf_units (SF64add x y) = Some ((a + b) * 2 ^ 1074).
Proof.
  intros Vx Vy Hx Hy Hab.
  assert (Hpow : 0 < 2 ^ 1074) by (apply Z.pow_pos_nonneg; lia).
  destruct x as [sx| sx | | sx mx ex]; try discriminate Hx;
    destruct y as [sy| sy | | sy my ey]; try discriminate Hy;
    cbn [sf_units] in Hx, Hy; injection Hx as Hx; injection Hy as Hy.
  - assert (a = 0) by nia. assert (b = 0) by nia. subst.
    unfold SF64add, SFadd. destruct sx, sy; reflexivity.
  - assert (a = 0) by nia. subst. unfold SF64add, SFadd. cbn [sf_units].
    f_equal. lia.
  - assert (b = 0) by nia. subst. unfold SF64add, SFadd. cbn [sf_units].
    f_equal. lia.
  - pose proof (valid_finite_exponent _ _ _ Vx) as Hex.
    pose proof (valid_finite_exponent _ _ _ Vy) as Hey.
    unfold SF64add, SFadd.
    apply binary_normalize_exact; [lia | | exact Hab].
    rewrite Z.mul_add_distr_r.
    pose proof (shl_align_value mx ex (Z.min ex ey) ltac:(lia) ltac:(lia)) as Sx.
    pose proof (shl_align_value my ey (Z.min ex ey) ltac:(lia) ltac:(lia)) as Sy.
    destruct sx, sy; cbn [cond_Zopp] in *; lia.
Qed.

Lemma SFsub_exact_whole (x y : spec_float) (a b : Z) :
  valid_binary x = true -> valid_binary y = true ->
  sf_units x = Some (a * 2 ^ 1074) ->
  sf_units y = Some (b * 2 ^ 1074) ->
  Z.abs (a - b) <= 2 ^ 53 ->
  sf_units (SF64sub x y) = Some ((a - b) * 2 ^ 1074).
Proof.
  intros Vx Vy Hx Hy Hab.
  assert (Hpow : 0 < 2 ^ 1074) by (apply Z.pow_pos_nonneg; lia).
  destruct x as [sx| sx | | sx mx ex]; try discriminate Hx;
    destruct y as [sy| sy | | sy my ey]; try discriminate Hy;
    cbn [sf_units] in Hx, Hy; injection Hx as Hx; injection Hy as Hy.
  - assert (a = 0) by nia. assert (b = 0) by nia. subst.
    unfold SF64sub, SFsub. destruct sx, sy; reflexivity.
  - assert (a = 0) by nia. subst. unfold SF64sub, SFsub. cbn [sf_units].
    f_equal. destruct sy; cbn [negb cond_Zopp] in *; lia.
  - assert (b = 0) by nia. subst. unfold SF64sub, SFsub. cbn [sf_units].
    f_equal. lia.
  - pose proof (valid_finite_exponent _ _ _ Vx) as Hex.
    pose proof (valid_finite_exponent _ _ _ Vy) as Hey.
    unfold SF64sub, SFsub.
    apply binary_normalize_exact; [lia | | exact Hab].
    rewrite Z.mul_sub_distr_r.
    pose proof (shl_align_value mx ex (Z.min ex ey) ltac:(lia) ltac:(lia)) as Sx.
    pose proof (shl_align_value my ey (Z.min ex ey) ltac:(lia) ltac:(lia)) as Sy.
    destruct sx, sy; cbn [cond_Zopp] in *; lia.
Qed.

Theorem add_exact_whole (x y : float) (a b : Z) :
  units x = Some (a * 2 ^ 1074) ->
  units y = Some (b * 2 ^ 1074) ->
  Z.abs (a + b) <= 2 ^ 53 ->
  units (x + y)%float = Some ((a + b) * 2 ^ 1074).
Proof.
  intros Hx Hy Hab. rewrite <- sf_units_Prim2SF in *. rewrite add_spec.
  apply SFadd_exact_whole; try assumption; apply Prim2SF_valid.
Qed.

Theorem sub_exact_whole (x y : float) (a b : Z) :
  units x = Some (a * 2 ^ 1074) ->
  units y = Some (b * 2 ^ 1074) ->
  Z.abs (a - b) <= 2 ^ 53 ->
  units (x - y)%float = Some ((a - b) * 2 ^ 1074).
Proof.
  intros Hx Hy Hab. rewrite <- sf_units_Prim2SF in *. rewrite sub_spec.
  apply SFsub_exact_whole; try assumption; apply Prim2SF_valid.
Qed.
End WholeNumbers.

Lemma is_whole_units (x : float) :
  is_whole x = true -> units x = Some (whole_number x * 2 ^ 1074)%Z.
Proof.
  unfold is_whole, whole_number, units_or_zero.
  destruct (units x) as [u|]; [|discriminate].
  intro H. apply Z.eqb_eq in H. f_equal.
  rewrite Z.mul_comm. apply Z_div_exact_full_2; [|exact H].
  apply Z.pow_nonzero; lia.
Qed.

Lemma units_whole_bound (x : float) (z : Z) :
  units x = Some (z * 2 ^ 1074)%Z -> whole_number x = z.
Proof.
  unfold whole_number, units_or_zero. intros ->.
  apply Z.div_mul. apply Z.pow_nonzero; lia.
Qed.

Lemma step_exact_whole (addr : LedgerMode.address) (t : LedgerMode.Transaction)
      (balance : float) (z : Z) :
  units balance = Some (z * 2 ^ 1074)%Z ->
  is_whole (LedgerMode.amount t) = true ->
  (Z.abs z + Z.abs (whole_number (LedgerMode.amount t)) <= 2 ^ 53)%Z ->
  LedgerMode.step_exact addr balance (LedgerMode.ETransaction t) = true /\
  exists z' : Z,
    units (LedgerMode.balance_step addr balance (LedgerMode.ETransaction t))
    = Some (z' * 2 ^ 1074)%Z /\
    (Z.abs z' <= Z.abs z + Z.abs (whole_number (LedgerMode.amount t)))%Z.
Proof.
  intros Hz Hw Hbound. apply is_whole_units in Hw.
  set (a := whole_number (LedgerMode.amount t)) in *.
  assert (Hsub : units (balance - LedgerMode.amount t)%float
                 = Some ((z - a) * 2 ^ 1074)%Z)
    by (apply sub_exact_whole; [exact Hz | exact Hw | lia]).
  assert (Hadd : units (balance + LedgerMode.amount t)%float
                 = Some ((z + a) * 2 ^ 1074)%Z)
    by (apply add_exact_whole; [exact Hz | exact Hw | lia]).
  assert (Hback : units (balance - LedgerMode.amount t + LedgerMode.amount t)%float
                  = Some ((z - a + a) * 2 ^ 1074)%Z)
    by (apply add_exact_whole; [exact Hsub | exact Hw | lia]).
  assert (Esub : exact_sub balance (LedgerMode.amount t) = true).
  { unfold exact_sub. rewrite Hz, Hw, Hsub. apply Z.eqb_eq. ring. }
  assert (Eadd : exact_add balance (LedgerMode.amount t) = true).
  { unfold exact_add. rewrite Hz, Hw, Hadd. apply Z.eqb_eq. ring. }
  assert (Eback : exact_add (balance - LedgerMode.amount t)%float
                            (LedgerMode.amount t) = true).
  { unfold exact_add. rewrite Hsub, Hw, Hback. apply Z.eqb_eq. ring. }
  unfold LedgerMode.step_exact, LedgerMode.balance_step.
  destruct (LedgerMode.address_eqb (LedgerMode.fromAddress t) addr);
    destruct (LedgerMode.address_eqb (LedgerMode.toAddress t) addr).
  - rewrite Esub, Eback. split; [reflexivity|].
    exists (z - a + a)%Z. split; [exact Hback | lia].
  - rewrite Esub. split; [reflexivity|].
    exists (z - a)%Z. split; [exact Hsub | lia].
  - rewrite Eadd. split; [reflexivity|].
    exists (z + a)%Z. split; [exact Hadd | lia].
  - split; [reflexivity|]. exists z. split; [exact Hz | lia].
Qed.

Lemma elements_exact_whole (addr : LedgerMode.address)
      (txs : list LedgerMode.Transaction) :
  forall (balance : float) (z : Z),
    units balance = Some (z * 2 ^ 1074)%Z ->
    forallb (fun t => is_whole (LedgerMode.amount t)) txs = true ->
    (Z.abs z + volume txs <= 2 ^ 53)%Z ->
    LedgerMode.elements_exact addr (map LedgerMode.ETransaction txs) balance = true /\
    exists z' : Z,
      units (fold_left (LedgerMode.balance_step addr)
                       (map LedgerMode.ETransaction txs) balance)
      = Some (z' * 2 ^ 1074)%Z /\
      (Z.abs z' <= Z.abs z + volume txs)%Z.
Proof.
  induction txs as [|t txs IH]; intros balance z Hz Hw Hbound;
    cbn [map fold_left LedgerMode.elements_exact volume forallb] in *.
  - split; [reflexivity|]. exists z. split; [exact Hz | lia].
  - apply andb_true_iff in Hw. destruct Hw as [Ht Hw].
    assert (Hvol : (0 <= volume txs)%Z).
    { clear. induction txs as [|t' txs IH]; cbn [volume]; lia. }
    destruct (step_exact_whole addr t balance z Hz Ht ltac:(lia))
      as [Hstep [z1 [Hz1 Hb1]]].
    destruct (IH _ z1 Hz1 Hw ltac:(lia)) as [Hrest [z' [Hz' Hb']]].
    rewrite Hstep, Hrest. split; [reflexivity|].
    exists z'. split; [exact Hz' | lia].
Qed.

Lemma elements_exact_chars (addr : LedgerMode.address) (cs : list ascii)
      (balance : float) :
  LedgerMode.elements_exact addr (map LedgerMode.EChar cs) balance = true.
Proof.
  revert balance. induction cs as [|c cs IH]; intro balance;
    cbn [map LedgerMode.elements_exact LedgerMode.step_exact andb
         LedgerMode.balance_step].
  - reflexivity.
  - apply IH.
Qed.

Lemma volume_app (l1 l2 : list LedgerMode.Transaction) :
  volume (l1 ++ l2) = (volume l1 + volume l2)%Z.
Proof.
  induction l1 as [|t l1 IH]; cbn [app volume]; [reflexivity | rewrite IH; lia].
Qed.

Lemma blocks_exact_whole (addr : LedgerMode.address) :
  forall (blocks : list LedgerMode.Block) (balance : float) (z : Z),
    Forall iterable blocks ->
    units balance = Some (z * 2 ^ 1074)%Z ->
    forallb (fun t => is_whole (LedgerMode.amount t))
            (flat_map LedgerMode.block_transactions blocks) = true ->
    (Z.abs z + volume (flat_map LedgerMode.block_transactions blocks) <= 2 ^ 53)%Z ->
    LedgerMode.blocks_exact addr blocks balance = true.
Proof.
  induction blocks as [|b blocks IH]; intros balance z Hall Hz Hw Hbound.
  - reflexivity.
  - inversion Hall as [|b' blocks' Hb Hblocks]; subst.
    cbn [LedgerMode.blocks_exact flat_map] in *.
    rewrite forallb_app in Hw. apply andb_true_iff in Hw. destruct Hw as [Hwb Hw].
    rewrite volume_app in Hbound.
    unfold LedgerMode.block_transactions in Hwb, Hbound at 1.
    unfold iterable in Hb.
    destruct (LedgerMode.transaction b) as [s | txs |];
      cbn [LedgerMode.js_iterate] in *.
    + rewrite elements_exact_chars, fold_balance_chars. cbn [andb volume] in *.
      apply (IH balance z); assumption.
    + assert (Hvol : (0 <= volume (flat_map LedgerMode.block_transactions blocks))%Z).
      { clear. induction (flat_map LedgerMode.block_transactions blocks)
          as [|t' l IHl]; cbn [volume]; lia. }
      destruct (elements_exact_whole addr txs balance z Hz Hwb ltac:(lia))
        as [Htxs [z' [Hz' Hb']]].
      rewrite Htxs. cbn [andb]. apply (IH _ z'); try assumption. lia.
    + contradiction Hb. reflexivity.
Qed.

(** X22. Whole amounts never round as long as they stay small.  On a
    ledger built by the public methods from transfers between two
    addresses, if the amounts in the chain are whole numbers whose
    absolute values add up to at most [2^53], no subtraction and no
    addition of [getBalanceOfAddress] rounds, for any address; so the
    balances of the addresses in the chain add up exactly to
    [miningReward] times the number of reward transactions in the
    chain. *)
Theorem whole_amounts_conservation
        (SHA256 : string -> string) (this : LedgerMode.Blockchain) :
  LedgerMode.reachable_p2p SHA256 this ->
  forallb (fun t => is_whole (LedgerMode.amount t))
          (LedgerMode.chain_transactions this) = true ->
  (volume (LedgerMode.chain_transactions this) <= 2 ^ 53)%Z ->
  (forall addr, LedgerMode.balance_exact addr this = true) /\
  LedgerMode.no_rounding this = true /\
  LedgerMode.grand_total this
  = Ret (Some (units_or_zero (LedgerMode.miningReward this)
               * Z.of_nat (LedgerMode.reward_count this))%Z).
Proof.
  intros Hreach Hw Hbound.
  pose proof (reachable_p2p_conserving SHA256 this Hreach) as Hcons.
  assert (Hexact : forall addr, LedgerMode.balance_exact addr this = true).
  { intro addr. destruct Hcons as [_ [Hiter _]].
    unfold LedgerMode.balance_exact.
    apply (blocks_exact_whole addr (LedgerMode.chain this) 0%float 0%Z);
      [exact Hiter | reflexivity | exact Hw |].
    unfold LedgerMode.chain_transactions in Hbound. cbn [Z.abs]. lia. }
  assert (Hno : LedgerMode.no_rounding this = true).
  { unfold LedgerMode.no_rounding. apply forallb_forall.
    intros a _. apply Hexact. }
  split; [exact Hexact|]. split; [exact Hno|].
  exact (conserving_total this Hcons Hno).
Qed.

Lemma whole_amounts_conservation_witness :
  (forall addr, LedgerMode.balance_exact addr Runs.ledgerD = true) /\
  LedgerMode.no_rounding Runs.ledgerD = true /\
  LedgerMode.grand_total Runs.ledgerD
  = Ret (Some (units_or_zero (LedgerMode.miningReward Runs.ledgerD)
               * Z.of_nat (LedgerMode.reward_count Runs.ledgerD))%Z).
Proof.
  apply (whole_amounts_conservation Runs.sha Runs.ledgerD ledgerD_reachable_p2p).
  - vm_compute. reflexivity.
  - vm_compute. discriminate.
Defined.

(** *** Mining and the payload *)

Lemma ledger_mineBlock_set_transaction (SHA256 : string -> string)
      (p : LedgerMode.payload) (d : nat) :
  forall (fuel : nat) (this : LedgerMode.Block),
    LedgerMode.mineBlock SHA256 fuel d (LedgerMode.set_transaction this p)
    = (mined <- LedgerMode.mineBlock SHA256 fuel d this ;;
       Ret (LedgerMode.set_transaction mined p)).
Proof.
  induction fuel as [|fuel IH]; intro this.
  - reflexivity.
  - cbn [LedgerMode.mineBlock].
    destruct (Array_join (d + 1) "0") as [zeros| |]; cbn [bind];
      [|reflexivity|reflexivity].
    change (LedgerMode.hash (LedgerMode.set_transaction this p))
      with (LedgerMode.hash this).
    destruct (negb (String.eqb (substring 0 d (LedgerMode.hash this)) zeros)).
    + rewrite <- IH. reflexivity.
    + reflexivity.
Qed.

(** X19. The search of [minePedingTransactions] does not depend on the
    pending transactions: two ledgers of the same difficulty that mine
    at the same timestamp get blocks with the same nonce and the same
    hash, whatever their pools and whoever is rewarded. *)
Theorem minePedingTransactions_ignores_pool
        (SHA256 : string -> string) (fuel : nat) (now rewardTo1 rewardTo2 : string)
        (this1 this1' this2 : LedgerMode.Blockchain) :
  LedgerMode.difficulty this2 = LedgerMode.difficulty this1 ->
  LedgerMode.minePedingTransactions SHA256 fuel now rewardTo1 this1 = Ret this1' ->
  exists this2' block1 block2,
    LedgerMode.minePedingTransactions SHA256 fuel now rewardTo2 this2 = Ret this2' /\
    LedgerMode.getLatestBlock this1' = Some block1 /\
    LedgerMode.getLatestBlock this2' = Some block2 /\
    LedgerMode.transaction block1
    = LedgerMode.PTransactions (LedgerMode.pendingTransaction this1) /\
    LedgerMode.transaction block2
    = LedgerMode.PTransactions (LedgerMode.pendingTransaction this2) /\
    LedgerMode.hash block2 = LedgerMode.hash block1 /\
    LedgerMode.nonce block2 = LedgerMode.nonce block1.
Proof.
  intros Hd H1. unfold LedgerMode.minePedingTransactions in *.
  destruct (LedgerMode.mineBlock SHA256 fuel (LedgerMode.difficulty this1)
              (LedgerMode.new_Block2 SHA256 now
                 (LedgerMode.PTransactions (LedgerMode.pendingTransaction this1))))
    as [block1| |] eqn:Hblock1; cbn [bind] in H1; try discriminate H1.
  injection H1 as <-.
  change (LedgerMode.new_Block2 SHA256 now
            (LedgerMode.PTransactions (LedgerMode.pendingTransaction this2)))
    with (LedgerMode.set_transaction
            (LedgerMode.new_Block2 SHA256 now
               (LedgerMode.PTransactions (LedgerMode.pendingTransaction this1)))
            (LedgerMode.PTransactions (LedgerMode.pendingTransaction this2))).
  rewrite Hd, ledger_mineBlock_set_transaction, Hblock1. cbn [bind].
  eexists. exists block1. eexists.
  split; [reflexivity|].
  unfold LedgerMode.getLatestBlock. cbn [LedgerMode.chain].
  rewrite !nth_error_snoc_last.
  split; [reflexivity|]. split; [reflexivity|].
  apply ledger_mineBlock_fields in Hblock1. destruct Hblock1 as [Htx _].
  split; [exact Htx|]. split; [reflexivity|]. split; reflexivity.
Qed.

Lemma minePedingTransactions_ignores_pool_witness :
  exists this2' block1 block2,
    LedgerMode.minePedingTransactions Runs.sha 10 Runs.l1 "N"
      (LedgerMode.new_Blockchain Runs.sha Runs.t0) = Ret this2' /\
    LedgerMode.getLatestBlock Runs.ledgerC = Some block1 /\
    LedgerMode.getLatestBlock this2' = Some block2 /\
    LedgerMode.transaction block1
    = LedgerMode.PTransactions
        (LedgerMode.pendingTransaction
           (createTransactions Runs.transfers
              (LedgerMode.new_Blockchain Runs.sha Runs.t0))) /\
    LedgerMode.transaction block2
    = LedgerMode.PTransactions
        (LedgerMode.pendingTransaction (LedgerMode.new_Blockchain Runs.sha Runs.t0)) /\
    LedgerMode.hash block2 = LedgerMode.hash block1 /\
    LedgerMode.nonce block2 = LedgerMode.nonce block1.
Proof.
  apply (minePedingTransactions_ignores_pool Runs.sha 10 Runs.l1 "M" "N"
           (createTransactions Runs.transfers
              (LedgerMode.new_Blockchain Runs.sha Runs.t0))
           Runs.ledgerC (LedgerMode.new_Blockchain Runs.sha Runs.t0)).
  - reflexivity.
  - vm_compute. reflexivity.
Defined.

(** ** Validation of the transaction ledger *)

(** X20. With SHA-256, [isChainValid()] answers false on every ledger
    built by the public methods that holds a mined block, and the block
    it reports is the first mined one: its [prevHash] is the empty
    string, so it fails the link check if it passes the hash check. *)
Theorem ledger_mined_chain_verdict (this : LedgerMode.Blockchain) :
  LedgerMode.reachable Runs.sha this ->
  2 <= List.length (LedgerMode.chain this) ->
  LedgerMode.isChainValid Runs.sha this = false /\
  exists b,
    nth_error (LedgerMode.chain this) 1 = Some b /\
    LedgerMode.prevHash b = EmptyString /\
    LedgerMode.validate Runs.sha this
    = if String.eqb (LedgerMode.hash b) (LedgerMode.calculateHash Runs.sha b)
      then PrevHashMismatch 1 else HashMismatch 1.
Proof.
  intros Hreach Hlen.
  destruct (reachable_shape Runs.sha this Hreach) as [now [rest [Hchain Hrest]]].
  assert (Hv : exists b,
             nth_error (LedgerMode.chain this) 1 = Some b /\
             LedgerMode.prevHash b = EmptyString /\
             LedgerMode.validate Runs.sha this
             = if String.eqb (LedgerMode.hash b)
                             (LedgerMode.calculateHash Runs.sha b)
               then PrevHashMismatch 1 else HashMismatch 1).
  { unfold LedgerMode.validate. rewrite Hchain in *.
    destruct rest as [|b rest]; simpl in Hlen; [lia|].
    inversion Hrest as [|b' rest' [_ Hprev] _]; subst.
    exists b. split; [reflexivity|]. split; [exact Hprev|].
    assert (Hg : exists s,
               LedgerMode.hash (LedgerMode.createGenesisBlock Runs.sha now)
               = Runs.sha s) by (eexists; reflexivity).
    destruct Hg as [s Hg].
    cbn [LedgerMode.validate_from]. rewrite Hprev, Hg.
    destruct (String.eqb (LedgerMode.hash b)
                (LedgerMode.calculateHash Runs.sha b));
      cbn [negb]; [|reflexivity].
    destruct (String.eqb_spec EmptyString (Runs.sha s)) as [Heq | _].
    - symmetry in Heq. apply sha256_not_empty in Heq. contradiction.
    - reflexivity. }
  split; [|exact Hv].
  destruct Hv as [b [_ [_ Hv]]]. unfold LedgerMode.isChainValid. rewrite Hv.
  destruct (String.eqb _ _); reflexivity.
Qed.

Lemma ledger_mined_chain_verdict_witness :
  LedgerMode.isChainValid Runs.sha Runs.ledgerD = false /\
  exists b,
    nth_error (LedgerMode.chain Runs.ledgerD) 1 = Some b /\
    LedgerMode.prevHash b = EmptyString /\
    LedgerMode.validate Runs.sha Runs.ledgerD
    = if String.eqb (LedgerMode.hash b) (LedgerMode.calculateHash Runs.sha b)
      then PrevHashMismatch 1 else HashMismatch 1.
Proof.
  apply (ledger_mined_chain_verdict Runs.ledgerD).
  - exact ledgerD_reachable.
  - simpl. lia.
Defined.
